(** * pack-dependency-actions: the version check and the pack pipeline

    A shallow embedding of
    - [danger/pack-version-check.ts] (and its JavaScript twin), the check
      that classifies the pin file of a pull request against main and the
      merge base,
    - [danger/shared-config.js], the configurations Temporal's
      repositories share and the two entry points that run them, and
    - [pack-dependency/index.js], the action that clones, builds and packs
      an upstream commit and rewrites the pin file and [package.json].

    JavaScript strings are [string]; their contents are taken to be ASCII,
    which is what commit identifiers, branch names and paths are.  A value
    of type [string | null] is an [option string].  Calls into the host
    (child processes, the file system, the Actions toolkit, RegExp, JSON)
    are fields of a host record; the code's own control flow, including
    [try]/[catch]/[finally], is written in a small monad that threads the
    host's world, carries a thrown error and records every host call. *)

From Stdlib Require Import Ascii.
From stdpp Require Import base strings list sorting gmap.

(** ** Effects: world passing, exceptions, and a log of host calls *)

Module Eff.

Inductive Res (A : Type) : Type :=
| Ret (a : A)
| Throw (message : string).
Arguments Ret {A} a.
Arguments Throw {A} message.

Definition isRet {A} (r : Res A) : bool :=
  match r with Ret _ => true | Throw _ => false end.

Section Monad.
Context {W Ev : Type}.

(** A computation takes the world and gives an outcome, the new world,
    and the host calls it made, oldest first. *)
Definition M (A : Type) : Type := W → Res A * W * list Ev.

Definition ret {A} (a : A) : M A := λ w, (Ret a, w, []).

Definition throw {A} (message : string) : M A := λ w, (Throw message, w, []).

Definition bind {A B} (m : M A) (k : A → M B) : M B := λ w,
  match m w with
  | (Ret a, w1, l1) =>
      match k a w1 with (r, w2, l2) => (r, w2, l1 ++ l2) end
  | (Throw e, w1, l1) => (Throw e, w1, l1)
  end.

(** [try { m } catch (error) { handler error.message }] *)
Definition try_catch {A} (m : M A) (handler : string → M A) : M A := λ w,
  match m w with
  | (Ret a, w1, l1) => (Ret a, w1, l1)
  | (Throw e, w1, l1) =>
      match handler e w1 with (r, w2, l2) => (r, w2, l1 ++ l2) end
  end.

(** [try { m } finally { cleanup }]: the cleanup always runs; when it
    throws, its error replaces the outcome of [m]. *)
Definition try_finally {A} (m : M A) (cleanup : M unit) : M A := λ w,
  match m w with
  | (r, w1, l1) =>
      match cleanup w1 with
      | (Ret _, w2, l2) => (r, w2, l1 ++ l2)
      | (Throw e, w2, l2) => (Throw e, w2, l1 ++ l2)
      end
  end.

(** A host call that cannot fail and leaves the world alone. *)
Definition emit (ev : Ev) : M unit := λ w, (Ret tt, w, [ev]).

(** A host call with a result: [op] is the host's answer, [ev] what is
    recorded of the call. *)
Definition call {A} (op : W → Res A * W) (ev : Res A → Ev) : M A := λ w,
  match op w with (r, w1) => (r, w1, [ev r]) end.

(** A host call that always answers. *)
Definition ask {A} (op : W → A * W) (ev : A → Ev) : M A := λ w,
  match op w with (a, w1) => (Ret a, w1, [ev a]) end.

Definition lift {A} (r : Res A) : M A := λ w, (r, w, []).

Definition outcome {A} (x : Res A * W * list Ev) : Res A := x.1.1.
Definition world {A} (x : Res A * W * list Ev) : W := x.1.2.
Definition calls {A} (x : Res A * W * list Ev) : list Ev := x.2.
End Monad.

Arguments M : clear implicits.

(** What is said of a computation below. *)
Section Vocabulary.
Context {W Ev : Type}.

(** [m] never throws. *)
Definition returns {A} (m : M W Ev A) : Prop :=
  ∀ w, isRet (outcome (m w)) = true.

(** A property of logs that holds of the empty log and of the
    concatenation of two logs it holds of. *)
Class Sequential (Φ : list Ev → Prop) : Prop := {
  sequential_nil : Φ [];
  sequential_app l1 l2 : Φ l1 → Φ l2 → Φ (l1 ++ l2);
}.

(** The log of [m] satisfies [Φ], in every world. *)
Definition traced (Φ : list Ev → Prop) {A} (m : M W Ev A) : Prop :=
  ∀ w, Φ (calls (m w)).

(** Every host call [m] makes satisfies [P]. *)
Definition only (P : Ev → Prop) {A} (m : M W Ev A) : Prop :=
  traced (Forall P) m.

(** When [m] makes a call that satisfies [Bad], it throws. *)
Definition guards (Bad : Ev → Prop) {A} (m : M W Ev A) : Prop :=
  ∀ w, Exists Bad (calls (m w)) → isRet (outcome (m w)) = false.

(** A property of logs that a longer log keeps, on either side. *)
Class Monotone (Cause : list Ev → Prop) : Prop := {
  monotone_l l1 l2 : Cause l1 → Cause (l1 ++ l2);
  monotone_r l1 l2 : Cause l2 → Cause (l1 ++ l2);
}.

(** When [m] throws, its log shows why: it satisfies [Cause]. *)
Definition blames (Cause : list Ev → Prop) {A} (m : M W Ev A) : Prop :=
  ∀ w, isRet (outcome (m w)) = false → Cause (calls (m w)).
End Vocabulary.

(** The monad is used through stdpp's [x ← m; k] and [m;; k]. *)
Global Instance M_ret {W Ev} : MRet (M W Ev) := @ret W Ev.
Global Instance M_bind {W Ev} : MBind (M W Ev) := λ A B k m, bind m k.

End Eff.

Import Eff.

(** ** Strings as JavaScript uses them here *)

Module JS.

Definition nl : string := String "010"%char "".
Definition dquote : string := String "034"%char "".

(** Truthiness of a string: everything but the empty string. *)
Definition truthy (s : string) : bool := negb (bool_decide (s = "")).

(** Truthiness of a [string | null]. *)
Definition truthy_opt (v : option string) : bool :=
  match v with
  | Some s => truthy s
  | None => false
  end.

(** [a === b] on [string | null]. *)
Definition strict_eq (a b : option string) : bool := bool_decide (a = b).

(** [a || b] on strings. *)
Definition or_else (a b : string) : string := if truthy a then a else b.

(** [v || b] on [string | null]. *)
Definition or_else_opt (v : option string) (b : string) : string :=
  match v with
  | Some s => or_else s b
  | None => b
  end.

Fixpoint trimStart (s : string) : string :=
  match s with
  | String c s' => if Ascii.is_space c then trimStart s' else s
  | "" => ""
  end.

Definition trimEnd (s : string) : string :=
  String.rev (trimStart (String.rev s)).

Definition trim (s : string) : string := trimEnd (trimStart s).

(** Cut a string at every character that satisfies [sep]; the result is
    never empty. *)
Fixpoint split_go (sep : ascii → bool) (cur : string) (s : string) : list string :=
  match s with
  | "" => [String.rev cur]
  | String c s' =>
      if sep c then String.rev cur :: split_go sep "" s'
      else split_go sep (String c cur) s'
  end.

(** [s.split(c)] for a one-character separator. *)
Definition split (c : ascii) (s : string) : list string :=
  split_go (λ x, bool_decide (x = c)) "" s.

(** The lines a regular expression with the [m] flag sees: cut at line
    feed and carriage return. *)
Definition lines (s : string) : list string :=
  split_go (λ x, bool_decide (x = "010"%char) || bool_decide (x = "013"%char)) "" s.

Fixpoint startsWith (p s : string) : bool :=
  match p, s with
  | "", _ => true
  | String a p', String b s' => bool_decide (a = b) && startsWith p' s'
  | String _ _, "" => false
  end.

Definition endsWith (suffix s : string) : bool :=
  startsWith (String.rev suffix) (String.rev s).

(** [l.includes(x)] *)
Definition includes (l : list string) (x : string) : bool := bool_decide (x ∈ l).

Fixpoint drop (n : nat) (s : string) : string :=
  match n, s with
  | S n', String _ s' => drop n' s'
  | _, _ => s
  end.

Fixpoint map (f : ascii → ascii) (s : string) : string :=
  match s with
  | "" => ""
  | String c s' => String (f c) (map f s')
  end.

Fixpoint forallb (p : ascii → bool) (s : string) : bool :=
  match s with
  | "" => true
  | String c s' => p c && forallb p s'
  end.

(** The longest prefix whose characters satisfy [p], and the rest. *)
Fixpoint span (p : ascii → bool) (s : string) : string * string :=
  match s with
  | String c s' =>
      if p c then let '(a, b) := span p s' in (String c a, b) else ("", s)
  | "" => ("", "")
  end.

Definition is_digit (c : ascii) : bool :=
  match Ascii.is_nat c with Some _ => true | None => false end.

End JS.


(** ** The version check: [danger/pack-version-check.ts]

    The TypeScript plugin and its JavaScript twin differ in one place: the
    TypeScript [checkPackVersion] attaches the three versions it read to
    the verdict of [evaluateBlockingConditions], the JavaScript one returns
    that verdict as it is.  [getVersions], [evaluateBlockingConditions] and
    [formatComment] are the same text in both. *)

Module Danger.

(** What the host is asked, and what it answered. *)
Inductive Call : Type :=
| ExecSync (command : string) (answer : Res string)
| ExistsSync (path : string) (answer : bool)
| ReadFileSync (path : string) (answer : Res string)
| ConsoleLog (text : string)
| ConsoleError (text : string)
| Markdown (text : string)
| Fail (text : string).

(** [child_process], [fs], [RegExp] and [String.prototype.replace] with a
    global literal pattern.  [RegExp_test p s] is [new RegExp(p).test(s)],
    which throws on a pattern that is not a regular expression. *)
Record Host (W : Type) : Type := {
  execSync : string → W → Res string * W;
  existsSync : string → W → bool * W;
  readFileSync : string → W → Res string * W;
  RegExp_test : string → string → Res bool;
  replace_all : string → string → string → string;
}.
Arguments execSync {W}.
Arguments existsSync {W}.
Arguments readFileSync {W}.
Arguments RegExp_test {W}.
Arguments replace_all {W}.

(** [danger.github.pr.head.ref] and the three lists of [danger.git]. *)
Record DangerDSL : Type := {
  pr_head_ref : string;
  modified_files : list string;
  created_files : list string;
  deleted_files : list string;
}.

(** [PackVersionOptions]: every field may be left out. *)
Record PackVersionOptions : Type := {
  filePath : option string;
  commentTitle : option string;
  allowPattern : option string;
  updateCommand : option string;
  commentBodyTemplate : option string;
}.

Record Versions : Type := {
  main : option string;
  pr : option string;
  base : option string;
}.

(** The result of [evaluateBlockingConditions]. *)
Record Verdict : Type := {
  shouldBlock : bool;
  reason : string;
}.

(** [CheckResult]: the optional fields are [None] when the property is
    not set, [Some None] when it is [null]. *)
Record CheckResult : Type := {
  verdict : Verdict;
  mainVersion : option (option string);
  prVersion : option (option string);
  baseVersion : option (option string);
}.

(** An early [return { shouldBlock, reason }]. *)
Definition bare (v : Verdict) : CheckResult :=
  {| verdict := v; mainVersion := None; prVersion := None; baseVersion := None |}.

(** [{ ...evaluation, mainVersion: versions.main, prVersion: versions.pr,
    baseVersion: versions.base }] *)
Definition withVersions (evaluation : Verdict) (versions : Versions) : CheckResult :=
  {| verdict := evaluation;
     mainVersion := Some (main versions);
     prVersion := Some (pr versions);
     baseVersion := Some (base versions) |}.

(** The reason texts, named after the spec's reason codes. *)
Definition reason_allowed_branch : string := "Branch is allowed to modify versions".
Definition reason_untouched : string := "PR hasn't modified the version file".
Definition reason_match : string := "Versions match".
Definition reason_both_missing : string := "Version file doesn't exist in either branch".
Definition reason_new_file : string := "New version file added (doesn't exist on main)".
Definition reason_deleted : string := "Version file was deleted".
Definition reason_no_common_ancestor_value : string :=
  "PR introduced version file that doesn't exist at merge base".
Definition reason_branch_only_edit : string :=
  "PR modified version while main hasn't changed (invalid version or test)".
Definition reason_divergent_edit : string :=
  "Both PR and main have modified the version file differently (divergent versions)".

(** [evaluateBlockingConditions(versions, { isCreated, isDeleted })] *)
Definition evaluateBlockingConditions
    (versions : Versions) (isCreated isDeleted : bool) : Verdict :=
  let main := main versions in
  let pr := pr versions in
  let base := base versions in
  if JS.strict_eq main pr then
    {| shouldBlock := false; reason := reason_match |}
  else if negb (JS.truthy_opt main) && negb (JS.truthy_opt pr) then
    {| shouldBlock := false; reason := reason_both_missing |}
  else if negb (JS.truthy_opt main) && JS.truthy_opt pr && isCreated then
    {| shouldBlock := false; reason := reason_new_file |}
  else if isDeleted then
    {| shouldBlock := true; reason := reason_deleted |}
  else
    let reason :=
      if negb (JS.truthy_opt base) then reason_no_common_ancestor_value
      else if JS.strict_eq base main then reason_branch_only_edit
      else reason_divergent_edit in
    {| shouldBlock := true; reason := reason |}.

(** The reader of the working copy: [content.split('\n')[0].trim()]. *)
Definition firstLine (content : string) : string :=
  JS.trim (hd "" (JS.split "010" content)).

(** The ten bytes that follow the title in the default template, as
    both plugin files have them. *)
Definition refresh_emoji : string :=
  String "195" (String "176" (String "197" (String "184" (String "226"
    (String "128" (String "157" (String "226" (String "128" (String "158" ""))))))))).

(** [MultiCheckResult].  An element [{ filePath, ...result }] of
    [results] is the pair of its [filePath] and the properties of
    [result], which has no [filePath] of its own. *)
Record MultiCheckResult (P R : Type) : Type := {
  results : list (P * R);
  hasFailures : bool;
}.
Arguments results {P R}.
Arguments hasFailures {P R}.

(** What a log of host calls shows: whether [fail] was called, whether
    a comment was posted, and whether a call only reads (git or the
    working copy). *)
Definition isFail (c : Call) : bool :=
  match c with Fail _ => true | _ => false end.

Definition isMarkdown (c : Call) : bool :=
  match c with Markdown _ => true | _ => false end.

Definition isRead (c : Call) : Prop :=
  match c with
  | ExecSync _ _ | ExistsSync _ _ | ReadFileSync _ _ => True
  | _ => False
  end.

(** The string has no line feed. *)
Definition oneLine (s : string) : bool :=
  JS.forallb (λ c, negb (bool_decide (c = "010"%char))) s.

Section WithHost.
Context {W : Type} (host : Host W) (danger : DangerDSL).

Definition gitShowHead (rev filePath : string) : string :=
  "git show " +:+ rev +:+ ":" +:+ filePath +:+ " 2>/dev/null | head -n 1".

(** One [try { versions.x = execSync(command).trim() } catch (e) {}]. *)
Definition tryExecTrim (command : string) : M W Call (option string) :=
  try_catch
    (out ← call (execSync host command) (ExecSync command);
     mret (Some (JS.trim out)))
    (λ _, mret None).

(** The three reads inside the outer [try] of [getVersions]. *)
Definition readVersions (filePath : string) : M W Call Versions :=
  main ← tryExecTrim (gitShowHead "origin/main" filePath);
  pr ← try_catch
    (there ← ask (existsSync host filePath) (ExistsSync filePath);
     if there : bool then
       content ← call (readFileSync host filePath) (ReadFileSync filePath);
       mret (Some (firstLine content))
     else mret None)
    (λ _, mret None);
  base ← try_catch
    (out ← call (execSync host "git merge-base HEAD origin/main")
                (ExecSync "git merge-base HEAD origin/main");
     let mergeBase := JS.trim out in
     if JS.truthy mergeBase then tryExecTrim (gitShowHead mergeBase filePath)
     else mret None)
    (λ _, mret None);
  mret {| main := main; pr := pr; base := base |}.

(** [getVersions(filePath)].  Every statement of its outer [try] sits in
    a [try] of its own with an empty handler, so the outer handler
    (a [console.error]) is never entered; see
    [getVersions_outer_handler_dead]. *)
Definition getVersions (filePath : string) : M W Call Versions :=
  try_catch (readVersions filePath)
    (λ e, emit (ConsoleError ("Error getting versions: " +:+ e));;
          mret {| main := None; pr := None; base := None |}).

(** The versions [getVersions] returns in the world [w]; it never
    throws ([getVersions_returns]). *)
Definition versionsRead (filePath : string) (w : W) : Versions :=
  match outcome (getVersions filePath w) with
  | Ret versions => versions
  | Throw _ => {| main := None; pr := None; base := None |}
  end.

(** [formatComment(options)] *)
Definition formatComment (template : option string)
    (title filePath : string) (mainVersion prVersion : option string)
    (updateCommand reason : string) : string :=
  if JS.truthy_opt template then
    replace_all host "{reason}" reason
      (replace_all host "{update_command}" updateCommand
        (replace_all host "{pr_version}" (JS.or_else_opt prVersion "missing")
          (replace_all host "{main_version}" (JS.or_else_opt mainVersion "missing")
            (replace_all host "{file_path}" filePath
              (replace_all host "{comment_title}" title (default "" template))))))
  else
    "## " +:+ title +:+ " " +:+ refresh_emoji +:+ JS.nl +:+ JS.nl +:+
    "The pack version in `" +:+ filePath +:+ "` differs from the main branch." +:+
    JS.nl +:+ JS.nl +:+
    "**Main branch:** `" +:+ JS.or_else_opt mainVersion "missing" +:+ "`" +:+ JS.nl +:+
    "**This PR:** `" +:+ JS.or_else_opt prVersion "missing" +:+ "`" +:+ JS.nl +:+ JS.nl +:+
    "To update this PR with the latest version from main, run:" +:+ JS.nl +:+
    "```bash" +:+ JS.nl +:+ updateCommand +:+ JS.nl +:+ "```" +:+ JS.nl +:+ JS.nl +:+
    "**Reason:** " +:+ reason.

(** The options after destructuring with their defaults. *)
Definition trackedPath (options : PackVersionOptions) : string :=
  default ".ui-sha" (filePath options).
Definition allowPatternOf (options : PackVersionOptions) : string :=
  default "^(update|generate|auto)-.*" (allowPattern options).

(** [allowPattern && new RegExp(allowPattern).test(branchName)] *)
Definition allowListed (options : PackVersionOptions) : Res bool :=
  if JS.truthy (allowPatternOf options)
  then RegExp_test host (allowPatternOf options) (pr_head_ref danger)
  else Ret false.

Definition isModified (options : PackVersionOptions) : bool :=
  JS.includes (modified_files danger) (trackedPath options).
Definition isCreated (options : PackVersionOptions) : bool :=
  JS.includes (created_files danger) (trackedPath options).
Definition isDeleted (options : PackVersionOptions) : bool :=
  JS.includes (deleted_files danger) (trackedPath options).

(** The negation of [!isModified && !isCreated && !isDeleted]. *)
Definition touched (options : PackVersionOptions) : bool :=
  negb (negb (isModified options) && negb (isCreated options) &&
        negb (isDeleted options)).

(** The part of [checkPackVersion] both files share: everything up to
    the [return], with [early] and [finish] building the returned
    object. *)
Definition checkPackVersionWith {R : Type}
    (early : Verdict → R) (finish : Verdict → Versions → R)
    (options : PackVersionOptions) : M W Call R :=
  let filePath := trackedPath options in
  let commentTitle := default "Version Mismatch Detected" (commentTitle options) in
  let allowPattern := allowPatternOf options in
  let updateCommand :=
    default "git fetch origin main && git merge origin/main" (updateCommand options) in
  let commentBodyTemplate := commentBodyTemplate options in
  let branchName := pr_head_ref danger in
  allowed ← lift (allowListed options);
  if allowed : bool then
    emit (ConsoleLog ("Branch '" +:+ branchName +:+ "' matches allow pattern '" +:+
                      allowPattern +:+ "'"));;
    mret (early {| shouldBlock := false; reason := reason_allowed_branch |})
  else
    let isModified := isModified options in
    let isCreated := isCreated options in
    let isDeleted := isDeleted options in
    if negb isModified && negb isCreated && negb isDeleted then
      emit (ConsoleLog ("PR hasn't modified " +:+ filePath));;
      mret (early {| shouldBlock := false; reason := reason_untouched |})
    else
      versions ← getVersions filePath;
      let evaluation := evaluateBlockingConditions versions isCreated isDeleted in
      (if shouldBlock evaluation then
         emit (Markdown (formatComment commentBodyTemplate commentTitle filePath
                           (main versions) (pr versions) updateCommand
                           (reason evaluation)));;
         emit (Fail ("Version check failed in " +:+ filePath +:+ ": " +:+
                     reason evaluation))
       else mret tt);;
      mret (finish evaluation versions).

(** [checkPackVersion] of [pack-version-check.ts]. *)
Definition checkPackVersion (options : PackVersionOptions) : M W Call CheckResult :=
  checkPackVersionWith bare withVersions options.

(** [checkPackVersion] of the JavaScript plugin. *)
Definition checkPackVersion_js (options : PackVersionOptions) : M W Call Verdict :=
  checkPackVersionWith id (λ evaluation _, evaluation) options.

(** The loop of [checkMultiplePackVersions] from the configurations
    that are left, with [results] and [hasFailures] as they stand:
<<
  for (const config of configs) {
    const result = await checkPackVersion(config);
    results.push({ filePath: ..., ...result });
    if (result.shouldBlock) { hasFailures = true; }
  }
  return { results, hasFailures };
>>
    [check] is the plugin's [checkPackVersion], [label] the [filePath]
    the plugin puts in the element. *)
Fixpoint checkEach {P R : Type} (check : PackVersionOptions → M W Call R)
    (label : PackVersionOptions → P) (blocks : R → bool)
    (configs : list PackVersionOptions)
    (results : list (P * R)) (hasFailures : bool)
    : M W Call (MultiCheckResult P R) :=
  match configs with
  | [] => mret {| results := results; hasFailures := hasFailures |}
  | config :: rest =>
      result ← check config;
      let results := results ++ [(label config, result)] in
      let hasFailures := if blocks result then true else hasFailures in
      checkEach check label blocks rest results hasFailures
  end.

(** [checkMultiplePackVersions] of [pack-version-check.ts]: the
    element's path is [config.filePath || '.ui-sha']. *)
Definition checkMultiplePackVersions (configs : list PackVersionOptions)
    : M W Call (MultiCheckResult string CheckResult) :=
  checkEach checkPackVersion
    (λ config, JS.or_else_opt (filePath config) ".ui-sha")
    (λ result, shouldBlock (verdict result))
    configs [] false.

(** [checkMultiplePackVersions] of the JavaScript plugin: the element's
    path is [config.filePath], [undefined] when it is left out. *)
Definition checkMultiplePackVersions_js (configs : list PackVersionOptions)
    : M W Call (MultiCheckResult (option string) Verdict) :=
  checkEach checkPackVersion_js filePath shouldBlock configs [] false.

End WithHost.

End Danger.


(** ** The shared configuration: [danger/shared-config.js]

    The module requires the JavaScript plugin, so the checks it runs are
    [checkPackVersion_js] and [checkMultiplePackVersions_js].  A
    configuration object is a [PackVersionOptions]: each of the five
    properties is a string, or it is left out or [undefined], which
    [checkPackVersion] does not tell apart.  An object given as overrides
    is an [Overrides], where the two are told apart. *)

Module SharedConfig.

Import Danger.

(** The two emoji of the templates of this file, in UTF-8. *)
Definition arrows_emoji : string :=
  String "240" (String "159" (String "148" (String "132" ""))).

Definition package_emoji : string :=
  String "240" (String "159" (String "147" (String "166" ""))).

(** A template literal, line by line. *)
Fixpoint joinLines (lines : list string) : string :=
  match lines with
  | [] => ""
  | [line] => line
  | line :: rest => line +:+ JS.nl +:+ joinLines rest
  end.

(** [defaultConfig.ui] *)
Definition defaultConfig_ui : PackVersionOptions :=
  {| filePath := Some ".ui-sha";
     commentTitle := Some "UI Pack Version Mismatch";
     allowPattern := Some "^(update|generate|release)-ui-.*";
     updateCommand := Some "pnpm run update-ui";
     commentBodyTemplate := Some (joinLines
       [ "";
         "## {comment_title} " +:+ arrows_emoji;
         "";
         "The UI pack version in `{file_path}` differs from the main branch.";
         "";
         "**Main branch:** `{main_version}`";
         "**This PR:** `{pr_version}`";
         "";
         "To update this PR with the latest version from main, run:";
         "```bash";
         "{update_command}";
         "```";
         "";
         "Or merge the latest main:";
         "```bash";
         "git fetch origin main && git merge origin/main";
         "```";
         "";
         "**Reason:** {reason}";
         "" ]) |}.

(** [defaultConfig.registry] *)
Definition defaultConfig_registry : PackVersionOptions :=
  {| filePath := Some ".registry-sha";
     commentTitle := Some "Registry Pack Version Mismatch";
     allowPattern := Some "^(update|generate|release)-registry-.*";
     updateCommand := Some "pnpm run update-registry";
     commentBodyTemplate := Some (joinLines
       [ "";
         "## {comment_title} " +:+ package_emoji;
         "";
         "The Registry pack version in `{file_path}` differs from the main branch.";
         "";
         "**Main branch:** `{main_version}`";
         "**This PR:** `{pr_version}`";
         "";
         "To update this PR with the latest version from main, run:";
         "```bash";
         "{update_command}";
         "```";
         "";
         "**Reason:** {reason}";
         "" ]) |}.

(** An object given as overrides.  A property is left out ([None]),
    present with the value [undefined] ([Some None]), or a string: the
    spread syntax copies a property that is present, whatever its
    value. *)
Record Overrides : Type := {
  setFilePath : option (option string);
  setCommentTitle : option (option string);
  setAllowPattern : option (option string);
  setUpdateCommand : option (option string);
  setCommentBodyTemplate : option (option string);
}.

(** [{}] *)
Definition noOverrides : Overrides :=
  {| setFilePath := None; setCommentTitle := None; setAllowPattern := None;
     setUpdateCommand := None; setCommentBodyTemplate := None |}.

(** A property of [{ ...defaults, ...overrides }]: that of the
    overrides when they have it, [undefined] included. *)
Definition spreadField {A} (defaults : option A) (overrides : option (option A))
    : option A :=
  match overrides with
  | Some value => value
  | None => defaults
  end.

(** [{ ...defaults, ...overrides }] *)
Definition spread (defaults : PackVersionOptions) (overrides : Overrides)
    : PackVersionOptions :=
  {| filePath := spreadField (filePath defaults) (setFilePath overrides);
     commentTitle := spreadField (commentTitle defaults) (setCommentTitle overrides);
     allowPattern := spreadField (allowPattern defaults) (setAllowPattern overrides);
     updateCommand := spreadField (updateCommand defaults) (setUpdateCommand overrides);
     commentBodyTemplate :=
       spreadField (commentBodyTemplate defaults) (setCommentBodyTemplate overrides) |}.

(** The options of [runTemporalPackChecks]: the two flags are booleans
    or left out, [ui] and [registry] are objects or left out,
    [customPacks] is an array or left out. *)
Record TemporalPackOptions : Type := {
  checkUI : option bool;
  ui : option Overrides;
  checkRegistry : option bool;
  registry : option Overrides;
  customPacks : option (list PackVersionOptions);
}.

(** [c.toUpperCase()] for one ASCII character. *)
Definition toUpperCase (c : ascii) : ascii :=
  let n := nat_of_ascii c in
  if bool_decide (97 ≤ n) && bool_decide (n ≤ 122) then ascii_of_nat (n - 32) else c.

(** [name.charAt(0).toUpperCase() + name.slice(1)] *)
Definition capitalized (name : string) : string :=
  match name with
  | "" => ""
  | String c rest => String (toUpperCase c) rest
  end.

(** [createPackConfig(name, overrides)] *)
Definition createPackConfig (name : string) (overrides : Overrides)
    : PackVersionOptions :=
  let defaults :=
    {| filePath := Some ("." +:+ name +:+ "-sha");
       commentTitle := Some (capitalized name +:+ " Pack Version Mismatch");
       allowPattern := Some ("^(update|generate|release)-" +:+ name +:+ "-.*");
       updateCommand := Some ("pnpm run update-" +:+ name);
       commentBodyTemplate := Some (joinLines
         [ "";
           "## {comment_title} " +:+ package_emoji;
           "";
           "The " +:+ name +:+ " pack version in `{file_path}` differs from the main branch.";
           "";
           "**Main branch:** `{main_version}`";
           "**This PR:** `{pr_version}`";
           "";
           "To fix this:";
           "```bash";
           "{update_command}";
           "```";
           "";
           "**Reason:** {reason}";
           "" ]) |} in
  spread defaults overrides.

(** The two tests of [smartPackChecks] on a changed file. *)
Definition isUIFile (f : string) : bool :=
  JS.startsWith "packages/ui/" f || JS.startsWith "src/components/" f ||
  bool_decide (f = ".ui-sha").

Definition isRegistryFile (f : string) : bool :=
  JS.startsWith "packages/registry/" f || JS.startsWith "src/registry/" f ||
  bool_decide (f = ".registry-sha").

(** [{ results: [], hasFailures: false }] *)
Definition nothingChecked : MultiCheckResult (option string) Verdict :=
  {| results := []; hasFailures := false |}.

Section WithHost.
Context {W : Type} (host : Host W) (danger : DangerDSL).

(** The configurations [runTemporalPackChecks] collects, in the order
    of its three [push]es. *)
Definition collectConfigs (options : TemporalPackOptions)
    : list PackVersionOptions :=
  let configs := [] in
  let configs :=
    if negb (bool_decide (checkUI options = Some false))
    then configs ++ [spread defaultConfig_ui (default noOverrides (ui options))]
    else configs in
  let configs :=
    if bool_decide (checkRegistry options = Some true)
    then configs ++
         [spread defaultConfig_registry (default noOverrides (registry options))]
    else configs in
  match customPacks options with
  | Some packs => configs ++ packs
  | None => configs
  end.

(** [runTemporalPackChecks(options)] *)
Definition runTemporalPackChecks (options : TemporalPackOptions)
    : M W Call (MultiCheckResult (option string) Verdict) :=
  let configs := collectConfigs options in
  if bool_decide (0 < length configs)
  then checkMultiplePackVersions_js host danger configs
  else mret nothingChecked.

(** The configurations [smartPackChecks] collects from the modified
    and created files. *)
Definition smartConfigs : list PackVersionOptions :=
  let allChangedFiles := modified_files danger ++ created_files danger in
  let configs := [] in
  let configs :=
    if existsb isUIFile allChangedFiles
    then configs ++ [defaultConfig_ui] else configs in
  if existsb isRegistryFile allChangedFiles
  then configs ++ [defaultConfig_registry] else configs.

(** [smartPackChecks()] *)
Definition smartPackChecks : M W Call (MultiCheckResult (option string) Verdict) :=
  let configs := smartConfigs in
  if bool_decide (0 < length configs)
  then checkMultiplePackVersions_js host danger configs
  else
    emit (ConsoleLog "No pack-related files were modified, skipping pack checks");;
    mret nothingChecked.

End WithHost.

End SharedConfig.


(** ** Parsed JSON, as far as [package.json] is handled *)

Module Json.

(** A value [JSON.parse] can return.  The properties of an object are
    kept in creation order, which is what [JSON.stringify] prints (after
    the integer-like keys).  Of a number only its being zero matters
    here; [shown] is how the host would print it. *)
#[local] Set Warnings "-register-all".
Inductive JSON : Type :=
| JNull
| JBool (b : bool)
| JNumber (isZero : bool) (shown : string)
| JString (s : string)
| JArray (items : list JSON)
| JObject (props : list (string * JSON)).
#[local] Set Warnings "register-all".

(** [!!v] *)
Definition truthy (v : JSON) : bool :=
  match v with
  | JNull => false
  | JBool b => b
  | JNumber isZero _ => negb isZero
  | JString s => JS.truthy s
  | JArray _ | JObject _ => true
  end.

(** An own property of an object. *)
Fixpoint get (props : list (string * JSON)) (key : string) : option JSON :=
  match props with
  | [] => None
  | (k, v) :: rest => if bool_decide (k = key) then Some v else get rest key
  end.

(** Define or overwrite an own property: an existing key keeps its
    place, a new one goes last. *)
Fixpoint put (props : list (string * JSON)) (key : string) (v : JSON)
    : list (string * JSON) :=
  match props with
  | [] => [(key, v)]
  | (k, old) :: rest =>
      if bool_decide (k = key) then (k, v) :: rest else (k, old) :: put rest key v
  end.

(** [object[key] = v] for a value [v] that is not an object: the key
    [__proto__], unless it is an own property, reaches the setter of
    [Object.prototype], which ignores such a value. *)
Definition assign (props : list (string * JSON)) (key : string) (v : JSON)
    : list (string * JSON) :=
  match get props key with
  | None => if bool_decide (key = "__proto__") then props else put props key v
  | Some _ => put props key v
  end.

Fixpoint decimal (acc : N) (s : string) : option N :=
  match s with
  | "" => Some acc
  | String c s' =>
      match Ascii.is_nat c with
      | Some d => decimal (10 * acc + N.of_nat d)%N s'
      | None => None
      end
  end.

(** The array index a property key denotes, if any: a canonical decimal
    below [2^32 - 1]. *)
Definition arrayIndex (key : string) : option N :=
  match key with
  | "" => None
  | String c rest =>
      if bool_decide (c = "0"%char) && negb (bool_decide (rest = "")) then None
      else match decimal 0 key with
           | Some n => if bool_decide (n < 4294967295)%N then Some n else None
           | None => None
           end
  end.

(** [array[key] = v]: an index is written, growing the array with holes
    (which print as [null]); [length] refuses a string; any other key
    becomes a property that [JSON.stringify] does not print. *)
Definition assignArray (items : list JSON) (key : string) (v : JSON)
    : Res (list JSON) :=
  match arrayIndex key with
  | Some i =>
      let size := N.of_nat (length items) in
      if bool_decide (i < size)%N then Ret (<[N.to_nat i := v]> items)
      else Ret (items ++ replicate (N.to_nat (i - size)) JNull ++ [v])
  | None =>
      if bool_decide (key = "length") then Throw "Invalid array length"
      else Ret items
  end.

(** Lines 191 to 195 of [index.js], in sloppy mode:
<<
    if (!packageJson.dependencies) { packageJson.dependencies = {}; }
    packageJson.dependencies[packageName] = value;
>>
    on whatever [JSON.parse] returned. *)
Definition setDependency (packageJson : JSON) (packageName value : string)
    : Res JSON :=
  match packageJson with
  | JNull => Throw "Cannot read properties of null (reading 'dependencies')"
  | JBool _ | JNumber _ _ | JString _ =>
      (* the assignment of [{}] to a primitive is dropped *)
      Throw ("Cannot set properties of undefined (setting '" +:+ packageName +:+ "')")
  | JArray items =>
      (* [dependencies] becomes a property of the array that is not printed *)
      Ret (JArray items)
  | JObject props =>
      let fresh := JObject (assign [] packageName (JString value)) in
      match get props "dependencies" with
      | None => Ret (JObject (put props "dependencies" fresh))
      | Some d =>
          if negb (truthy d) then Ret (JObject (put props "dependencies" fresh))
          else match d with
               | JObject deps =>
                   Ret (JObject (put props "dependencies"
                          (JObject (assign deps packageName (JString value)))))
               | JArray items =>
                   match assignArray items packageName (JString value) with
                   | Ret items' => Ret (JObject (put props "dependencies" (JArray items')))
                   | Throw e => Throw e
                   end
               | _ => Ret (JObject props)
               end
      end
  end.

(** The keys of an object, in creation order. *)
Definition keys (props : list (string * JSON)) : list string := props.*1.

(** The own property [key] of a value, when the value is an object that
    has it. *)
Definition field (v : JSON) (key : string) : option JSON :=
  match v with
  | JObject props => get props key
  | _ => None
  end.

End Json.

(** ** The pack pipeline: [pack-dependency/index.js] *)

Module Pack.

(** The host calls of [run], with the host's answers. *)
Inductive Call : Type :=
| Info (text : string)
| Warning (text : string)
| SetOutput (name value : string)
| SetFailed (message : string)
| ReadFile (path : string) (answer : Res string)
| WriteFile (path content : string) (answer : Res unit)
| Mkdtemp (prefix : string) (answer : Res string)
| Mkdir (path : string) (answer : Res unit)
| Readdir (path : string) (answer : Res (list string))
| Rename (oldPath newPath : string) (answer : Res unit)
| Rm (path : string) (answer : Res unit)
| Exec (command : string) (args : list string) (answer : list string * Res unit)
| Chdir (directory : string) (answer : Res unit)
| ReposGet (owner repo : option string) (answer : Res string).

(** [fs.promises], [@actions/exec], [process.chdir], the GitHub API,
    [path], [os] and [JSON].  [exec] answers with the chunks its stdout
    listener received and with how the command ended (a non-zero exit
    code throws); [repos_get] answers with [data.default_branch]. *)
Record Host (W : Type) : Type := {
  readFile : string → W → Res string * W;
  writeFile : string → string → W → Res unit * W;
  mkdtemp : string → W → Res string * W;
  mkdir : string → W → Res unit * W;
  readdir : string → W → Res (list string) * W;
  rename : string → string → W → Res unit * W;
  rm : string → W → Res unit * W;
  exec : string → list string → W → (list string * Res unit) * W;
  chdir : string → W → Res unit * W;
  repos_get : option string → option string → W → Res string * W;
  path_join : list string → string;
  os_tmpdir : string;
  JSON_parse : string → Res Json.JSON;
  JSON_stringify : Json.JSON → string;
}.
Arguments readFile {W}.
Arguments writeFile {W}.
Arguments mkdtemp {W}.
Arguments mkdir {W}.
Arguments readdir {W}.
Arguments rename {W}.
Arguments rm {W}.
Arguments exec {W}.
Arguments chdir {W}.
Arguments repos_get {W}.
Arguments path_join {W}.
Arguments os_tmpdir {W}.
Arguments JSON_parse {W}.
Arguments JSON_stringify {W}.

(** The action's inputs, and [GITHUB_WORKSPACE].  The two required
    inputs, [repository] and [token], are the values the environment
    holds for them (the empty string when an input is not supplied);
    the others are what [core.getInput] returns, the empty string when
    an input is not supplied. *)
Record Inputs : Type := {
  repository : string;
  target_sha : string;
  package_name : string;
  pack_destination : string;
  package_command : string;
  pack_command : string;
  file_path : string;
  token : string;
  GITHUB_WORKSPACE : option string;
}.

Definition is_hex (c : ascii) : bool :=
  JS.is_digit c ||
  match c with
  | "a" | "b" | "c" | "d" | "e" | "f" => true
  | _ => false
  end%char.

Definition is_sha (line : string) : bool :=
  bool_decide (String.length line = 40) && JS.forallb is_hex line.

(** [content.match(/^[a-f0-9]{40}$/m)]: the first line that is exactly
    forty lower-case hexadecimal digits. *)
Definition matchSha (content : string) : option string :=
  List.find is_sha (JS.lines content).

(** [tgzFiles]: [files.filter(f => f.endsWith('.tgz')).sort()] *)
Definition tgzFiles (files : list string) : list string :=
  merge_sort String.le (List.filter (JS.endsWith ".tgz") files).

(** [packedFile.match(/([0-9]+\.[0-9]+\.[0-9]+)\.tgz$/)], group 1.  Read
    from the end: [.tgz], then three runs of digits with a dot between
    them; the first run reaches as far left as digits go. *)
Definition matchVersion (packedFile : string) : option string :=
  let r := String.rev packedFile in
  if JS.startsWith "zgt." r then
    let '(patch, r1) := JS.span JS.is_digit (JS.drop 4 r) in
    match r1 with
    | String "." r2 =>
        let '(minor, r3) := JS.span JS.is_digit r2 in
        match r3 with
        | String "." r4 =>
            let '(major, _) := JS.span JS.is_digit r4 in
            if JS.truthy patch && JS.truthy minor && JS.truthy major
            then Some (String.rev (patch +:+ "." +:+ minor +:+ "." +:+ major))
            else None
        | _ => None
        end
    | _ => None
    end
  else None.

(** [packageName.replace(/[@\/]/g, '-').replace(/^-/, '')] *)
Definition cleanName (packageName : string) : string :=
  let dashed :=
    JS.map (λ c, if bool_decide (c = "@"%char) || bool_decide (c = "/"%char)
                 then "-"%char else c) packageName in
  match dashed with
  | String "-" rest => rest
  | _ => dashed
  end.

(** What is written to the version file. *)
Definition fileContent (packageName fullSha : string) : string :=
  "# SHA of the last packed version of " +:+ JS.or_else packageName "package" +:+
  JS.nl +:+ fullSha +:+ JS.nl.

(** What a stdout listener that assigns [data.toString().trim()] holds
    in the end: the last chunk, trimmed. *)
Definition lastChunkTrimmed (chunks : list string) : string :=
  from_option JS.trim "" (last chunks).

(** What a log of host calls shows: whether the run was marked as
    failed, what it wrote (attempts included, in order), and the outputs
    it set. *)
Definition isSetFailed (c : Call) : bool :=
  match c with SetFailed _ => true | _ => false end.

Definition failed (l : list Call) : bool := existsb isSetFailed l.

Definition isWriteFile (c : Call) : bool :=
  match c with WriteFile _ _ _ => true | _ => false end.

Definition writeCalls (l : list Call) : list Call := List.filter isWriteFile l.

(** The call neither writes a file nor marks the run as failed. *)
Definition quiet (c : Call) : Prop :=
  isWriteFile c = false ∧ isSetFailed c = false.

Definition outputs (l : list Call) : list (string * string) :=
  omap (λ c, match c with SetOutput name value => Some (name, value) | _ => None end) l.

(** The call reads or writes no file but [path], and renames none. *)
Definition touchesOnly (path : string) (c : Call) : Prop :=
  match c with
  | ReadFile p _ | WriteFile p _ _ => p = path
  | Rename _ _ _ => False
  | _ => True
  end.

Section WithHost.
Context {W : Type} (host : Host W) (inputs : Inputs).

Definition info (text : string) : M W Call unit := emit (Info text).
Definition setOutput (name value : string) : M W Call unit :=
  emit (SetOutput name value).

(** [await exec.exec(command, args, { listeners })]: gives the chunks
    the listener received, throws when the command fails. *)
Definition execute (command : string) (args : list string)
    : M W Call (list string) :=
  '(chunks, ended) ← ask (exec host command args) (Exec command args);
  match ended with
  | Ret _ => mret chunks
  | Throw e => throw e
  end.

(** [core.getInput(name, { required: true })] on the value [raw] the
    environment holds for the input: the toolkit throws when that
    value is empty and only then trims it, so an input of white space
    is returned as the empty string without an error. *)
Definition required (name raw : string) : M W Call string :=
  if JS.truthy raw then mret (JS.trim raw)
  else throw ("Input required and not supplied: " +:+ name).

(** Lines 26 to 38: the SHA the version file holds, or [''] *)
Definition readLastSha (filePath : string) : M W Call string :=
  try_catch
    (content ← call (readFile host filePath) (ReadFile filePath);
     match matchSha content with
     | Some sha =>
         info ("Last SHA from " +:+ filePath +:+ ": " +:+ sha);;
         mret sha
     | None => mret ""
     end)
    (λ _, info ("No existing " +:+ filePath +:+ " found");; mret "").

(** Lines 97 to 116: the change log since [lastSha].  The listener
    appends every chunk, also those of a command that fails later. *)
Definition generateChangelog (lastSha fullSha : string) : M W Call string :=
  if JS.truthy lastSha then
    info ("Generating changelog from " +:+ lastSha +:+ " to " +:+ fullSha +:+ "...");;
    let args := ["log"; "--oneline"; lastSha +:+ ".." +:+ fullSha] in
    '(chunks, ended) ← ask (exec host "git" args) (Exec "git" args);
    let changelog := foldr String.app "" chunks in
    match ended with
    | Ret _ =>
        (if JS.truthy changelog
         then info "Changelog:";; info changelog
         else mret tt);;
        mret changelog
    | Throw _ =>
        emit (Warning "Could not generate changelog");;
        mret changelog
    end
  else mret "".

(** Lines 143 to 152: the packed file, the last of the sorted [.tgz]
    entries of the destination directory *)
Definition findPackedFile (fullPackDest : string) : M W Call string :=
  files ← call (readdir host fullPackDest) (Readdir fullPackDest);
  let tgzFiles := tgzFiles files in
  if bool_decide (length tgzFiles = 0) then throw "No packed file found"
  else
    let packedFile := default "" (tgzFiles !! (length tgzFiles - 1)) in
    info ("Packed file: " +:+ packedFile);;
    mret packedFile.

(** Lines 154 to 175: rename with the short SHA when a package name is
    given; the result is [finalPackage] *)
Definition renamePacked (packageName packDestination fullPackDest
    packedFile shortSha : string) : M W Call string :=
  if JS.truthy packageName then
    let version := default "0.0.0" (matchVersion packedFile) in
    let newName :=
      cleanName packageName +:+ "-" +:+ version +:+ "-" +:+ shortSha +:+ ".tgz" in
    let oldPath := path_join host [fullPackDest; packedFile] in
    let newPath := path_join host [fullPackDest; newName] in
    call (rename host oldPath newPath) (Rename oldPath newPath);;
    info ("Renamed to: " +:+ newName);;
    mret (path_join host [packDestination; newName])
  else mret (path_join host [packDestination; packedFile]).

(** Lines 180 to 183 *)
Definition updateVersionFile (filePath packageName fullSha : string)
    : M W Call unit :=
  info ("Updating " +:+ filePath +:+ " with SHA: " +:+ fullSha);;
  let content := fileContent packageName fullSha in
  call (writeFile host filePath content) (WriteFile filePath content).

(** Lines 185 to 201 *)
Definition updatePackageJson (packageName finalPackage originalDir : string)
    : M W Call unit :=
  if JS.truthy packageName && JS.truthy finalPackage then
    info ("Updating package.json to reference " +:+ finalPackage);;
    let packageJsonPath := path_join host [originalDir; "package.json"] in
    text ← call (readFile host packageJsonPath) (ReadFile packageJsonPath);
    packageJson ← lift (JSON_parse host text);
    packageJson ← lift (Json.setDependency packageJson packageName
                          ("file:" +:+ finalPackage));
    let content := JSON_stringify host packageJson +:+ JS.nl in
    call (writeFile host packageJsonPath content) (WriteFile packageJsonPath content)
  else mret tt.

(** Lines 47 to 95: clone, check out the target and ask git for the SHA
    it names.  Gives [fullSha] and [shortSha]. *)
Definition checkout (repository targetSha token tempDir : string)
    : M W Call (string * string) :=
  info ("Cloning " +:+ repository +:+ "...");;
  execute "git"
    ["clone";
     "https://x-access-token:" +:+ token +:+ "@github.com/" +:+ repository +:+ ".git";
     path_join host [tempDir; "repo"]];;
  let repoDir := path_join host [tempDir; "repo"] in
  call (chdir host repoDir) (Chdir repoDir);;
  checkoutTarget ←
    (if negb (JS.truthy targetSha) then
       info "No target SHA specified, fetching default branch...";;
       let parts := JS.split "/" repository in
       let owner := parts !! 0 in
       let repo := parts !! 1 in
       branch ← call (repos_get host owner repo) (ReposGet owner repo);
       info ("Using default branch: " +:+ branch);;
       mret branch
     else mret targetSha);
  info ("Checking out " +:+ checkoutTarget +:+ "...");;
  execute "git" ["checkout"; checkoutTarget];;
  full ← execute "git" ["rev-parse"; "HEAD"];
  let fullSha := lastChunkTrimmed full in
  short ← execute "git" ["rev-parse"; "--short"; "HEAD"];
  let shortSha := lastChunkTrimmed short in
  info ("Checked out SHA: " +:+ fullSha +:+ " (short: " +:+ shortSha +:+ ")");;
  setOutput "full-sha" fullSha;;
  setOutput "short-sha" shortSha;;
  mret (fullSha, shortSha).

(** Lines 119 to 141: install, build, and pack into the destination
    directory.  Gives [originalDir] and [fullPackDest]. *)
Definition installAndPack (packDestination packageCommand packCommand : string)
    : M W Call (string * string) :=
  info "Installing dependencies...";;
  execute "pnpm" ["install"; "--frozen-lockfile"];;
  (if JS.truthy packageCommand then
     info ("Running package command: " +:+ packageCommand);;
     execute "sh" ["-c"; packageCommand];;
     mret tt
   else mret tt);;
  originalDir ←
    match GITHUB_WORKSPACE inputs with
    | Some dir => mret dir
    | None =>
        throw ("The " +:+ JS.dquote +:+ "path" +:+ JS.dquote +:+
               " argument must be of type string. Received undefined")
    end;
  let fullPackDest := path_join host [originalDir; packDestination] in
  call (mkdir host fullPackDest) (Mkdir fullPackDest);;
  (if JS.truthy packCommand then
     info ("Running custom pack command: " +:+ packCommand);;
     execute "sh" ["-c"; packCommand]
   else
     info "Running default pack command...";;
     execute "pnpm" ["pack"; "--pack-destination"; fullPackDest]);;
  mret (originalDir, fullPackDest).

(** Lines 47 to 178: from the clone to the return to the original
    directory.  Gives [fullSha], [finalPackage] and [originalDir]. *)
Definition buildAndPack (repository targetSha packageName packDestination
    packageCommand packCommand token tempDir lastSha : string)
    : M W Call (string * string * string) :=
  '(fullSha, shortSha) ← checkout repository targetSha token tempDir;
  changelog ← generateChangelog lastSha fullSha;
  setOutput "changelog" changelog;;
  '(originalDir, fullPackDest) ←
    installAndPack packDestination packageCommand packCommand;
  packedFile ← findPackedFile fullPackDest;
  finalPackage ←
    renamePacked packageName packDestination fullPackDest packedFile shortSha;
  setOutput "package-file" finalPackage;;
  call (chdir host originalDir) (Chdir originalDir);;
  mret (fullSha, finalPackage, originalDir).

(** The inputs after [||] has supplied their defaults. *)
Definition targetShaOf : string := JS.or_else (target_sha inputs) "".
Definition packDestinationOf : string := JS.or_else (pack_destination inputs) "./packs".
Definition filePathOf : string := JS.or_else (file_path inputs) ".ui-sha".

(** Lines 10 to 44: the inputs, the last SHA and the temporary
    directory.  Gives [repository], [token], [lastSha] and [tempDir]. *)
Definition setup : M W Call (string * string * string * string) :=
  repository ← required "repository" (repository inputs);
  token ← required "token" (token inputs);
  info ("Repository: " +:+ repository);;
  info ("Target SHA: " +:+ JS.or_else targetShaOf "default branch");;
  info ("Package name: " +:+ package_name inputs);;
  info ("Pack destination: " +:+ packDestinationOf);;
  info ("File path: " +:+ filePathOf);;
  lastSha ← readLastSha filePathOf;
  setOutput "last-sha" lastSha;;
  let tmpPrefix := path_join host [os_tmpdir host; "pack-"] in
  tempDir ← call (mkdtemp host tmpPrefix) (Mkdtemp tmpPrefix);
  info ("Using temp directory: " +:+ tempDir);;
  mret (repository, token, lastSha, tempDir).

(** Lines 180 to 203: the two writes and the closing message. *)
Definition commit (fullSha finalPackage originalDir : string) : M W Call unit :=
  updateVersionFile filePathOf (package_name inputs) fullSha;;
  updatePackageJson (package_name inputs) finalPackage originalDir;;
  info "Pack complete!".

(** The two writes of [commit], as they appear in the log. *)
Definition pinWrite (fullSha : string) (answer : Res unit) : Call :=
  WriteFile filePathOf (fileContent (package_name inputs) fullSha) answer.
Definition manifestWrite (originalDir content : string) (answer : Res unit) : Call :=
  WriteFile (path_join host [originalDir; "package.json"]) content answer.

(** [run()] *)
Definition run : M W Call unit :=
  try_catch
    ('(repository, token, lastSha, tempDir) ← setup;
     try_finally
       ('(fullSha, finalPackage, originalDir) ←
          buildAndPack repository targetShaOf (package_name inputs)
            packDestinationOf (package_command inputs) (pack_command inputs)
            token tempDir lastSha;
        commit fullSha finalPackage originalDir)
       (call (rm host tempDir) (Rm tempDir)))
    (λ message, emit (SetFailed message)).

End WithHost.

(** The [try] block of [run] that the [finally] clause guards, lines 47
    to 203, for the values the lines before it computed. *)
Definition packAndCommit {W : Type} (host : Host W) (inputs : Inputs)
    (repository token tempDir lastSha : string) : M W Call unit :=
  '(fullSha, finalPackage, originalDir) ←
    buildAndPack host inputs repository (targetShaOf inputs) (package_name inputs)
      (packDestinationOf inputs) (package_command inputs) (pack_command inputs)
      token tempDir lastSha;
  commit host inputs fullSha finalPackage originalDir.




(** *** Why a run fails, as its log shows it *)

(** The changelog command, the one command whose failure [run]
    survives. *)
Definition isChangelog (command : string) (args : list string) : bool :=
  bool_decide (command = "git") && bool_decide (head args = Some "log").

(** A step before the writes failed: the host refused the temporary
    directory, a change of directory, the lookup of the default branch,
    the destination directory, its listing or the rename; a command
    other than the changelog failed; or the listing has no [.tgz]
    entry. *)
Definition refused (c : Call) : Prop :=
  match c with
  | Mkdtemp _ (Throw _) | Mkdir _ (Throw _) | Readdir _ (Throw _)
  | Rename _ _ (Throw _) | Chdir _ (Throw _) | ReposGet _ _ (Throw _) => True
  | Exec command args (_, Throw _) => isChangelog command args = false
  | Readdir _ (Ret files) => tgzFiles files = []
  | _ => False
  end.

(** A write, or the removal of the temporary directory, was refused. *)
Definition undone (c : Call) : Prop :=
  match c with
  | WriteFile _ _ (Throw _) | Rm _ (Throw _) => True
  | _ => False
  end.

(** The calls that follow the first write of a file. *)
Fixpoint afterFirstWrite (l : list Call) : list Call :=
  match l with
  | [] => []
  | c :: rest => if isWriteFile c then rest else afterFirstWrite rest
  end.

(** A call that dooms the run. *)
Definition dooms (c : Call) : Prop := refused c ∨ undone c.

(** The answers to the reads of a file. *)
Definition readAnswers (l : list Call) : list (Res string) :=
  omap (λ c, match c with ReadFile _ answer => Some answer | _ => None end) l.

(** The answers to the reads of a file that follow a write: in a run,
    the answer to the read of [package.json]. *)
Definition readsAfterWrite (l : list Call) : list (Res string) :=
  readAnswers (afterFirstWrite l).

(** The manifest cannot be updated from this answer: the file was not
    read, its text is not JSON, or the assignment of the dependency
    throws (which does not depend on the value assigned). *)
Definition rejects {W : Type} (host : Host W) (packageName : string)
    (answer : Res string) : Prop :=
  match answer with
  | Throw _ => True
  | Ret text =>
      match JSON_parse host text with
      | Throw _ => True
      | Ret json => isRet (Json.setDependency json packageName "") = false
      end
  end.

(** A step of the run failed. *)
Definition stepFailed {W : Type} (host : Host W) (packageName : string)
    (l : list Call) : Prop :=
  Exists refused l
  ∨ Exists undone l
  ∨ Exists (rejects host packageName) (readsAfterWrite l).

(** A required input is missing, the workspace is not known, or a step
    failed. *)
Definition cause {W : Type} (host : Host W) (inputs : Inputs) (l : list Call) : Prop :=
  JS.truthy (repository inputs) && JS.truthy (token inputs) = false
  ∨ GITHUB_WORKSPACE inputs = None
  ∨ stepFailed host (package_name inputs) l.

(** *** What is said of the pipeline's functions and logs *)

(** The five outputs of a run that completes, in the order they are
    set. *)
Definition allOutputs : list string :=
  ["last-sha"; "full-sha"; "short-sha"; "changelog"; "package-file"].

(** The names of the outputs a log sets, in order. *)
Definition outputNames (l : list Call) : list string := (outputs l).*1.

(** [m] sets the outputs [names], in this order, when it returns, and
    the first few of them when it throws. *)
Definition setsOutputs {W A : Type} (names : list string) (m : M W Call A) : Prop :=
  ∀ w, match outcome (m w) with
       | Ret _ => outputNames (calls (m w)) = names
       | Throw _ => outputNames (calls (m w)) `prefix_of` names
       end.

Definition isSetOutput (c : Call) : bool :=
  match c with SetOutput _ _ => true | _ => false end.

(** The call asks the GitHub API. *)
Definition isReposGet (c : Call) : bool :=
  match c with ReposGet _ _ _ => true | _ => false end.

(** The call creates or removes a directory of its own. *)
Definition isMkdtemp (c : Call) : bool :=
  match c with Mkdtemp _ _ => true | _ => false end.

Definition isRm (c : Call) : bool :=
  match c with Rm _ _ => true | _ => false end.

(** The string has neither a line feed nor a carriage return. *)
Definition singleLine (s : string) : bool :=
  JS.forallb (λ c, negb (bool_decide (c = "010"%char) || bool_decide (c = "013"%char))) s.

Definition digits (s : string) : bool := JS.truthy s && JS.forallb JS.is_digit s.

(** Three runs of digits with a dot between them. *)
Definition isVersion (v : string) : bool :=
  match JS.split "." v with
  | [major; minor; patch] => digits major && digits minor && digits patch
  | _ => false
  end.

(** The string has neither [@] nor [/]. *)
Definition plainName (s : string) : bool :=
  JS.forallb (λ c, negb (bool_decide (c = "@"%char) || bool_decide (c = "/"%char))) s.

End Pack.


(** ** The SHA resolution and rollback guard

    The [validate-sha] action is not among the sources at hand; only its
    inputs and outputs are documented.  This module follows section 4.1 of
    the specification. *)

Module Guard.

(** Modelled from the spec: the two fatal errors of [resolve], the
    [ResolutionError] and [RollbackRejected] of section 7; the code of
    the guard is missing. *)
Inductive Error : Type :=
| ResolutionError
| RollbackRejected.

(** Modelled from the spec: the result record of the contract
    [resolve(...) -> {resolvedIdentifier, shortIdentifier,
    previousIdentifier, isRollback}]; the code of the guard is missing. *)
Record Resolution : Type := {
  resolvedIdentifier : string;
  shortIdentifier : string;
  previousIdentifier : option string;
  isRollback : bool;
}.

(** Modelled from the spec: the collaborators [resolve] queries, which
    are missing with the guard's code.  [resolveTarget] maps the
    requested target (empty for the tip of the default branch, a branch
    or tag name, or an identifier) to a full commit identifier, or fails
    on an unreachable reference; [isAncestor a b] is the upstream commit
    graph's ancestry; [readPrevious] is the Version Reader at the
    downstream trunk; [shortLength] is the fixed length of the short
    form (8 characters in the README). *)
Record Collaborators : Type := {
  resolveTarget : string → string → option string;
  isAncestor : string → string → string → bool;
  readPrevious : string → option string;
  shortLength : nat;
}.

(** Modelled from the spec: the ancestry check of section 4.1, whose
    code is missing.  A previous identifier that is known and is neither
    the resolved one nor an ancestor of it makes the move a rollback; a
    target equal to the previous identifier is not one. *)
Definition wouldBeRollback (c : Collaborators) (repository : string)
    (previous : option string) (resolved : string) : bool :=
  match previous with
  | Some p => negb (bool_decide (p = resolved) || isAncestor c repository p resolved)
  | None => false
  end.

(** Modelled from the spec: [resolve(repository, requestedTarget,
    trackedFilePath, allowRollback)] of section 4.1, whose code is
    missing.  An unreachable target is a resolution error, not a
    rollback error; a rollback without the override is refused. *)
Definition resolve (c : Collaborators) (repository requestedTarget
    trackedFilePath : string) (allowRollback : bool) : Error + Resolution :=
  match resolveTarget c repository requestedTarget with
  | None => inl ResolutionError
  | Some resolved =>
      let previous := readPrevious c trackedFilePath in
      let rollback := wouldBeRollback c repository previous resolved in
      if rollback && negb allowRollback then inl RollbackRejected
      else inr {| resolvedIdentifier := resolved;
                  shortIdentifier := String.substring 0 (shortLength c) resolved;
                  previousIdentifier := previous;
                  isRollback := rollback |}
  end.

End Guard.


(** ** Scripted hosts

    Small hosts on which the embedding runs on concrete inputs: a table of
    shell commands and a working copy for the version check, a file map
    and a canned upstream for the pipeline.  They stand in for Node and
    git in the examples; the general theorems quantify over every host. *)

Module Sim.

(** [s.replace(/pat/g, by)] for a literal, non-empty [pat] and a
    replacement without [$]. *)
Fixpoint replaceAll_go (pat by_ : string) (skip : nat) (s : string) : string :=
  match s with
  | "" => ""
  | String c s' =>
      match skip with
      | S k => replaceAll_go pat by_ k s'
      | 0 =>
          if JS.startsWith pat s
          then by_ +:+ replaceAll_go pat by_ (String.length pat - 1) s'
          else String c (replaceAll_go pat by_ 0 s')
      end
  end.

Definition replaceAll (pat by_ s : string) : string := replaceAll_go pat by_ 0 s.

(** What a branch name must look like to match the default allow
    pattern [^(update|generate|auto)-.*]. *)
Definition matchesDefaultPattern (branchName : string) : bool :=
  JS.startsWith "update-" branchName ||
  JS.startsWith "generate-" branchName ||
  JS.startsWith "auto-" branchName.

(** The version check's host: [commands] gives the output of the shell
    commands that succeed (any other command throws), [workingCopy] the
    files of the checkout.  Only the default allow pattern is known. *)
Record DangerScript : Type := {
  commands : gmap string string;
  workingCopy : gmap string string;
}.

Definition dangerHost (s : DangerScript) : Danger.Host unit := {|
  Danger.execSync command w :=
    (match commands s !! command with
     | Some out => Ret out
     | None => Throw ("Command failed: " +:+ command)
     end, w);
  Danger.existsSync path w := (bool_decide (is_Some (workingCopy s !! path)), w);
  Danger.readFileSync path w :=
    (match workingCopy s !! path with
     | Some content => Ret content
     | None => Throw ("ENOENT: no such file or directory, open '" +:+ path +:+ "'")
     end, w);
  Danger.RegExp_test pattern branchName :=
    if bool_decide (pattern = "^(update|generate|auto)-.*")
    then Ret (matchesDefaultPattern branchName)
    else Throw ("Invalid regular expression: /" +:+ pattern +:+ "/");
  Danger.replace_all := replaceAll;
|}.

(** Joining path segments: pieces are cut at [/], empty pieces and [.]
    are dropped, a leading [/] is kept. *)
Definition joinWith (sep : string) (pieces : list string) : string :=
  match pieces with
  | [] => ""
  | p :: rest => foldl (λ acc q, acc +:+ sep +:+ q) p rest
  end.

Definition pathJoin (segments : list string) : string :=
  let pieces :=
    List.filter (λ p, negb (bool_decide (p = "") || bool_decide (p = ".")))
      (segments ≫= JS.split "/") in
  let body := joinWith "/" pieces in
  match segments with
  | first :: _ =>
      if JS.startsWith "/" first then "/" +:+ body
      else if JS.truthy body then body else "."
  | [] => "."
  end.

(** The name of [path] inside the directory [dir], when it lies directly
    in it. *)
Definition childName (dir path : string) : option string :=
  if JS.startsWith (dir +:+ "/") path then
    let name := JS.drop (String.length dir + 1) path in
    if bool_decide (length (JS.split "/" name) = 1) then Some name else None
  else None.

Record PackWorld : Type := {
  files : gmap string string;
  cwd : string;
}.

Definition absolute (w : PackWorld) (path : string) : string :=
  if JS.startsWith "/" path then pathJoin [path] else pathJoin [cwd w; path].

(** The upstream repository and what its pack command leaves behind;
    [parses] lists the texts this host's [JSON.parse] accepts. *)
Record Upstream : Type := {
  headSha : string;
  headShort : string;
  defaultBranch : string;
  log : list string;
  packed : list string;
  parses : gmap string Json.JSON;
}.

Definition noSuchFile {A} (path : string) : Res A :=
  Throw ("ENOENT: no such file or directory '" +:+ path +:+ "'").

Definition simExec (up : Upstream) (command : string) (args : list string)
    (w : PackWorld) : (list string * Res unit) * PackWorld :=
  match command, args with
  | "git", "clone" :: _ => (([], Ret tt), w)
  | "git", ["checkout"; _] => (([], Ret tt), w)
  | "git", ["rev-parse"; "HEAD"] => (([headSha up +:+ JS.nl], Ret tt), w)
  | "git", ["rev-parse"; "--short"; "HEAD"] => (([headShort up +:+ JS.nl], Ret tt), w)
  | "git", "log" :: _ => (((λ line, line +:+ JS.nl) <$> log up, Ret tt), w)
  | "pnpm", "install" :: _ => (([], Ret tt), w)
  | "pnpm", ["pack"; "--pack-destination"; dest] =>
      (([], Ret tt),
       {| files := foldr (λ name fs, <[pathJoin [dest; name] := "tarball"]> fs)
                     (files w) (packed up);
          cwd := cwd w |})
  | "sh", ["-c"; _] => (([], Ret tt), w)
  | _, _ => (([], Throw ("Unable to locate executable file: " +:+ command)), w)
  end.

(** A compact printer standing in for [JSON.stringify(value, null, 2)]. *)
Fixpoint show (v : Json.JSON) : string :=
  let quoted s := JS.dquote +:+ s +:+ JS.dquote in
  match v with
  | Json.JNull => "null"
  | Json.JBool b => if b then "true" else "false"
  | Json.JNumber _ shown => shown
  | Json.JString s => quoted s
  | Json.JArray items =>
      "[" +:+ joinWith "," ((fix each l := match l with
                                            | [] => []
                                            | x :: r => show x :: each r
                                            end) items) +:+ "]"
  | Json.JObject props =>
      "{" +:+ joinWith "," ((fix each l := match l with
                                            | [] => []
                                            | (k, x) :: r =>
                                                (quoted k +:+ ":" +:+ show x) :: each r
                                            end) props) +:+ "}"
  end.

Definition packHost (up : Upstream) : Pack.Host PackWorld := {|
  Pack.readFile path w :=
    (match files w !! absolute w path with
     | Some content => Ret content
     | None => noSuchFile path
     end, w);
  Pack.writeFile path content w :=
    (Ret tt, {| files := <[absolute w path := content]> (files w); cwd := cwd w |});
  Pack.mkdtemp prefix w := (Ret (prefix +:+ "Ab12Cd"), w);
  Pack.mkdir path w := (Ret tt, w);
  Pack.readdir path w :=
    (Ret (omap (childName (absolute w path)) (map_to_list (files w)).*1), w);
  Pack.rename oldPath newPath w :=
    match files w !! absolute w oldPath with
    | Some content =>
        (Ret tt, {| files := <[absolute w newPath := content]>
                               (delete (absolute w oldPath) (files w));
                    cwd := cwd w |})
    | None => (noSuchFile oldPath, w)
    end;
  Pack.rm path w :=
    (Ret tt,
     {| files := filter (λ kv, ¬ JS.startsWith (absolute w path +:+ "/") kv.1) (files w);
        cwd := cwd w |});
  Pack.exec := simExec up;
  Pack.chdir directory w := (Ret tt, {| files := files w; cwd := absolute w directory |});
  Pack.repos_get owner repo w := (Ret (defaultBranch up), w);
  Pack.path_join := pathJoin;
  Pack.os_tmpdir := "/tmp";
  Pack.JSON_parse text :=
    match parses up !! text with
    | Some v => Ret v
    | None => Throw "Unexpected token in JSON"
    end;
  Pack.JSON_stringify := show;
|}.

End Sim.


(** ** Concrete runs used below *)

Module Scenario.

Import Danger.

(** [checkPackVersion()] with no option given. *)
Definition defaults : PackVersionOptions :=
  {| filePath := None; commentTitle := None; allowPattern := None;
     updateCommand := None; commentBodyTemplate := None |}.

Definition showMain : string := "git show origin/main:.ui-sha 2>/dev/null | head -n 1".
Definition mergeBaseCommand : string := "git merge-base HEAD origin/main".
Definition showBase : string := "git show c0ffee:.ui-sha 2>/dev/null | head -n 1".

(** A repository whose merge base is [c0ffee]; [onMain] and [atBase] are
    what the two [git show ... | head -n 1] pipelines print. *)
Definition repo (onMain atBase : string) (checkout : gmap string string)
    : Sim.DangerScript :=
  {| Sim.commands :=
       list_to_map [(showMain, onMain);
                    (mergeBaseCommand, "c0ffee" +:+ JS.nl);
                    (showBase, atBase)];
     Sim.workingCopy := checkout |}.

(** A pull request from [branch] that modified, created and deleted the
    given files. *)
Definition pullRequest (branch : string) (modified created deleted : list string)
    : DangerDSL :=
  {| pr_head_ref := branch; modified_files := modified;
     created_files := created; deleted_files := deleted |}.

(** Scenario B of the specification: main and the merge base hold
    [abc123], the branch wrote [test-999]. *)
Definition testValueLeft : Sim.DangerScript :=
  repo ("abc123" +:+ JS.nl) ("abc123" +:+ JS.nl) {[ ".ui-sha" := "test-999" +:+ JS.nl ]}.

(** The pin file starts with a blank line on main and at the merge base;
    the branch rewrote it to start with [def456]. *)
Definition blankFirstLine : Sim.DangerScript :=
  repo JS.nl JS.nl {[ ".ui-sha" := "def456" +:+ JS.nl ]}.

(** The pin file was removed on main after the branch point (its
    [git show] prints nothing) and the branch removes it as well. *)
Definition removedOnBothSides : Sim.DangerScript :=
  repo "" ("abc123" +:+ JS.nl) ∅.

(** The branch removes a pin file that main still has. *)
Definition removedOnBranch : Sim.DangerScript :=
  repo ("abc123" +:+ JS.nl) ("abc123" +:+ JS.nl) ∅.

(** Main moved on to [bbb222] while the branch, which never touched the
    pin file, still has [aaa111]. *)
Definition staleBranch : Sim.DangerScript :=
  repo ("bbb222" +:+ JS.nl) ("aaa111" +:+ JS.nl) {[ ".ui-sha" := "aaa111" +:+ JS.nl ]}.

(** Scenario C of the specification: no pin file on main nor at the
    merge base (their [git show] prints nothing), the branch adds one
    with [def456]. *)
Definition newPinFile : Sim.DangerScript :=
  repo "" "" {[ ".ui-sha" := "def456" +:+ JS.nl ]}.

(** Scenario D of the specification: [aaa] at the merge base, [bbb] on
    main, [ccc] on the branch. *)
Definition divergent : Sim.DangerScript :=
  repo ("bbb" +:+ JS.nl) ("aaa" +:+ JS.nl) {[ ".ui-sha" := "ccc" +:+ JS.nl ]}.

(** The line the pipeline puts first in the pin file it writes. *)
Definition commentLine : string := "# SHA of the last packed version of package".

(** Main and the merge base hold a pin file the pipeline wrote, so
    [head -n 1] prints its comment line; the branch edited the SHA under
    the comment by hand. *)
Definition shaEditedByHand : Sim.DangerScript :=
  repo (commentLine +:+ JS.nl) (commentLine +:+ JS.nl)
       {[ ".ui-sha" := Pack.fileContent "" "ffffffffffffffffffffffffffffffffffffffff" ]}.

(** The pipeline: the upstream head is [headSha]; its pack command
    leaves two tarballs of different versions in the destination. *)
Definition headSha : string := "0123456789abcdef0123456789abcdef01234567".
Definition previousSha : string := "fedcba9876543210fedcba9876543210fedcba98".

Definition upstream : Sim.Upstream :=
  {| Sim.headSha := headSha;
     Sim.headShort := "0123456";
     Sim.defaultBranch := "main";
     Sim.log := ["0123456 fix the button"; "89abcde add the button"];
     Sim.packed := ["ui-1.2.3.tgz"; "ui-1.10.0.tgz"];
     Sim.parses := {[ "{}" := Json.JObject [] ]} |}.

(** The action's inputs with every optional input left out but the
    package name. *)
Definition packInputs (packageName : string) : Pack.Inputs :=
  {| Pack.repository := "temporalio/ui";
     Pack.target_sha := "";
     Pack.package_name := packageName;
     Pack.pack_destination := "";
     Pack.package_command := "";
     Pack.pack_command := "";
     Pack.file_path := "";
     Pack.token := "t0ken";
     Pack.GITHUB_WORKSPACE := Some "/ws" |}.

(** A checkout in [/ws] whose pin file holds [previousSha]. *)
Definition workspace (packageJson : string) : Sim.PackWorld :=
  {| Sim.files := {[ "/ws/.ui-sha" := previousSha +:+ JS.nl;
                     "/ws/package.json" := packageJson ]};
     Sim.cwd := "/ws" |}.

(** A [package.json] left with a merge conflict marker is not JSON. *)
Definition conflicted : Sim.PackWorld := workspace "<<<<<<< HEAD".

(** Scenario E of the specification: the pin is at [bbb], the requested
    target resolves to its ancestor [aaa]. *)
Definition scenarioE : Guard.Collaborators :=
  {| Guard.resolveTarget _ target :=
       if bool_decide (target = "aaa") then Some "aaa" else None;
     Guard.isAncestor _ a b := bool_decide (a = "aaa") && bool_decide (b = "bbb");
     Guard.readPrevious _ := Some "bbb";
     Guard.shortLength := 8 |}.

End Scenario.


(** ** Further concrete runs *)

Module Cases.

Import Danger.

(** What a branch name must look like to match
    [^(update|generate|release)-<pack>-.*]. *)
Definition matchesPackPattern (pack branchName : string) : bool :=
  JS.startsWith ("update-" +:+ pack +:+ "-") branchName ||
  JS.startsWith ("generate-" +:+ pack +:+ "-") branchName ||
  JS.startsWith ("release-" +:+ pack +:+ "-") branchName.

(** The scripted host of the version check, knowing the allow patterns
    of the shared configuration besides the default one. *)
Definition sharedHost (s : Sim.DangerScript) : Host unit := {|
  execSync := execSync (Sim.dangerHost s);
  existsSync := existsSync (Sim.dangerHost s);
  readFileSync := readFileSync (Sim.dangerHost s);
  RegExp_test pattern branchName :=
    if bool_decide (pattern = "^(update|generate|release)-ui-.*")
    then Ret (matchesPackPattern "ui" branchName)
    else if bool_decide (pattern = "^(update|generate|release)-registry-.*")
    then Ret (matchesPackPattern "registry" branchName)
    else RegExp_test (Sim.dangerHost s) pattern branchName;
  replace_all := Sim.replaceAll;
|}.

(** A pull request from [feature/x] that rewrote the UI pin file. *)
Definition pinEdited : DangerDSL :=
  Scenario.pullRequest "feature/x" [".ui-sha"] [] [].

(** A pull request that changed a UI component and no pin file. *)
Definition componentEdited : DangerDSL :=
  Scenario.pullRequest "feature/x" ["src/components/Button.tsx"] [] [].

(** A pull request that deletes the UI pin file and edits the README. *)
Definition pinDeleted : DangerDSL :=
  Scenario.pullRequest "feature/x" ["README.md"] [] [".ui-sha"].

(** [runTemporalPackChecks({ checkRegistry: true,
    ui: { updateCommand: 'npm run sync:ui' } })] *)
Definition uiAndRegistry : SharedConfig.TemporalPackOptions :=
  {| SharedConfig.checkUI := None;
     SharedConfig.ui :=
       Some {| SharedConfig.setFilePath := None;
               SharedConfig.setCommentTitle := None;
               SharedConfig.setAllowPattern := None;
               SharedConfig.setUpdateCommand := Some (Some "npm run sync:ui");
               SharedConfig.setCommentBodyTemplate := None |};
     SharedConfig.checkRegistry := Some true;
     SharedConfig.registry := None;
     SharedConfig.customPacks := None |}.

(** [runTemporalPackChecks({ checkUI: false })] *)
Definition nothingToCheck : SharedConfig.TemporalPackOptions :=
  {| SharedConfig.checkUI := Some false;
     SharedConfig.ui := None;
     SharedConfig.checkRegistry := None;
     SharedConfig.registry := None;
     SharedConfig.customPacks := None |}.

(** A [package.json] with a name and one dependency, parsed. *)
Definition manifest : list (string * Json.JSON) :=
  [("name", Json.JString "app");
   ("dependencies", Json.JObject [("react", Json.JString "^18.0.0")]);
   ("private", Json.JBool true)].

(** The pipeline's host with a temporary directory that cannot be
    removed. *)
Definition stuckHost : Pack.Host Sim.PackWorld :=
  let host := Sim.packHost Scenario.upstream in
  {| Pack.readFile := Pack.readFile host;
     Pack.writeFile := Pack.writeFile host;
     Pack.mkdtemp := Pack.mkdtemp host;
     Pack.mkdir := Pack.mkdir host;
     Pack.readdir := Pack.readdir host;
     Pack.rename := Pack.rename host;
     Pack.rm path w := (Throw "EBUSY: resource busy or locked", w);
     Pack.exec := Pack.exec host;
     Pack.chdir := Pack.chdir host;
     Pack.repos_get := Pack.repos_get host;
     Pack.path_join := Pack.path_join host;
     Pack.os_tmpdir := Pack.os_tmpdir host;
     Pack.JSON_parse := Pack.JSON_parse host;
     Pack.JSON_stringify := Pack.JSON_stringify host |}.

(** The action's inputs with a target, without the repository, and
    without [GITHUB_WORKSPACE]. *)
Definition inputsWith (repository target : string) (workspace : option string)
    : Pack.Inputs :=
  {| Pack.repository := repository;
     Pack.target_sha := target;
     Pack.package_name := "";
     Pack.pack_destination := "";
     Pack.package_command := "";
     Pack.pack_command := "";
     Pack.file_path := "";
     Pack.token := "t0ken";
     Pack.GITHUB_WORKSPACE := workspace |}.

Definition withTarget : Pack.Inputs := inputsWith "temporalio/ui" "v2.31.0" (Some "/ws").
Definition withoutRepository : Pack.Inputs := inputsWith "" "" (Some "/ws").
Definition withoutWorkspace : Pack.Inputs := inputsWith "temporalio/ui" "" None.



(** The inputs without a package name and with [package.json] as the
    [file-path] input. *)
Definition pinIsManifest : Pack.Inputs :=
  {| Pack.repository := "temporalio/ui";
     Pack.target_sha := "";
     Pack.package_name := "";
     Pack.pack_destination := "";
     Pack.package_command := "";
     Pack.pack_command := "";
     Pack.file_path := "package.json";
     Pack.token := "t0ken";
     Pack.GITHUB_WORKSPACE := Some "/ws" |}.

End Cases.


(** * Properties *)

(** ** Reasoning about computations *)

Section EffFacts.
Context {W Ev : Type}.
Implicit Types (w : W) (P : Ev → Prop).

Lemma run_eta {A} (m : M W Ev A) w :
  m w = (outcome (m w), world (m w), calls (m w)).
Proof. by destruct (m w) as [[??]?]. Qed.

Lemma bind_Ret {A B} (m : M W Ev A) (k : A → M W Ev B) w a w1 l1 :
  m w = (Ret a, w1, l1) →
  (m ≫= k) w = (outcome (k a w1), world (k a w1), l1 ++ calls (k a w1)).
Proof.
  intros E. unfold mbind, M_bind, bind. rewrite E.
  by destruct (k a w1) as [[??]?].
Qed.

Lemma bind_Throw {A B} (m : M W Ev A) (k : A → M W Ev B) w e w1 l1 :
  m w = (Throw e, w1, l1) → (m ≫= k) w = (Throw e, w1, l1).
Proof. intros E. unfold mbind, M_bind, bind. by rewrite E. Qed.

Lemma returns_ret {A} (a : A) : returns (mret a : M W Ev A).
Proof. by intros w. Qed.

Lemma returns_emit ev : returns (emit ev : M W Ev unit).
Proof. by intros w. Qed.

Lemma returns_ask {A} (op : W → A * W) (ev : A → Ev) : returns (ask op ev).
Proof. intros w. unfold ask. by destruct (op w). Qed.

Lemma returns_bind {A B} (m : M W Ev A) (k : A → M W Ev B) :
  returns m → (∀ a, returns (k a)) → returns (m ≫= k).
Proof.
  intros Hm Hk w. specialize (Hm w).
  destruct (m w) as [[[a|e] w1] l1] eqn:E; [|done].
  rewrite (bind_Ret _ _ _ _ _ _ E). apply Hk.
Qed.

Lemma returns_try_catch {A} (m : M W Ev A) (handler : string → M W Ev A) :
  (∀ e, returns (handler e)) → returns (try_catch m handler).
Proof.
  intros Hh w. unfold try_catch.
  destruct (m w) as [[[a|e] w1] l1]; [done|].
  specialize (Hh e w1). by destruct (handler e w1) as [[??]?].
Qed.

(** A handler around a computation that never throws is never entered. *)
Lemma try_catch_returns {A} (m : M W Ev A) (handler : string → M W Ev A) w :
  returns m → try_catch m handler w = m w.
Proof.
  intros Hm. specialize (Hm w). unfold try_catch.
  by destruct (m w) as [[[a|e] w1] l1].
Qed.

(** *** Properties of the log that survive sequencing *)

Global Instance Forall_sequential P : Sequential (Forall P).
Proof. split; [constructor|]. intros l1 l2 ??. apply Forall_app. by split. Qed.

Section Traced.
Context (Φ : list Ev → Prop) `{!Sequential Φ}.

Lemma traced_ret {A} (a : A) : traced Φ (mret a : M W Ev A).
Proof. intros w. apply sequential_nil. Qed.

Lemma traced_throw {A} e : traced Φ (throw e : M W Ev A).
Proof. intros w. apply sequential_nil. Qed.

Lemma traced_lift {A} (r : Res A) : traced Φ (lift r : M W Ev A).
Proof. intros w. apply sequential_nil. Qed.

Lemma traced_emit ev : Φ [ev] → traced Φ (emit ev : M W Ev unit).
Proof. by intros H w. Qed.

Lemma traced_ask {A} (op : W → A * W) (ev : A → Ev) :
  (∀ a, Φ [ev a]) → traced Φ (ask op ev).
Proof. intros H w. unfold ask. destruct (op w). apply H. Qed.

Lemma traced_call {A} (op : W → Res A * W) (ev : Res A → Ev) :
  (∀ r, Φ [ev r]) → traced Φ (call op ev).
Proof. intros H w. unfold call. destruct (op w). apply H. Qed.

Lemma traced_bind {A B} (m : M W Ev A) (k : A → M W Ev B) :
  traced Φ m → (∀ a, traced Φ (k a)) → traced Φ (m ≫= k).
Proof.
  intros Hm Hk w. specialize (Hm w).
  destruct (m w) as [[[a|e] w1] l1] eqn:E.
  - rewrite (bind_Ret _ _ _ _ _ _ E). apply sequential_app; [done|apply Hk].
  - by rewrite (bind_Throw _ _ _ _ _ _ E).
Qed.

Lemma traced_try_catch {A} (m : M W Ev A) (handler : string → M W Ev A) :
  traced Φ m → (∀ e, traced Φ (handler e)) → traced Φ (try_catch m handler).
Proof.
  intros Hm Hh w. specialize (Hm w). unfold try_catch.
  destruct (m w) as [[[a|e] w1] l1]; [done|].
  specialize (Hh e w1). destruct (handler e w1) as [[??]?].
  by apply sequential_app.
Qed.

Lemma traced_try_finally {A} (m : M W Ev A) (cleanup : M W Ev unit) :
  traced Φ m → traced Φ cleanup → traced Φ (try_finally m cleanup).
Proof.
  intros Hm Hc w. specialize (Hm w). unfold try_finally.
  destruct (m w) as [[r w1] l1].
  specialize (Hc w1). destruct (cleanup w1) as [[[?|?] ?] ?];
    by apply sequential_app.
Qed.
End Traced.

Lemma only_singleton P ev : P ev → Forall P [ev].
Proof. by repeat constructor. Qed.

(** *** A call that dooms the computation *)

Lemma guards_only Bad {A} (m : M W Ev A) :
  only (λ ev, ¬ Bad ev) m → guards Bad m.
Proof.
  intros Hm w Hbad. specialize (Hm w).
  apply Exists_exists in Hbad as (ev & Hin & Hev).
  by eapply Forall_forall in Hm.
Qed.

Lemma guards_bind Bad {A B} (m : M W Ev A) (k : A → M W Ev B) :
  guards Bad m → (∀ a, guards Bad (k a)) → guards Bad (m ≫= k).
Proof.
  intros Hm Hk w. specialize (Hm w).
  destruct (m w) as [[[a|e] w1] l1] eqn:E.
  - rewrite (bind_Ret _ _ _ _ _ _ E). cbn. intros [Hbad|Hbad]%Exists_app.
    + by specialize (Hm Hbad).
    + by apply Hk.
  - by rewrite (bind_Throw _ _ _ _ _ _ E).
Qed.

Lemma guards_try_finally Bad {A} (m : M W Ev A) (cleanup : M W Ev unit) :
  guards Bad m → only (λ ev, ¬ Bad ev) cleanup →
  guards Bad (try_finally m cleanup).
Proof.
  intros Hm Hc w. specialize (Hm w). unfold try_finally.
  destruct (m w) as [[r w1] l1].
  specialize (Hc w1). destruct (cleanup w1) as [[[?|?] ?] l2]; cbn in *;
    intros [Hbad|Hbad]%Exists_app; try done; try by apply Hm.
  all: apply Exists_exists in Hbad as (ev & Hin & Hev);
    by eapply Forall_forall in Hc.
Qed.

End EffFacts.

(** Decompose a goal [traced Φ m], or [only P m], along the structure of
    [m]; what is left are the single calls. *)
Ltac traced_step :=
  lazymatch goal with
  | |- only _ _ => unfold only
  | |- traced _ (mret _) => apply traced_ret; tc_solve
  | |- traced _ (throw _) => apply traced_throw; tc_solve
  | |- traced _ (lift _) => apply traced_lift; tc_solve
  | |- traced _ (emit _) => apply traced_emit
  | |- traced _ (ask _ _) => apply traced_ask; intros
  | |- traced _ (call _ _) => apply traced_call; intros
  | |- traced _ (_ ≫= _) => apply traced_bind; [tc_solve| |intros]
  | |- traced _ (try_catch _ _) => apply traced_try_catch; [tc_solve| |intros]
  | |- traced _ (try_finally _ _) => apply traced_try_finally; [tc_solve| |]
  | |- traced _ (if ?b then _ else _) => destruct b
  | |- traced _ (match ?x with _ => _ end) => destruct x
  | |- traced _ (let _ := _ in _) => cbv zeta
  end.

(** ** Sanity checks of the string helpers *)

Example trim_sample : JS.trim "  abc123 " = "abc123".
Proof. reflexivity. Qed.

Example split_sample :
  JS.split "010" ("a" +:+ JS.nl +:+ JS.nl +:+ "b") = ["a"; ""; "b"].
Proof. reflexivity. Qed.



(** ** The version check *)

Section DangerFacts.
Import Danger.
Context {W : Type} (host : Host W) (danger : DangerDSL).
Implicit Types (options : PackVersionOptions) (w : W) (versions : Versions).

(** One guarded [execSync] never throws. *)
Lemma tryExecTrim_returns command : returns (tryExecTrim host command).
Proof. apply returns_try_catch. intros e. apply returns_ret. Qed.

Lemma readVersions_returns path : returns (readVersions host path).
Proof.
  apply returns_bind; [apply tryExecTrim_returns|intros main].
  apply returns_bind; [apply returns_try_catch; intros; apply returns_ret|intros pr].
  apply returns_bind; [apply returns_try_catch; intros; apply returns_ret|intros base].
  apply returns_ret.
Qed.

(** The three reads never throw, so the [console.error] of the outer
    handler of [getVersions] is dead code. *)
Lemma getVersions_outer_handler_dead path w :
  getVersions host path w = readVersions host path w.
Proof. apply try_catch_returns, readVersions_returns. Qed.

(** [getVersions] always returns. *)
Lemma getVersions_returns path : returns (getVersions host path).
Proof.
  intros w. rewrite getVersions_outer_handler_dead. apply readVersions_returns.
Qed.

Lemma getVersions_versionsRead path w :
  outcome (getVersions host path w) = Ret (versionsRead host path w).
Proof.
  unfold versionsRead. pose proof (getVersions_returns path w) as Hret.
  by destruct (outcome (getVersions host path w)).
Qed.

(** On a branch that is not allow-listed and touched the file, the
    result is the verdict of [evaluateBlockingConditions] on the three
    versions read. *)
Lemma checkPackVersionWith_compares {R} (early : Verdict → R)
    (finish : Verdict → Versions → R) options w :
  allowListed host danger options = Ret false →
  touched danger options = true →
  let versions := versionsRead host (trackedPath options) w in
  outcome (checkPackVersionWith host danger early finish options w) =
    Ret (finish (evaluateBlockingConditions versions
                   (isCreated danger options) (isDeleted danger options))
                versions).
Proof.
  intros Hallow Htouched versions.
  pose proof (getVersions_versionsRead (trackedPath options) w) as Hread.
  fold versions in Hread. clearbody versions.
  unfold checkPackVersionWith. cbv zeta.
  unfold lift at 1. rewrite Hallow.
  erewrite bind_Ret by reflexivity. cbn [outcome fst].
  unfold touched in Htouched. apply negb_true_iff in Htouched. rewrite Htouched.
  destruct (getVersions host (trackedPath options) w) as [[r w1] l1] eqn:E.
  cbn in Hread. subst r.
  erewrite bind_Ret by exact E. cbn [outcome fst].
  destruct (shouldBlock _); reflexivity.
Qed.

(** So, on such a branch, two [null] versions are a match. *)
Lemma both_null_after_a_touch options w :
  let versions := versionsRead host (trackedPath options) w in
  let matching := {| shouldBlock := false; reason := reason_match |} in
  allowListed host danger options = Ret false →
  touched danger options = true →
  main versions = None →
  pr versions = None →
  outcome (checkPackVersion host danger options w) = Ret (withVersions matching versions)
  ∧ outcome (checkPackVersion_js host danger options w) = Ret matching.
Proof.
  intros versions matching Hallow Htouched Hmain Hpr.
  unfold checkPackVersion, checkPackVersion_js.
  rewrite !(checkPackVersionWith_compares _ _ options w) by assumption.
  cbv zeta. fold versions. unfold evaluateBlockingConditions.
  rewrite Hmain, Hpr. by split.
Qed.

End DangerFacts.


Section DangerClaims.
Import Danger.
Context {W : Type} (host : Host W) (danger : DangerDSL).
Implicit Types (options : PackVersionOptions) (w : W) (versions : Versions).

(** C5. When the branch name matches the configured allow pattern (the
    pattern is not empty and [new RegExp(pattern).test(branch)] is
    true), both plugins return at once: the verdict is not blocked with
    the allowed-branch reason, the world is as it was, and the only host
    call is the [console.log] of the match, so no version is read and
    the content of the tracked file at main, in the working copy or at
    the merge base plays no part. *)
Theorem allowed_branch_short_circuits options w :
  JS.truthy (allowPatternOf options) = true →
  RegExp_test host (allowPatternOf options) (pr_head_ref danger) = Ret true →
  let said :=
    ConsoleLog ("Branch '" +:+ pr_head_ref danger +:+ "' matches allow pattern '" +:+
                allowPatternOf options +:+ "'") in
  checkPackVersion host danger options w =
    (Ret (bare {| shouldBlock := false; reason := reason_allowed_branch |}), w, [said])
  ∧ checkPackVersion_js host danger options w =
    (Ret {| shouldBlock := false; reason := reason_allowed_branch |}, w, [said]).
Proof.
  intros Hpattern Hmatch said.
  unfold checkPackVersion, checkPackVersion_js, checkPackVersionWith, allowListed.
  cbv zeta. rewrite Hpattern, Hmatch. split; reflexivity.
Qed.

(** C2, amended.  When the branch did not touch the tracked file and its
    name is not allow-listed, both plugins return not blocked with the
    untouched reason.  The only host call is a [console.log]: no version
    is read, so the verdict is the same whatever main and the working
    copy hold. *)
Theorem untouched_is_not_blocked options w :
  allowListed host danger options = Ret false →
  touched danger options = false →
  let said := ConsoleLog ("PR hasn't modified " +:+ trackedPath options) in
  checkPackVersion host danger options w =
    (Ret (bare {| shouldBlock := false; reason := reason_untouched |}), w, [said])
  ∧ checkPackVersion_js host danger options w =
    (Ret {| shouldBlock := false; reason := reason_untouched |}, w, [said]).
Proof.
  intros Hallow Htouched said.
  unfold touched in Htouched. apply negb_false_iff in Htouched.
  unfold checkPackVersion, checkPackVersion_js, checkPackVersionWith.
  cbv zeta. rewrite Hallow, Htouched. split; reflexivity.
Qed.

(** C1, amended.  On a branch that is not allow-listed and touched the
    tracked file without deleting it, when the merge-base value is
    present (a non-empty string), equals the value on main and main
    differs from the working copy, both plugins return a blocked verdict
    with the branch-only-edit reason.  (With the merge-base value present and
    equal to main, the values are not both absent and the new-file rule
    does not apply.) *)
Theorem branch_only_edit_is_blocked options w :
  let versions := versionsRead host (trackedPath options) w in
  allowListed host danger options = Ret false →
  touched danger options = true →
  JS.truthy_opt (base versions) = true →
  JS.strict_eq (base versions) (main versions) = true →
  JS.strict_eq (main versions) (pr versions) = false →
  isDeleted danger options = false →
  let blocked := {| shouldBlock := true; reason := reason_branch_only_edit |} in
  outcome (checkPackVersion host danger options w) = Ret (withVersions blocked versions)
  ∧ outcome (checkPackVersion_js host danger options w) = Ret blocked.
Proof.
  intros versions Hallow Htouched Hbase Heq Hne Hdel blocked.
  assert (evaluateBlockingConditions versions (isCreated danger options)
            (isDeleted danger options) = blocked) as Heval.
  { unfold evaluateBlockingConditions. cbv zeta.
    rewrite Hne, Hdel, Hbase, Heq.
    apply bool_decide_eq_true in Heq. rewrite <- Heq, Hbase. reflexivity. }
  unfold checkPackVersion, checkPackVersion_js.
  rewrite !(checkPackVersionWith_compares host danger _ _ options w)
    by assumption.
  cbv zeta. fold versions. rewrite Heval. split; reflexivity.
Qed.

(** C4, amended.  On a branch that is not allow-listed and deleted the
    tracked file, when no earlier rule applies (the value on main and
    the one in the working copy differ, they are not both absent, and it
    is not the new-file case), both plugins block with the deleted
    reason. *)
Theorem deleted_is_blocked options w :
  let versions := versionsRead host (trackedPath options) w in
  allowListed host danger options = Ret false →
  isDeleted danger options = true →
  JS.strict_eq (main versions) (pr versions) = false →
  JS.truthy_opt (main versions) || JS.truthy_opt (pr versions) = true →
  negb (JS.truthy_opt (main versions)) && JS.truthy_opt (pr versions) &&
    isCreated danger options = false →
  let blocked := {| shouldBlock := true; reason := reason_deleted |} in
  outcome (checkPackVersion host danger options w) = Ret (withVersions blocked versions)
  ∧ outcome (checkPackVersion_js host danger options w) = Ret blocked.
Proof.
  intros versions Hallow Hdel Hne Hsome Hnew blocked.
  assert (touched danger options = true) as Htouched.
  { unfold touched. rewrite Hdel. by rewrite andb_false_r. }
  assert (evaluateBlockingConditions versions (isCreated danger options)
            (isDeleted danger options) = blocked) as Heval.
  { unfold evaluateBlockingConditions. cbv zeta.
    rewrite Hne, Hnew, Hdel.
    destruct (JS.truthy_opt (main versions)), (JS.truthy_opt (pr versions));
      try discriminate; reflexivity. }
  unfold checkPackVersion, checkPackVersion_js.
  rewrite !(checkPackVersionWith_compares host danger _ _ options w)
    by assumption.
  cbv zeta. fold versions. rewrite Heval. split; reflexivity.
Qed.

End DangerClaims.


(** Two reason texts that differ. *)
Ltac other_reason := let H := fresh in intros H; cbv in H; discriminate H.



(** *** The version check on concrete pull requests *)

Section DangerInstances.
Import Danger Scenario.

(** A branch of the automation, [update-ui-42], is allow-listed by the
    default pattern although it rewrote the pin file. *)
Lemma allowed_branch_short_circuits_witness :
  let host := Sim.dangerHost testValueLeft in
  let danger := pullRequest "update-ui-42" [".ui-sha"] [] [] in
  let said := ConsoleLog
    "Branch 'update-ui-42' matches allow pattern '^(update|generate|auto)-.*'" in
  checkPackVersion host danger defaults () =
    (Ret (bare {| shouldBlock := false; reason := reason_allowed_branch |}), (), [said])
  ∧ checkPackVersion_js host danger defaults () =
    (Ret {| shouldBlock := false; reason := reason_allowed_branch |}, (), [said]).
Proof.
  exact (allowed_branch_short_circuits (Sim.dangerHost testValueLeft)
           (pullRequest "update-ui-42" [".ui-sha"] [] []) defaults ()
           eq_refl eq_refl).
Defined.

(** C2 as stated fails: the branch [update-ui-42] did not touch the pin
    file (it only modified [README.md]), and the reason returned is the
    allowed-branch one, not the untouched one. *)
Lemma untouched_claim_fails_on_allowed_branch :
  let host := Sim.dangerHost staleBranch in
  let danger := pullRequest "update-ui-42" ["README.md"] [] [] in
  touched danger defaults = false
  ∧ outcome (checkPackVersion host danger defaults ()) =
      Ret (bare {| shouldBlock := false; reason := reason_allowed_branch |})
  ∧ outcome (checkPackVersion_js host danger defaults ()) =
      Ret {| shouldBlock := false; reason := reason_allowed_branch |}
  ∧ reason_allowed_branch ≠ reason_untouched.
Proof. repeat split; try reflexivity. other_reason. Qed.

(** A stale branch: main moved to [bbb222], the branch still has
    [aaa111] and never touched the file. *)
Lemma untouched_is_not_blocked_witness :
  let host := Sim.dangerHost staleBranch in
  let danger := pullRequest "feature/x" ["README.md"] [] [] in
  let said := ConsoleLog "PR hasn't modified .ui-sha" in
  checkPackVersion host danger defaults () =
    (Ret (bare {| shouldBlock := false; reason := reason_untouched |}), (), [said])
  ∧ checkPackVersion_js host danger defaults () =
    (Ret {| shouldBlock := false; reason := reason_untouched |}, (), [said]).
Proof.
  exact (untouched_is_not_blocked (Sim.dangerHost staleBranch)
           (pullRequest "feature/x" ["README.md"] [] []) defaults ()
           eq_refl eq_refl).
Defined.

(** C1 as stated fails: the pin file starts with a blank line on main and
    at the merge base, so both values are the empty string; the branch
    [feature/x] modified the file to [def456].  Every condition of the
    claim holds, and the verdict is blocked with the reason of a missing
    merge-base value, not the branch-only-edit one. *)
Lemma branch_only_edit_claim_fails_on_empty_values :
  let host := Sim.dangerHost blankFirstLine in
  let danger := pullRequest "feature/x" [".ui-sha"] [] [] in
  let versions := {| main := Some ""; pr := Some "def456"; base := Some "" |} in
  let blocked := {| shouldBlock := true; reason := reason_no_common_ancestor_value |} in
  allowListed host danger defaults = Ret false
  ∧ touched danger defaults = true
  ∧ versionsRead host ".ui-sha" () = versions
  ∧ JS.strict_eq (base versions) (main versions) = true
  ∧ JS.strict_eq (main versions) (pr versions) = false
  ∧ JS.truthy_opt (main versions) || JS.truthy_opt (pr versions) = true
  ∧ isCreated danger defaults = false
  ∧ isDeleted danger defaults = false
  ∧ outcome (checkPackVersion host danger defaults ()) =
      Ret (withVersions blocked versions)
  ∧ outcome (checkPackVersion_js host danger defaults ()) = Ret blocked
  ∧ reason_no_common_ancestor_value ≠ reason_branch_only_edit.
Proof. repeat split; try reflexivity. other_reason. Qed.

(** Scenario B of the specification. *)
Lemma branch_only_edit_is_blocked_witness :
  let host := Sim.dangerHost testValueLeft in
  let danger := pullRequest "feature/x" [".ui-sha"] [] [] in
  let versions :=
    {| main := Some "abc123"; pr := Some "test-999"; base := Some "abc123" |} in
  let blocked := {| shouldBlock := true; reason := reason_branch_only_edit |} in
  outcome (checkPackVersion host danger defaults ()) = Ret (withVersions blocked versions)
  ∧ outcome (checkPackVersion_js host danger defaults ()) = Ret blocked.
Proof.
  exact (branch_only_edit_is_blocked (Sim.dangerHost testValueLeft)
           (pullRequest "feature/x" [".ui-sha"] [] []) defaults ()
           eq_refl eq_refl eq_refl eq_refl eq_refl eq_refl).
Defined.

(** C4 as stated fails: the pin file was removed on main and the branch
    [feature/x] deletes it too.  Main reads as the empty string, the
    working copy as [null], and the verdict is not blocked. *)
Lemma deleted_claim_fails_when_main_has_no_file :
  let host := Sim.dangerHost removedOnBothSides in
  let danger := pullRequest "feature/x" [] [] [".ui-sha"] in
  let versions := {| main := Some ""; pr := None; base := Some "abc123" |} in
  let verdict := {| shouldBlock := false; reason := reason_both_missing |} in
  allowListed host danger defaults = Ret false
  ∧ isDeleted danger defaults = true
  ∧ versionsRead host ".ui-sha" () = versions
  ∧ outcome (checkPackVersion host danger defaults ()) =
      Ret (withVersions verdict versions)
  ∧ outcome (checkPackVersion_js host danger defaults ()) = Ret verdict.
Proof. repeat split; reflexivity. Qed.

(** The branch deletes a pin file that main still has. *)
Lemma deleted_is_blocked_witness :
  let host := Sim.dangerHost removedOnBranch in
  let danger := pullRequest "feature/x" [] [] [".ui-sha"] in
  let versions := {| main := Some "abc123"; pr := None; base := Some "abc123" |} in
  let blocked := {| shouldBlock := true; reason := reason_deleted |} in
  outcome (checkPackVersion host danger defaults ()) = Ret (withVersions blocked versions)
  ∧ outcome (checkPackVersion_js host danger defaults ()) = Ret blocked.
Proof.
  exact (deleted_is_blocked (Sim.dangerHost removedOnBranch)
           (pullRequest "feature/x" [] [] [".ui-sha"]) defaults ()
           eq_refl eq_refl eq_refl eq_refl eq_refl).
Defined.

(** Scenarios C and D of the specification. *)
Example new_file_is_not_blocked :
  outcome (checkPackVersion_js (Sim.dangerHost newPinFile)
             (pullRequest "feature/x" [] [".ui-sha"] []) defaults ())
  = Ret {| shouldBlock := false; reason := reason_new_file |}.
Proof. reflexivity. Qed.

Example divergent_edit_is_blocked :
  outcome (checkPackVersion_js (Sim.dangerHost divergent)
             (pullRequest "feature/x" [".ui-sha"] [] []) defaults ())
  = Ret {| shouldBlock := true; reason := reason_divergent_edit |}.
Proof. reflexivity. Qed.

End DangerInstances.


(** ** The pack pipeline *)

(** *** What a computation that returned has done *)

Section EffInversion.
Context {W Ev : Type}.
Implicit Types (w : W) (l : list Ev).

Lemma bind_inv_Ret {A B} (m : M W Ev A) (k : A → M W Ev B) w b w' l :
  (m ≫= k) w = (Ret b, w', l) →
  ∃ a w1 l1 l2, m w = (Ret a, w1, l1) ∧ k a w1 = (Ret b, w', l2) ∧ l = l1 ++ l2.
Proof.
  unfold mbind, M_bind, bind.
  destruct (m w) as [[[a|e] w1] l1]; [|discriminate].
  destruct (k a w1) as [[r w2] l2] eqn:E. intros [= -> -> <-]. eauto 10.
Qed.

Lemma try_finally_inv_Ret {A} (m : M W Ev A) (cleanup : M W Ev unit) w a w' l :
  try_finally m cleanup w = (Ret a, w', l) →
  ∃ w1 l1 l2, m w = (Ret a, w1, l1) ∧ cleanup w1 = (Ret (), w', l2) ∧ l = l1 ++ l2.
Proof.
  unfold try_finally. destruct (m w) as [[r w1] l1].
  destruct (cleanup w1) as [[[[]|e] w2] l2] eqn:Ec; [|discriminate].
  intros [= -> -> <-]. by eexists w1, l1, l2.
Qed.

Lemma emit_inv ev w (a : unit) w' l :
  (emit ev : M W Ev unit) w = (Ret a, w', l) → w' = w ∧ l = [ev].
Proof. by intros [= _ <- <-]. Qed.

Lemma mret_inv {A} (x : A) w (a : A) w' l :
  (mret x : M W Ev A) w = (Ret a, w', l) → x = a ∧ w' = w ∧ l = [].
Proof. by intros [= <- <- <-]. Qed.

Lemma lift_inv {A} (r : Res A) w (a : A) w' l :
  (lift r : M W Ev A) w = (Ret a, w', l) → r = Ret a ∧ w' = w ∧ l = [].
Proof. by intros [= <- <- <-]. Qed.

Lemma call_inv_Ret {A} (op : W → Res A * W) (ev : Res A → Ev) w a w' l :
  call op ev w = (Ret a, w', l) → op w = (Ret a, w') ∧ l = [ev (Ret a)].
Proof. unfold call. destruct (op w) as [r w1]. by intros [= -> -> <-]. Qed.

Lemma ask_inv {A} (op : W → A * W) (ev : A → Ev) w a w' l :
  ask op ev w = (Ret a, w', l) → op w = (a, w') ∧ l = [ev a].
Proof. unfold ask. destruct (op w) as [r w1]. by intros [= -> -> <-]. Qed.

Lemma throw_inv_Ret {A} e w (a : A) w' l :
  (throw e : M W Ev A) w = (Ret a, w', l) → False.
Proof. discriminate. Qed.

End EffInversion.

(** Take apart a hypothesis [m w = (Ret a, w', l)] along the structure of
    [m], down to the host calls. *)
Ltac inv_ret H :=
  lazymatch type of H with
  | (_ ≫= _) _ = (Ret _, _, _) =>
      let H1 := fresh "Hstep" in
      apply bind_inv_Ret in H as (? & ? & ? & ? & H1 & H & ->);
      inv_ret H1; inv_ret H
  | try_finally _ _ _ = (Ret _, _, _) =>
      let H1 := fresh "Hstep" in
      apply try_finally_inv_Ret in H as (? & ? & ? & H1 & H & ->);
      inv_ret H1; inv_ret H
  | emit _ _ = (Ret _, _, _) => apply emit_inv in H as [-> ->]
  | mret _ _ = (Ret _, _, _) =>
      let E := fresh "E" in
      apply mret_inv in H as (E & -> & ->); simplify_eq E; intros
  | lift _ _ = (Ret _, _, _) => apply lift_inv in H as (H & -> & ->)
  | throw _ _ = (Ret _, _, _) => by apply throw_inv_Ret in H
  | call _ _ _ = (Ret _, _, _) => apply call_inv_Ret in H as [H ->]
  | ask _ _ _ = (Ret _, _, _) => apply ask_inv in H as [H ->]
  | (if ?b then _ else _) _ = (Ret _, _, _) => destruct b eqn:?; inv_ret H
  | (match ?x with _ => _ end) _ = (Ret _, _, _) => destruct x eqn:?; inv_ret H
  | (let _ := _ in _) _ = _ => cbv zeta in H; inv_ret H
  | _ => idtac
  end.

(** Find a call in a log written as a concatenation. *)
Ltac in_log :=
  lazymatch goal with
  | |- _ ∈ _ :: _ => first [apply list_elem_of_here | apply list_elem_of_further; in_log]
  | |- _ ∈ _ ++ _ => apply elem_of_app; first [left; in_log | right; in_log]
  | |- _ => eassumption
  end.

(** *** The packed file is the greatest [.tgz] entry *)



(** *** The phases of [run] *)

Section PackFacts.
Import Pack.
Context {W : Type} (host : Host W) (inputs : Inputs).
Implicit Types (w : W) (l : list Call).

Ltac unfold_phases :=
  unfold setup, commit, buildAndPack, checkout, installAndPack, renamePacked,
    findPackedFile, generateChangelog, readLastSha, required,
    updateVersionFile, updatePackageJson, execute, info, setOutput.

Lemma checkout_Ret r ts tok td w fullSha shortSha w' l :
  checkout host r ts tok td w = (Ret (fullSha, shortSha), w', l) →
  SetOutput "full-sha" fullSha ∈ l.
Proof.
  unfold checkout, execute, info, setOutput. intros H. inv_ret H; subst; in_log.
Qed.

Lemma installAndPack_Ret pd pc pk w originalDir fullPackDest w' l :
  installAndPack host inputs pd pc pk w = (Ret (originalDir, fullPackDest), w', l) →
  GITHUB_WORKSPACE inputs = Some originalDir.
Proof.
  unfold installAndPack, execute, info. intros H. inv_ret H; subst; congruence.
Qed.

Lemma findPackedFile_Ret dest w packedFile w' l :
  findPackedFile host dest w = (Ret packedFile, w', l) →
  ∃ files, Readdir dest (Ret files) ∈ l ∧ last (tgzFiles files) = Some packedFile.
Proof.
  unfold findPackedFile, info. intros H. inv_ret H; subst.
  eexists. split; [in_log|].
  match goal with
  | H : bool_decide _ = false |- _ => apply bool_decide_eq_false in H
  end.
  rewrite last_lookup, <- Nat.sub_1_r.
  destruct (_ !! _) eqn:E; [done|].
  apply lookup_ge_None in E. lia.
Qed.

Lemma renamePacked_no_name pd dest packedFile shortSha :
  renamePacked host "" pd dest packedFile shortSha =
    mret (path_join host [pd; packedFile]).
Proof. reflexivity. Qed.

Lemma updatePackageJson_no_name finalPackage originalDir :
  updatePackageJson host "" finalPackage originalDir = mret ().
Proof. reflexivity. Qed.

Lemma buildAndPack_Ret r ts pn pd pc pk tok td ls w fullSha finalPackage originalDir w' l :
  buildAndPack host inputs r ts pn pd pc pk tok td ls w =
    (Ret (fullSha, finalPackage, originalDir), w', l) →
  SetOutput "full-sha" fullSha ∈ l
  ∧ SetOutput "package-file" finalPackage ∈ l
  ∧ GITHUB_WORKSPACE inputs = Some originalDir
  ∧ (pn = "" → ∃ dir files packedFile,
                 Readdir dir (Ret files) ∈ l
                 ∧ last (tgzFiles files) = Some packedFile
                 ∧ finalPackage = path_join host [pd; packedFile]).
Proof.
  unfold buildAndPack, setOutput. intros H. inv_ret H. subst.
  repeat match goal with
  | H : checkout _ _ _ _ _ _ = _ |- _ => apply checkout_Ret in H
  | H : installAndPack _ _ _ _ _ _ = _ |- _ => apply installAndPack_Ret in H
  | H : findPackedFile _ _ _ = _ |- _ =>
      apply findPackedFile_Ret in H as (files & Hlisted & Hlast)
  end.
  split_and!. 1: in_log. 1: in_log. 1: done.
  intros ->.
  match goal with
  | H : renamePacked _ _ _ _ _ _ _ = _ |- _ =>
      rewrite renamePacked_no_name in H; inv_ret H
  end.
  eexists _, _, _. split_and!; [in_log|eassumption|done].
Qed.

Lemma setup_quiet : only quiet (setup host inputs).
Proof. unfold_phases. repeat traced_step; by apply only_singleton. Qed.

Lemma buildAndPack_quiet r ts pn pd pc pk tok td ls :
  only quiet (buildAndPack host inputs r ts pn pd pc pk tok td ls).
Proof. unfold_phases. repeat traced_step; by apply only_singleton. Qed.

Lemma quiet_writeCalls l : Forall quiet l → writeCalls l = [].
Proof.
  induction 1 as [|c l [Hc _] _ IH]; [done|].
  unfold writeCalls in *. cbn. by rewrite Hc.
Qed.

Lemma writeCalls_app l1 l2 : writeCalls (l1 ++ l2) = writeCalls l1 ++ writeCalls l2.
Proof. apply List.filter_app. Qed.

Lemma failed_app l1 l2 : failed (l1 ++ l2) = failed l1 || failed l2.
Proof. apply existsb_app. Qed.

Lemma failed_end l e : failed (l ++ [SetFailed e]) = true.
Proof. rewrite failed_app. cbn. by rewrite orb_true_r. Qed.

Lemma commit_writes fullSha finalPackage originalDir w :
  let y := commit host inputs fullSha finalPackage originalDir w in
  failed (calls y) = false ∧
  ((∃ e, outcome y = Throw e ∧ writeCalls (calls y) = [pinWrite inputs fullSha (Throw e)])
   ∨ writeCalls (calls y) = [pinWrite inputs fullSha (Ret ())]
   ∨ (∃ content answer,
        writeCalls (calls y) =
          [pinWrite inputs fullSha (Ret ()); manifestWrite host originalDir content answer])).
Proof.
  cbv zeta. unfold commit, updateVersionFile, updatePackageJson, info, pinWrite,
    manifestWrite.
  unfold mbind, M_bind, bind, call, emit, lift, mret, M_ret, ret.
  destruct (writeFile host _ _ w) as [[[]|e] w1]; cbn; [|by eauto].
  destruct (JS.truthy (package_name inputs) && JS.truthy finalPackage); cbn; [|by eauto].
  destruct (readFile host _ w1) as [[text|e] w2]; cbn; [|by eauto].
  destruct (JSON_parse host text) as [json|e]; cbn; [|by eauto].
  destruct (Json.setDependency json _ _) as [json'|e]; cbn; [|by eauto].
  destruct (writeFile host _ _ w2) as [[[]|e] w3]; cbn; eauto 10.
Qed.

Lemma run_writes w :
  let x := run host inputs w in
  (writeCalls (calls x) = [] ∧ failed (calls x) = true)
  ∨ (∃ sha e, writeCalls (calls x) = [pinWrite inputs sha (Throw e)] ∧ failed (calls x) = true)
  ∨ (∃ sha, writeCalls (calls x) = [pinWrite inputs sha (Ret ())])
  ∨ (∃ sha dir content answer,
       GITHUB_WORKSPACE inputs = Some dir ∧
       writeCalls (calls x) =
         [pinWrite inputs sha (Ret ()); manifestWrite host dir content answer]).
Proof.
  cbv zeta. unfold run, try_catch, try_finally, mbind, M_bind, bind, call, emit.
  pose proof (setup_quiet w) as Q1.
  destruct (setup host inputs w) as [[[[[[repo tok] lastSha] tempDir]|e] w1] l1];
    cbn in Q1; apply quiet_writeCalls in Q1; cbn.
  2:{ left. by rewrite writeCalls_app, Q1, failed_end. }
  lazymatch goal with
  | |- context [buildAndPack _ _ ?a1 ?a2 ?a3 ?a4 ?a5 ?a6 ?a7 ?a8 ?a9 ?w0] =>
      pose proof (buildAndPack_quiet a1 a2 a3 a4 a5 a6 a7 a8 a9 w0) as Q2;
      pose proof (buildAndPack_Ret a1 a2 a3 a4 a5 a6 a7 a8 a9 w0) as R2;
      destruct (buildAndPack host inputs a1 a2 a3 a4 a5 a6 a7 a8 a9 w0)
        as [[[[[fullSha finalPackage] originalDir]|e] w2] l2]
  end; cbn in Q2; apply quiet_writeCalls in Q2; cbn.
  2:{ destruct (rm host tempDir w2) as [[[]|e'] w3]; cbn;
      left; by rewrite !writeCalls_app, Q1, Q2, failed_end. }
  destruct (R2 _ _ _ _ _ eq_refl) as (_ & _ & Hdir & _). clear R2.
  pose proof (commit_writes fullSha finalPackage originalDir w2) as [_ Hc].
  destruct (commit host inputs fullSha finalPackage originalDir w2)
    as [[rc w3] l3]; cbn [outcome calls fst snd] in Hc.
  destruct rc as [[]|ec], (rm host tempDir w3) as [[[]|e'] w4];
    cbn [outcome calls fst snd];
    destruct Hc as [(e & He & Hc)|[Hc|(content & answer & Hc)]];
    try discriminate He;
    rewrite ?writeCalls_app, ?Q1, ?Q2, ?Hc, ?failed_end; cbn [app];
    eauto 10.
Qed.


(** *** Without a package name only the version file is touched *)

Lemma run_touches_only_the_version_file :
  package_name inputs = "" →
  only (touchesOnly (filePathOf inputs)) (run host inputs).
Proof.
  intros Hno.
  unfold run, setup, commit, buildAndPack, checkout, installAndPack,
    findPackedFile, generateChangelog, readLastSha, required, updateVersionFile,
    execute, info, setOutput.
  rewrite Hno.
  repeat first [rewrite renamePacked_no_name | rewrite updatePackageJson_no_name
               | traced_step];
    by apply only_singleton.
Qed.

End PackFacts.


(** ** The readers of the pin file *)

(** C6.  A pin file as the pipeline writes it has a comment as its first
    line and the SHA as its second.  The pipeline's own reader skips the
    comment and finds the SHA.  The reader of the version check takes the
    first line: whatever the SHA, it returns the comment line.  So on a
    repository whose pin file was written by the pipeline, a branch that
    changed the SHA by hand compares equal to main and is not blocked. *)
Theorem version_check_reads_the_comment_line :
  Pack.matchSha (Pack.fileContent "" Scenario.headSha) = Some Scenario.headSha
  ∧ (∀ sha, Danger.firstLine (Pack.fileContent "" sha) = Scenario.commentLine)
  ∧ outcome (Danger.checkPackVersion (Sim.dangerHost Scenario.shaEditedByHand)
               (Scenario.pullRequest "feature/x" [".ui-sha"] [] [])
               Scenario.defaults ())
    = Ret (Danger.withVersions
             {| Danger.shouldBlock := false; Danger.reason := Danger.reason_match |}
             {| Danger.main := Some Scenario.commentLine;
                Danger.pr := Some Scenario.commentLine;
                Danger.base := Some Scenario.commentLine |}).
Proof. split_and!; [by vm_compute|reflexivity|by vm_compute]. Qed.

(** The reader of the version check does not skip a blank first line
    either. *)
Example firstLine_of_a_blank_first_line :
  Danger.firstLine (JS.nl +:+ "abc123" +:+ JS.nl) = "".
Proof. reflexivity. Qed.

(** ** The rollback guard *)

(** C8.  When the previous identifier is known and is neither the
    resolved identifier nor an ancestor of it, so that the move is a
    rollback: without the override [resolve] fails with
    [RollbackRejected] and returns no resolution; with the override it
    succeeds and the resolution it returns has [isRollback] set. *)
Theorem rollback_needs_the_override (c : Guard.Collaborators)
    (repository requestedTarget trackedFilePath previous resolved : string) :
  Guard.resolveTarget c repository requestedTarget = Some resolved →
  Guard.readPrevious c trackedFilePath = Some previous →
  previous ≠ resolved →
  Guard.isAncestor c repository previous resolved = false →
  Guard.resolve c repository requestedTarget trackedFilePath false
    = inl Guard.RollbackRejected
  ∧ Guard.resolve c repository requestedTarget trackedFilePath true
    = inr {| Guard.resolvedIdentifier := resolved;
             Guard.shortIdentifier := String.substring 0 (Guard.shortLength c) resolved;
             Guard.previousIdentifier := Some previous;
             Guard.isRollback := true |}.
Proof.
  intros Hresolved Hprevious Hne Hancestor.
  unfold Guard.resolve, Guard.wouldBeRollback.
  rewrite Hresolved, Hprevious, Hancestor.
  rewrite bool_decide_eq_false_2 by done. by split.
Qed.

(** Scenario E of the specification. *)
Lemma rollback_needs_the_override_witness :
  Guard.resolve Scenario.scenarioE "temporalio/ui" "aaa" ".ui-sha" false
    = inl Guard.RollbackRejected
  ∧ Guard.resolve Scenario.scenarioE "temporalio/ui" "aaa" ".ui-sha" true
    = inr {| Guard.resolvedIdentifier := "aaa";
             Guard.shortIdentifier := "aaa";
             Guard.previousIdentifier := Some "bbb";
             Guard.isRollback := true |}.
Proof.
  apply (rollback_needs_the_override Scenario.scenarioE "temporalio/ui" "aaa" ".ui-sha"
           "bbb" "aaa"); [reflexivity|reflexivity|discriminate|reflexivity].
Defined.


(** * Further properties of the code *)

(** ** Strings: reversal, trimming and cutting *)

Section StringFacts.
Implicit Types (s t : string) (c : ascii).

Lemma append_cons c s t : String c s +:+ t = String c (s +:+ t).
Proof. reflexivity. Qed.

Lemma append_nil_r s : s +:+ "" = s.
Proof. induction s as [|c s IH]; [done|]. by rewrite append_cons, IH. Qed.

Lemma append_assoc s t u : (s +:+ t) +:+ u = s +:+ t +:+ u.
Proof. induction s as [|c s IH]; [done|]. by rewrite !append_cons, IH. Qed.

Lemma rev_app_append s t : String.rev_app s t = String.rev s +:+ t.
Proof.
  revert t. induction s as [|c s IH]; intros t; [done|].
  unfold String.rev. cbn [String.rev_app].
  by rewrite (IH (String c "")), IH, append_assoc.
Qed.

Lemma rev_cons c s : String.rev (String c s) = String.rev s +:+ String c "".
Proof. unfold String.rev at 1. cbn [String.rev_app]. apply rev_app_append. Qed.

Lemma rev_append s t : String.rev (s +:+ t) = String.rev t +:+ String.rev s.
Proof.
  induction s as [|c s IH].
  - by rewrite append_nil_r.
  - by rewrite append_cons, !rev_cons, IH, append_assoc.
Qed.

Lemma rev_involutive s : String.rev (String.rev s) = s.
Proof.
  induction s as [|c s IH]; [done|].
  by rewrite rev_cons, rev_append, IH.
Qed.

Lemma trimStart_idemp s : JS.trimStart (JS.trimStart s) = JS.trimStart s.
Proof.
  induction s as [|c s IH]; [done|]. cbn [JS.trimStart].
  destruct (Ascii.is_space c) eqn:E; [done|]. cbn [JS.trimStart]. by rewrite E.
Qed.

Lemma trimStart_head s :
  JS.trimStart s = "" ∨ ∃ c t, JS.trimStart s = String c t ∧ Ascii.is_space c = false.
Proof.
  induction s as [|c s IH]; [by left|]. cbn [JS.trimStart].
  destruct (Ascii.is_space c) eqn:E; [done|]. right. eauto.
Qed.

Lemma trimStart_snoc s c :
  Ascii.is_space c = false →
  JS.trimStart (s +:+ String c "") = JS.trimStart s +:+ String c "".
Proof.
  intros Hc. induction s as [|x s IH].
  - change ("" +:+ String c "") with (String c ""). cbn [JS.trimStart].
    by rewrite Hc.
  - rewrite append_cons. cbn [JS.trimStart]. by destruct (Ascii.is_space x).
Qed.

Lemma trimEnd_cons c s :
  Ascii.is_space c = false → JS.trimEnd (String c s) = String c (JS.trimEnd s).
Proof.
  intros Hc. unfold JS.trimEnd.
  by rewrite rev_cons, trimStart_snoc, rev_append.
Qed.

Lemma trimEnd_idemp s : JS.trimEnd (JS.trimEnd s) = JS.trimEnd s.
Proof. unfold JS.trimEnd. by rewrite rev_involutive, trimStart_idemp. Qed.

Lemma trimStart_trim s : JS.trimStart (JS.trim s) = JS.trim s.
Proof.
  unfold JS.trim. destruct (trimStart_head s) as [->|(c & t & -> & Hc)]; [done|].
  rewrite trimEnd_cons by done. cbn [JS.trimStart]. by rewrite Hc.
Qed.

Lemma trim_idemp s : JS.trim (JS.trim s) = JS.trim s.
Proof.
  unfold JS.trim at 1. rewrite trimStart_trim. unfold JS.trim.
  apply trimEnd_idemp.
Qed.

(** Cutting at a separator: what comes before the first one. *)
Lemma split_go_first sep cur a c b :
  JS.forallb (λ x, negb (sep x)) a = true → sep c = true →
  hd "" (JS.split_go sep cur (a +:+ String c b)) = String.rev cur +:+ a.
Proof.
  revert cur. induction a as [|x a IH]; intros cur Ha Hc.
  - change ("" +:+ String c b) with (String c b). cbn [JS.split_go].
    rewrite Hc. cbn [hd]. by rewrite append_nil_r.
  - rewrite append_cons. cbn [JS.split_go].
    cbn in Ha. apply andb_true_iff in Ha as [Hx Ha].
    apply negb_true_iff in Hx. rewrite Hx.
    rewrite IH by done. by rewrite rev_cons, append_assoc.
Qed.
End StringFacts.


(** ** What a computation that throws leaves in its log *)

Section EffBlame.
Context {W Ev : Type}.
Implicit Types (w : W).

Lemma guards_try_finally_both Bad {A} (m : M W Ev A) (cleanup : M W Ev unit) :
  guards Bad m → guards Bad cleanup → guards Bad (try_finally m cleanup).
Proof.
  intros Hm Hc w. specialize (Hm w). unfold try_finally.
  destruct (m w) as [[r w1] l1].
  specialize (Hc w1). destruct (cleanup w1) as [[[[]|?] ?] l2]; cbn in *;
    intros [Hbad|Hbad]%Exists_app; try done; try by apply Hm.
  by specialize (Hc Hbad).
Qed.

Lemma guards_call Bad {A} (op : W → Res A * W) (ev : Res A → Ev) :
  (∀ a, ¬ Bad (ev (Ret a))) → guards Bad (call op ev).
Proof.
  intros Hok w. unfold call. destruct (op w) as [[a|e] w1]; cbn; [|done].
  intros [Hbad|Hbad%Exists_nil]%Exists_cons; [|done]. by apply Hok in Hbad.
Qed.

Lemma guards_ask Bad {A} (op : W → A * W) (ev : A → Ev) :
  (∀ a, ¬ Bad (ev a)) → guards Bad (ask op ev).
Proof.
  intros Hok w. unfold ask. destruct (op w) as [a w1]; cbn.
  intros [Hbad|Hbad%Exists_nil]%Exists_cons; [|done]. by apply Hok in Hbad.
Qed.

Lemma guards_silent Bad {A} (m : M W Ev A) :
  (∀ w, calls (m w) = []) → guards Bad m.
Proof. intros Hm w. rewrite Hm. by intros ?%Exists_nil. Qed.

Section Blames.
Context (Cause : list Ev → Prop) `{!Monotone Cause}.

Lemma blames_returns {A} (m : M W Ev A) : returns m → blames Cause m.
Proof. intros Hm w Hthrown. by rewrite (Hm w) in Hthrown. Qed.

Lemma blames_ret {A} (a : A) : blames Cause (mret a : M W Ev A).
Proof. by apply blames_returns, returns_ret. Qed.

Lemma blames_emit ev : blames Cause (emit ev : M W Ev unit).
Proof. by apply blames_returns, returns_emit. Qed.

Lemma blames_ask {A} (op : W → A * W) (ev : A → Ev) : blames Cause (ask op ev).
Proof. by apply blames_returns, returns_ask. Qed.

Lemma blames_try_catch {A} (m : M W Ev A) (handler : string → M W Ev A) :
  (∀ e, returns (handler e)) → blames Cause (try_catch m handler).
Proof. intros Hh. by apply blames_returns, returns_try_catch. Qed.

Lemma blames_throw {A} e : Cause [] → blames Cause (throw e : M W Ev A).
Proof. by intros Hc w _. Qed.

Lemma blames_call {A} (op : W → Res A * W) (ev : Res A → Ev) :
  (∀ e, Cause [ev (Throw e)]) → blames Cause (call op ev).
Proof.
  intros Hc w. unfold call. destruct (op w) as [[a|e] w1]; cbn; [done|].
  intros _. apply Hc.
Qed.

Lemma blames_bind {A B} (m : M W Ev A) (k : A → M W Ev B) :
  blames Cause m → (∀ a, blames Cause (k a)) → blames Cause (m ≫= k).
Proof.
  intros Hm Hk w. specialize (Hm w).
  destruct (m w) as [[[a|e] w1] l1] eqn:E.
  - rewrite (bind_Ret _ _ _ _ _ _ E). cbn [outcome calls fst snd].
    intros Hthrown. apply monotone_r. by apply Hk.
  - rewrite (bind_Throw _ _ _ _ _ _ E). intros _. by apply Hm.
Qed.

Lemma blames_try_finally {A} (m : M W Ev A) (cleanup : M W Ev unit) :
  blames Cause m → blames Cause cleanup → blames Cause (try_finally m cleanup).
Proof.
  intros Hm Hc w. specialize (Hm w). unfold try_finally.
  destruct (m w) as [[r w1] l1].
  specialize (Hc w1). destruct (cleanup w1) as [[[[]|?] ?] l2];
    cbn [outcome calls fst snd] in *.
  - intros Hthrown. apply monotone_l. by apply Hm.
  - intros _. apply monotone_r. by apply Hc.
Qed.
End Blames.
End EffBlame.

(** Decompose a goal [blames Cause m] along the structure of [m]; what
    is left are the calls that can throw and the errors thrown by the
    code itself. *)
Ltac blames_step :=
  lazymatch goal with
  | |- blames _ (mret _) => apply blames_ret
  | |- blames _ (emit _) => apply blames_emit
  | |- blames _ (ask _ _) => apply blames_ask
  | |- blames _ (throw _) => apply blames_throw
  | |- blames _ (call _ _) => apply blames_call; intros
  | |- blames _ (_ ≫= _) => apply blames_bind; [tc_solve| |intros]
  | |- blames _ (try_finally _ _) => apply blames_try_finally; [tc_solve| |]
  | |- blames _ (if ?b then _ else _) => destruct b eqn:?
  | |- blames _ (match ?x with _ => _ end) => destruct x eqn:?
  | |- blames _ (let _ := _ in _) => cbv zeta
  end.

(** Decompose a goal [guards Bad m] along the structure of [m]; what is
    left are the answers that do not make the code throw. *)
Ltac guards_steps :=
  lazymatch goal with
  | |- guards _ (mret _) => by apply guards_silent
  | |- guards _ (throw _) => by apply guards_silent
  | |- guards _ (lift _) => by apply guards_silent
  | |- guards _ (emit _) => apply guards_only, traced_emit, only_singleton
  | |- guards _ (ask _ _) => apply guards_ask; intros
  | |- guards _ (call _ _) => apply guards_call; intros
  | |- guards _ (_ ≫= _) => apply guards_bind; [|intros]
  | |- guards _ (try_finally _ _) => apply guards_try_finally_both
  | |- guards _ (if ?b then _ else _) => destruct b
  | |- guards _ (match ?x with _ => _ end) => destruct x
  | |- guards _ (let _ := _ in _) => cbv zeta
  end.


(** ** The version check: errors, reports and the loop over configurations *)

Section DangerExtras.
Import Danger.
Context {W : Type} (host : Host W) (danger : DangerDSL).
Implicit Types (options : PackVersionOptions) (w : W) (versions : Versions).

(** [checkPackVersion] at a world, path by path. *)
Lemma checkPackVersionWith_run {R} (early : Verdict → R)
    (finish : Verdict → Versions → R) options w :
  checkPackVersionWith host danger early finish options w =
    match allowListed host danger options with
    | Throw e => (Throw e, w, [])
    | Ret true =>
        (Ret (early {| shouldBlock := false; reason := reason_allowed_branch |}), w,
         [ConsoleLog ("Branch '" +:+ pr_head_ref danger +:+ "' matches allow pattern '" +:+
                      allowPatternOf options +:+ "'")])
    | Ret false =>
        if touched danger options then
          let read := getVersions host (trackedPath options) w in
          let versions := versionsRead host (trackedPath options) w in
          let evaluation :=
            evaluateBlockingConditions versions (isCreated danger options)
              (isDeleted danger options) in
          (Ret (finish evaluation versions), world read,
           calls read ++
           if shouldBlock evaluation then
             [Markdown (formatComment host (commentBodyTemplate options)
                          (default "Version Mismatch Detected" (commentTitle options))
                          (trackedPath options) (main versions) (pr versions)
                          (default "git fetch origin main && git merge origin/main"
                             (updateCommand options))
                          (reason evaluation));
              Fail ("Version check failed in " +:+ trackedPath options +:+ ": " +:+
                    reason evaluation)]
           else [])
        else
          (Ret (early {| shouldBlock := false; reason := reason_untouched |}), w,
           [ConsoleLog ("PR hasn't modified " +:+ trackedPath options)])
    end.
Proof.
  unfold checkPackVersionWith. cbv zeta.
  destruct (allowListed host danger options) as [[|]|e] eqn:Hallow; try reflexivity.
  unfold touched.
  destruct (negb (isModified danger options) && negb (isCreated danger options) &&
            negb (isDeleted danger options)) eqn:Ht; [reflexivity|].
  cbn [negb].
  pose proof (getVersions_versionsRead host (trackedPath options) w) as Hread.
  set (versions := versionsRead host (trackedPath options) w) in *.
  clearbody versions.
  unfold mbind, M_bind, bind, lift.
  destruct (getVersions host (trackedPath options) w) as [[r w1] l1] eqn:E.
  cbn in Hread. subst r. cbn.
  destruct (shouldBlock _); cbn; rewrite ?app_nil_r; reflexivity.
Qed.

Lemma getVersions_reads path : only isRead (getVersions host path).
Proof.
  intros w. rewrite getVersions_outer_handler_dead. revert w.
  change (only isRead (readVersions host path)).
  unfold readVersions, tryExecTrim.
  repeat traced_step; apply only_singleton; exact I.
Qed.

Lemma reads_do_not_report (l : list Call) :
  Forall isRead l → existsb isFail l = false ∧ existsb isMarkdown l = false.
Proof.
  induction 1 as [|c l Hc _ [IH1 IH2]]; [done|].
  cbn. rewrite IH1, IH2. by destruct c.
Qed.

Lemma readVersions_shape path w :
  let x := readVersions host path w in
  length (calls x) ≤ 5 ∧
  ∃ versions, outcome x = Ret versions
    ∧ JS.trim <$> main versions = main versions
    ∧ JS.trim <$> pr versions = pr versions
    ∧ JS.trim <$> base versions = base versions.
Proof.
  cbv zeta. unfold readVersions, tryExecTrim, firstLine.
  unfold try_catch, mbind, M_bind, bind, call, ask, emit, mret, M_ret, ret.
  destruct (execSync host _ w) as [[out|e] w1]; cbn;
  destruct (existsSync host path w1) as [[] w2]; cbn;
  try destruct (readFileSync host path w2) as [[content|e'] w3]; cbn.
  all: match goal with |- context [execSync host ?c ?w'] =>
         destruct (execSync host c w') as [[mb|e''] w4]; cbn end.
  all: try (destruct (JS.truthy (JS.trim mb)); cbn).
  all: try match goal with |- context [execSync host ?c ?w'] =>
         destruct (execSync host c w') as [[sb|e3] w5]; cbn end.
  all: cbn [length app].
  all: (split; [lia|]).
  all: eexists; (split; [reflexivity|]); cbn; rewrite ?trim_idemp; done.
Qed.

Lemma checkPackVersionWith_returns {R} (early : Verdict → R)
    (finish : Verdict → Versions → R) options w :
  isRet (outcome (checkPackVersionWith host danger early finish options w)) =
    isRet (allowListed host danger options).
Proof.
  rewrite checkPackVersionWith_run.
  destruct (allowListed host danger options) as [[|]|e]; [done| |done].
  by destruct (touched danger options).
Qed.

Lemma checkPackVersion_js_fail options w x :
  outcome (checkPackVersion_js host danger options w) = Ret x →
  existsb isFail (calls (checkPackVersion_js host danger options w)) = shouldBlock x.
Proof.
  unfold checkPackVersion_js. rewrite checkPackVersionWith_run.
  destruct (allowListed host danger options) as [[|]|e];
    [by intros [= <-]| |done].
  destruct (touched danger options); [|by intros [= <-]]. cbv zeta.
  pose proof (reads_do_not_report _ (getVersions_reads (trackedPath options) w))
    as [Hfail _].
  cbn [outcome calls fst snd]. intros [= <-]. rewrite existsb_app, Hfail.
  by destruct (shouldBlock _).
Qed.

(** *** One check *)

(** X1. The only error [checkPackVersion] lets through is that of
    [new RegExp(allowPattern)]: when the pattern is rejected the check
    throws that error before any host call, and otherwise it returns,
    in both plugins. *)
Theorem check_throws_only_on_a_rejected_pattern options w :
  match allowListed host danger options with
  | Throw e =>
      checkPackVersion host danger options w = (Throw e, w, [])
      ∧ checkPackVersion_js host danger options w = (Throw e, w, [])
  | Ret _ =>
      isRet (outcome (checkPackVersion host danger options w)) = true
      ∧ isRet (outcome (checkPackVersion_js host danger options w)) = true
  end.
Proof.
  unfold checkPackVersion, checkPackVersion_js.
  rewrite !checkPackVersionWith_run.
  destruct (allowListed host danger options) as [[|]|e]; [done| |done].
  by destruct (touched danger options).
Qed.

(** X2. [fail] is called exactly when the verdict returned is blocked,
    and a comment is posted with [markdown] exactly when [fail] is
    called, in both plugins. *)
Theorem fail_is_called_exactly_when_blocked options w :
  let ts := checkPackVersion host danger options w in
  let js := checkPackVersion_js host danger options w in
  existsb isFail (calls ts) =
    match outcome ts with Ret r => shouldBlock (verdict r) | Throw _ => false end
  ∧ existsb isFail (calls js) =
    match outcome js with Ret r => shouldBlock r | Throw _ => false end
  ∧ existsb isMarkdown (calls ts) = existsb isFail (calls ts)
  ∧ existsb isMarkdown (calls js) = existsb isFail (calls js).
Proof.
  cbv zeta. unfold checkPackVersion, checkPackVersion_js.
  rewrite !checkPackVersionWith_run.
  destruct (allowListed host danger options) as [[|]|e]; [done| |done].
  destruct (touched danger options); [|done]. cbv zeta.
  pose proof (reads_do_not_report _ (getVersions_reads (trackedPath options) w))
    as [Hfail Hmark].
  cbn [outcome calls fst snd]. rewrite !existsb_app, Hfail, Hmark.
  by destruct (shouldBlock _).
Qed.

(** X3. The TypeScript and the JavaScript plugin make the same host
    calls, leave the same world and throw the same error; the verdict
    of the JavaScript plugin is that of the TypeScript one without the
    three versions. *)
Theorem plugins_agree options w :
  let ts := checkPackVersion host danger options w in
  let js := checkPackVersion_js host danger options w in
  calls js = calls ts
  ∧ world js = world ts
  ∧ outcome js =
      match outcome ts with Ret r => Ret (verdict r) | Throw e => Throw e end.
Proof.
  cbv zeta. unfold checkPackVersion, checkPackVersion_js.
  rewrite !checkPackVersionWith_run.
  destruct (allowListed host danger options) as [[|]|e]; [done| |done].
  by destruct (touched danger options).
Qed.

(** *** Reading the versions *)

(** X4. [getVersions] never throws, whatever git and the file system
    answer; every host call it makes is a read ([execSync],
    [existsSync] or [readFileSync]), so it logs nothing and reports
    nothing to the pull request; and it makes at most five calls. *)
Theorem getVersions_only_reads path w :
  let x := getVersions host path w in
  isRet (outcome x) = true ∧ Forall isRead (calls x) ∧ length (calls x) ≤ 5.
Proof.
  cbv zeta. split_and!.
  - apply getVersions_returns.
  - apply getVersions_reads.
  - rewrite getVersions_outer_handler_dead. apply readVersions_shape.
Qed.

(** X5. Each of the three versions [getVersions] returns is [null] or a
    trimmed string: trimming it again changes nothing, so the
    comparisons of [evaluateBlockingConditions] never differ by
    surrounding white space. *)
Theorem versions_are_trimmed path w :
  let versions := versionsRead host path w in
  JS.trim <$> main versions = main versions
  ∧ JS.trim <$> pr versions = pr versions
  ∧ JS.trim <$> base versions = base versions.
Proof.
  cbv zeta. unfold versionsRead. rewrite getVersions_outer_handler_dead.
  destruct (readVersions_shape path w) as (_ & versions & -> & H). exact H.
Qed.

(** *** The loop over several configurations *)

Section Each.
Context {P R : Type} (check : PackVersionOptions → M W Call R)
  (label : PackVersionOptions → P) (blocks : R → bool).

Lemma checkEach_results configs acc flag w r :
  outcome (checkEach check label blocks configs acc flag w) = Ret r →
  ∃ rs, results r = acc ++ zip (label <$> configs) rs
        ∧ length rs = length configs
        ∧ hasFailures r = flag || existsb blocks rs
        ∧ Forall2 (λ config x, ∃ w', outcome (check config w') = Ret x) configs rs.
Proof.
  revert acc flag w. induction configs as [|config rest IH]; intros acc flag w.
  - intros [= <-]. exists []. cbn. by rewrite app_nil_r, orb_false_r.
  - cbn [checkEach].
    destruct (check config w) as [[[x|e] w1] l1] eqn:E.
    + erewrite bind_Ret by exact E. cbn [outcome fst].
      intros (rs & Hres & Hlen & Hflag & Hall)%IH. exists (x :: rs). split_and!.
      * rewrite Hres, <- app_assoc. done.
      * cbn. by rewrite Hlen.
      * rewrite Hflag. cbn. by destruct (blocks x), flag.
      * constructor; [|done]. exists w. by rewrite E.
    + erewrite bind_Throw by exact E. discriminate.
Qed.

Lemma checkEach_returns (valid : PackVersionOptions → bool) configs acc flag w :
  (∀ config w', isRet (outcome (check config w')) = valid config) →
  isRet (outcome (checkEach check label blocks configs acc flag w)) =
    forallb valid configs.
Proof.
  intros Hvalid. revert acc flag w.
  induction configs as [|config rest IH]; intros acc flag w; [done|].
  cbn [checkEach forallb]. rewrite <- (Hvalid config w).
  destruct (check config w) as [[[x|e] w1] l1] eqn:E.
  - erewrite bind_Ret by exact E. cbn [outcome fst]. apply IH.
  - erewrite bind_Throw by exact E. done.
Qed.

Lemma checkEach_reported (seen : Call → bool) configs acc flag w r :
  (∀ config w' x, outcome (check config w') = Ret x →
                  existsb seen (calls (check config w')) = blocks x) →
  outcome (checkEach check label blocks configs acc flag w) = Ret r →
  hasFailures r =
    flag || existsb seen (calls (checkEach check label blocks configs acc flag w)).
Proof.
  intros Hseen. revert acc flag w.
  induction configs as [|config rest IH]; intros acc flag w.
  - intros [= <-]. cbn. by rewrite orb_false_r.
  - cbn [checkEach]. specialize (Hseen config w).
    destruct (check config w) as [[[x|e] w1] l1] eqn:E.
    + erewrite bind_Ret by exact E. cbn [outcome calls fst snd].
      intros Hr%IH. rewrite Hr, existsb_app.
      cbn in Hseen. rewrite (Hseen x eq_refl).
      by destruct (blocks x), flag.
    + erewrite bind_Throw by exact E. discriminate.
Qed.
End Each.

Lemma checkMultiple_js_Ret configs w r :
  outcome (checkMultiplePackVersions_js host danger configs w) = Ret r →
  ∃ rs, results r = zip (filePath <$> configs) rs
        ∧ length rs = length configs
        ∧ hasFailures r = existsb shouldBlock rs
        ∧ Forall2 (λ config x,
             ∃ w', outcome (checkPackVersion_js host danger config w') = Ret x)
            configs rs
        ∧ hasFailures r =
            existsb isFail (calls (checkMultiplePackVersions_js host danger configs w)).
Proof.
  intros Hr.
  pose proof Hr as (rs & Hres & Hlen & Hflag & Hall)%checkEach_results.
  exists rs. split_and!; try done.
  eapply (checkEach_reported _ _ _ isFail) in Hr; [exact Hr|].
  intros config w' x Hx. by apply checkPackVersion_js_fail.
Qed.

(** X6. When the TypeScript [checkMultiplePackVersions] returns, it has
    one result for each configuration, in their order; provided no
    configuration gives the empty string as its [filePath], each result
    is labelled with the path that was checked; and [hasFailures] is
    set exactly when one of the results is blocked. *)
Theorem multi_results_follow_the_configs configs w r :
  Forall (λ config, filePath config ≠ Some "") configs →
  outcome (checkMultiplePackVersions host danger configs w) = Ret r →
  (results r).*1 = trackedPath <$> configs
  ∧ hasFailures r = existsb (λ entry, shouldBlock (verdict entry.2)) (results r).
Proof.
  intros Hpaths (rs & Hres & Hlen & Hflag & _)%checkEach_results.
  cbn [app orb] in Hres, Hflag. rewrite Hres, Hflag. split.
  - rewrite fst_zip by (rewrite length_fmap; lia).
    apply Forall_fmap_ext_1.
    eapply Forall_impl; [exact Hpaths|]. intros config Hne. cbn beta in *.
    unfold trackedPath. destruct (filePath config) as [p|]; [|done]. cbn.
    unfold JS.or_else, JS.truthy. case_bool_decide; [congruence|done].
  - clear Hres Hflag. revert rs Hlen.
    induction configs as [|config rest IH]; intros [|x rs] Hlen; try done.
    cbn. f_equal. apply IH; [by inversion Hpaths|]. by injection Hlen.
Qed.

(** X7. When the JavaScript [checkMultiplePackVersions] returns, each
    result carries the [filePath] of its configuration as it was given
    ([undefined] when it was left out), and [hasFailures] is set exactly
    when [fail] was called during the checks. *)
Theorem multi_failures_are_the_calls_of_fail configs w r :
  outcome (checkMultiplePackVersions_js host danger configs w) = Ret r →
  (results r).*1 = filePath <$> configs
  ∧ hasFailures r =
      existsb isFail (calls (checkMultiplePackVersions_js host danger configs w)).
Proof.
  intros (rs & -> & Hlen & _ & _ & Hfail)%checkMultiple_js_Ret. split; [|done].
  apply fst_zip. rewrite length_fmap. lia.
Qed.

(** X8. [checkMultiplePackVersions] returns exactly when the allow
    pattern of every configuration is accepted by [RegExp]: one
    rejected pattern makes the whole call throw, and the results of the
    configurations before it are not returned. *)
Theorem multi_returns_iff_every_pattern_is_accepted configs w :
  let accepted config := isRet (allowListed host danger config) in
  isRet (outcome (checkMultiplePackVersions host danger configs w)) =
    forallb accepted configs
  ∧ isRet (outcome (checkMultiplePackVersions_js host danger configs w)) =
    forallb accepted configs.
Proof.
  cbv zeta. split; apply checkEach_returns; intros config w';
    apply checkPackVersionWith_returns.
Qed.

End DangerExtras.


(** ** The decision table as a whole *)

Section VerdictExtras.
Import Danger.
Implicit Types (versions : Versions).

(** X9. [evaluateBlockingConditions] blocks exactly when main and the
    pull request differ and either main has a version, or the pull
    request has one and the file is not newly created.  The merge-base
    version and the deleted flag choose the reason only, never the
    verdict. *)
Theorem blocked_exactly_when versions isCreated isDeleted :
  shouldBlock (evaluateBlockingConditions versions isCreated isDeleted) =
    negb (JS.strict_eq (main versions) (pr versions)) &&
    (JS.truthy_opt (main versions) || JS.truthy_opt (pr versions) && negb isCreated).
Proof.
  unfold evaluateBlockingConditions. cbv zeta.
  destruct (JS.strict_eq (main versions) (pr versions)),
    (JS.truthy_opt (main versions)), (JS.truthy_opt (pr versions)),
    isCreated, isDeleted; reflexivity.
Qed.

(** X10. The reason of a verdict tells whether it blocks: the four
    reasons of a blocked verdict and the three of a verdict that is not
    blocked are different texts. *)
Theorem reason_tells_the_verdict versions isCreated isDeleted :
  let evaluation := evaluateBlockingConditions versions isCreated isDeleted in
  shouldBlock evaluation =
    bool_decide (reason evaluation ∈
      [reason_deleted; reason_no_common_ancestor_value;
       reason_branch_only_edit; reason_divergent_edit])
  ∧ negb (shouldBlock evaluation) =
    bool_decide (reason evaluation ∈
      [reason_match; reason_both_missing; reason_new_file]).
Proof.
  cbv zeta. unfold evaluateBlockingConditions. cbv zeta.
  destruct (JS.strict_eq (main versions) (pr versions)),
    (JS.truthy_opt (main versions)), (JS.truthy_opt (pr versions)),
    isCreated, isDeleted, (JS.truthy_opt (base versions)),
    (JS.strict_eq (base versions) (main versions));
    split; vm_compute; reflexivity.
Qed.

(** X11. The version of the working copy is the text before the first
    line feed, trimmed: nothing after the first line is looked at. *)
Theorem working_copy_version_is_the_first_line first rest :
  oneLine first = true →
  firstLine (first +:+ JS.nl +:+ rest) = JS.trim first.
Proof.
  intros Hfirst. change (JS.nl +:+ rest) with (String "010"%char rest).
  unfold firstLine, JS.split.
  rewrite split_go_first; [done| |by apply bool_decide_eq_true].
  unfold oneLine in Hfirst. clear -Hfirst.
  induction first as [|x first IH]; [done|].
  cbn in *. apply andb_true_iff in Hfirst as [-> Hfirst]. by apply IH.
Qed.

End VerdictExtras.


(** ** The shared configuration *)

Section SharedConfigExtras.
Import Danger SharedConfig.
Context {W : Type} (host : Host W) (danger : DangerDSL).
Implicit Types (options : TemporalPackOptions) (w : W).

Lemma multi_js_empty w :
  checkMultiplePackVersions_js host danger [] w = (Ret nothingChecked, w, []).
Proof. reflexivity. Qed.

(** A check of a file the pull request did not touch does not block. *)
Lemma untouched_check_passes config w x :
  touched danger config = false →
  outcome (checkPackVersion_js host danger config w) = Ret x →
  shouldBlock x = false.
Proof.
  intros Htouched. unfold checkPackVersion_js. rewrite checkPackVersionWith_run.
  rewrite Htouched.
  destruct (allowListed host danger config) as [[|]|e]; [| |done];
    by intros [= <-].
Qed.

(** X12. When [runTemporalPackChecks] returns, it has one result for the
    UI pack unless [checkUI] is [false], one for the Registry pack when
    [checkRegistry] is set, and one for each custom pack, in this order;
    and [hasFailures] is set exactly when [fail] was called. *)
Theorem temporal_checks_cover_the_selected_packs options w r :
  outcome (runTemporalPackChecks host danger options w) = Ret r →
  let uiPack :=
    if bool_decide (checkUI options = Some false) then []
    else [spread defaultConfig_ui (default noOverrides (ui options))] in
  let registryPack :=
    if bool_decide (checkRegistry options = Some true)
    then [spread defaultConfig_registry (default noOverrides (registry options))]
    else [] in
  (results r).*1 =
    filePath <$> (uiPack ++ registryPack ++ default [] (customPacks options))
  ∧ hasFailures r =
      existsb isFail (calls (runTemporalPackChecks host danger options w)).
Proof.
  intros Hr uiPack registryPack.
  assert (collectConfigs options =
          uiPack ++ registryPack ++ default [] (customPacks options)) as Hconfigs.
  { unfold collectConfigs, uiPack, registryPack. cbv zeta.
    destruct (bool_decide (checkUI options = Some false)),
      (bool_decide (checkRegistry options = Some true)),
      (customPacks options); cbn; by rewrite ?app_nil_r. }
  assert (runTemporalPackChecks host danger options w =
          checkMultiplePackVersions_js host danger (collectConfigs options) w) as Hrun.
  { unfold runTemporalPackChecks. cbv zeta. case_bool_decide as Hlen; [done|].
    destruct (collectConfigs options); [done|cbn in Hlen; lia]. }
  rewrite Hrun in *. rewrite <- Hconfigs.
  apply checkMultiple_js_Ret in Hr as (rs & -> & Hlen & _ & _ & Hfail).
  split; [|done]. apply fst_zip. rewrite length_fmap. lia.
Qed.

(** X13. With [checkUI: false], no Registry check requested and no
    custom pack, [runTemporalPackChecks] returns the empty result at
    once: no host call is made and nothing is reported. *)
Theorem temporal_checks_without_a_pack options w :
  checkUI options = Some false →
  checkRegistry options ≠ Some true →
  default [] (customPacks options) = [] →
  runTemporalPackChecks host danger options w = (Ret nothingChecked, w, []).
Proof.
  intros Hui Hregistry Hcustom.
  unfold runTemporalPackChecks, collectConfigs. cbv zeta.
  rewrite Hui. rewrite (bool_decide_eq_false_2 _ Hregistry). cbn.
  by destruct (customPacks options) as [packs|]; cbn in Hcustom; subst.
Qed.

(** X14. [smartPackChecks] looks at the modified and the created files
    only: when none of them is a UI or Registry file, it returns the
    empty result after one [console.log], without reading a version,
    whatever the pull request deleted. *)
Theorem smart_checks_skip_without_pack_files w :
  Forall (λ f, isUIFile f = false ∧ isRegistryFile f = false)
    (modified_files danger ++ created_files danger) →
  smartPackChecks host danger w =
    (Ret nothingChecked, w,
     [ConsoleLog "No pack-related files were modified, skipping pack checks"]).
Proof.
  intros Hnone. unfold smartPackChecks, smartConfigs. cbv zeta.
  assert (existsb isUIFile (modified_files danger ++ created_files danger) = false
          ∧ existsb isRegistryFile (modified_files danger ++ created_files danger)
            = false) as [-> ->]; [|done].
  induction Hnone as [|f l [Hui Hregistry] _ [IH1 IH2]]; [done|].
  cbn. by rewrite Hui, Hregistry, IH1, IH2.
Qed.

(** X15. When the pull request touched neither [.ui-sha] nor
    [.registry-sha], the checks [smartPackChecks] runs because of other
    UI or Registry files never block: every result is not blocked and
    [hasFailures] is [false]. *)
Theorem smart_checks_pass_when_no_pin_file_is_touched w r :
  (∀ f, f ∈ [".ui-sha"; ".registry-sha"] →
        f ∉ modified_files danger ++ created_files danger ++ deleted_files danger) →
  outcome (smartPackChecks host danger w) = Ret r →
  hasFailures r = false ∧ Forall (λ entry, shouldBlock entry.2 = false) (results r).
Proof.
  intros Hpins Hr.
  assert (∀ config, config ∈ smartConfigs danger → touched danger config = false)
    as Huntouched.
  { assert (∀ config, config ∈ [defaultConfig_ui; defaultConfig_registry] →
                      touched danger config = false) as Hboth.
    { intros config Hin. unfold touched, isModified, isCreated, isDeleted, JS.includes.
      assert (trackedPath config ∈ [".ui-sha"; ".registry-sha"]) as Hpin.
      { apply elem_of_cons in Hin as [->|Hin]; [apply list_elem_of_here|].
        apply list_elem_of_singleton in Hin as ->.
        apply list_elem_of_further, list_elem_of_here. }
      specialize (Hpins _ Hpin). rewrite !elem_of_app in Hpins.
      rewrite !bool_decide_eq_false_2 by tauto. done. }
    intros config. unfold smartConfigs. cbv zeta.
    destruct (existsb isUIFile _), (existsb isRegistryFile _); cbn;
      intros Hin; apply Hboth; revert Hin;
      rewrite ?elem_of_app, !elem_of_cons, ?elem_of_nil; tauto. }
  assert (outcome (checkMultiplePackVersions_js host danger (smartConfigs danger) w)
          = Ret r) as Hmulti.
  { revert Hr. unfold smartPackChecks. cbv zeta. case_bool_decide as Hlen; [done|].
    destruct (smartConfigs danger); [|cbn in Hlen; lia].
    by intros [= <-]. }
  apply checkMultiple_js_Ret in Hmulti as (rs & Hres & Hlen & Hflag & Hall & _).
  assert (Forall (λ x, shouldBlock x = false) rs) as Hpass.
  { clear Hres Hlen Hflag. induction Hall as [|config x configs rs [w' Hx] _ IH];
      constructor.
    - eapply untouched_check_passes; [|exact Hx].
      apply Huntouched, list_elem_of_here.
    - apply IH. intros c Hc. by apply Huntouched, list_elem_of_further. }
  split.
  - rewrite Hflag. clear -Hpass. induction Hpass as [|x rs Hx _ IH]; [done|].
    cbn. by rewrite Hx, IH.
  - rewrite Hres. clear -Hpass Hlen. revert rs Hpass Hlen.
    generalize (smartConfigs danger).
    intros configs. induction configs as [|config configs IH];
      intros [|x rs] Hpass Hlen; try done; cbn.
    inversion Hpass; subst. constructor; [done|]. apply IH; [done|].
    by injection Hlen.
Qed.

End SharedConfigExtras.

Section CreatePackConfigExtras.
Import Danger SharedConfig.

(** X16. In a configuration made by [createPackConfig], an option the
    overrides leave out is the one derived from the pack's name and an
    option they give as a string is that string, so none of the
    plugin's own defaults applies; an option they set to [undefined]
    is [undefined] in the configuration, and there the plugin's own
    default applies: the file checked is then [.ui-sha], whatever the
    name of the pack. *)
Theorem createPackConfig_and_the_plugin_defaults name overrides :
  let config := createPackConfig name overrides in
  trackedPath config =
    match setFilePath overrides with
    | None => "." +:+ name +:+ "-sha"
    | Some given => default ".ui-sha" given
    end
  ∧ allowPatternOf config =
    match setAllowPattern overrides with
    | None => "^(update|generate|release)-" +:+ name +:+ "-.*"
    | Some given => default "^(update|generate|auto)-.*" given
    end
  ∧ (is_Some (commentTitle config) ↔ setCommentTitle overrides ≠ Some None)
  ∧ (is_Some (updateCommand config) ↔ setUpdateCommand overrides ≠ Some None)
  ∧ (is_Some (commentBodyTemplate config) ↔
     setCommentBodyTemplate overrides ≠ Some None).
Proof.
  cbv zeta. unfold createPackConfig, spread, trackedPath, allowPatternOf. cbn.
  destruct overrides as [[[?|]|] [[?|]|] [[?|]|] [[?|]|] [[?|]|]]; cbn;
    split_and!; try done;
    (split; [intros [? ?]; congruence|intros ?; by eauto]).
Qed.

End CreatePackConfigExtras.


(** ** The functions of the pipeline *)

Section MoreStringFacts.
Implicit Types (s t : string) (c : ascii) (p : ascii → bool).

Lemma forallb_append p s t : JS.forallb p (s +:+ t) = JS.forallb p s && JS.forallb p t.
Proof.
  induction s as [|c s IH]; [done|].
  rewrite append_cons. cbn [JS.forallb]. by rewrite IH, andb_assoc.
Qed.

Lemma forallb_rev p s : JS.forallb p (String.rev s) = JS.forallb p s.
Proof.
  induction s as [|c s IH]; [done|].
  rewrite rev_cons, forallb_append, IH. cbn [JS.forallb].
  by rewrite andb_true_r, andb_comm.
Qed.

Lemma forallb_impl p (q : ascii → bool) s :
  (∀ c, p c = true → q c = true) → JS.forallb p s = true → JS.forallb q s = true.
Proof.
  intros Hpq. induction s as [|c s IH]; [done|]. cbn [JS.forallb].
  intros [Hc Hs]%andb_true_iff. by rewrite (Hpq c Hc), IH.
Qed.

Lemma truthy_rev s : JS.truthy (String.rev s) = JS.truthy s.
Proof.
  destruct s as [|c s]; [done|]. rewrite rev_cons.
  by destruct (String.rev s).
Qed.

Lemma startsWith_append t s :
  JS.startsWith t s = true → s = t +:+ JS.drop (String.length t) s.
Proof.
  revert s. induction t as [|c t IH]; intros [|x s]; try done.
  cbn [JS.startsWith]. intros [->%bool_decide_eq_true Hs]%andb_true_iff.
  rewrite append_cons. cbn [String.length JS.drop]. f_equal. by apply IH.
Qed.

Lemma span_append p s a b :
  JS.span p s = (a, b) → s = a +:+ b ∧ JS.forallb p a = true.
Proof.
  revert a b. induction s as [|c s IH]; intros a b.
  - by intros [= <- <-].
  - cbn [JS.span]. destruct (p c) eqn:Hc.
    + destruct (JS.span p s) as [a' b'] eqn:E. intros [= <- <-].
      destruct (IH _ _ eq_refl) as [-> Ha]. split; [done|].
      cbn [JS.forallb]. by rewrite Hc, Ha.
    + by intros [= <- <-].
Qed.

(** Cutting a string without a separator, and one with a first
    separator. *)
Lemma split_go_whole sep cur a :
  JS.forallb (λ x, negb (sep x)) a = true →
  JS.split_go sep cur a = [String.rev cur +:+ a].
Proof.
  revert cur. induction a as [|x a IH]; intros cur Ha.
  - cbn. by rewrite append_nil_r.
  - cbn in Ha. apply andb_true_iff in Ha as [Hx Ha].
    apply negb_true_iff in Hx. cbn [JS.split_go]. rewrite Hx.
    rewrite IH by done. by rewrite rev_cons, append_assoc.
Qed.

Lemma split_go_cut sep cur a c b :
  JS.forallb (λ x, negb (sep x)) a = true → sep c = true →
  JS.split_go sep cur (a +:+ String c b) =
    (String.rev cur +:+ a) :: JS.split_go sep "" b.
Proof.
  revert cur. induction a as [|x a IH]; intros cur Ha Hc.
  - change ("" +:+ String c b) with (String c b). cbn [JS.split_go].
    rewrite Hc. by rewrite append_nil_r.
  - rewrite append_cons. cbn [JS.split_go].
    cbn in Ha. apply andb_true_iff in Ha as [Hx Ha].
    apply negb_true_iff in Hx. rewrite Hx.
    rewrite IH by done. by rewrite rev_cons, append_assoc.
Qed.
End MoreStringFacts.

Section PackFunctionExtras.
Import Pack.

(** X17. The cleaned package name has neither [@] nor [/], so the new
    file name built from it names no directory of its own. *)
Theorem cleanName_has_no_separator packageName :
  plainName (cleanName packageName) = true.
Proof.
  unfold cleanName. cbv zeta.
  assert (plainName
            (JS.map (λ c, if bool_decide (c = "@"%char) || bool_decide (c = "/"%char)
                          then "-"%char else c) packageName) = true) as Hmap.
  { induction packageName as [|c s IH]; [done|].
    unfold plainName in *. cbn [JS.map JS.forallb]. rewrite IH, andb_true_r.
    repeat case_bool_decide; subst; done. }
  destruct (JS.map _ packageName) as [|c rest]; [done|].
  unfold plainName in *. cbn [JS.forallb] in Hmap.
  apply andb_true_iff in Hmap as [Hc Hrest].
  destruct (Ascii.eqb_spec c "-") as [->|Hne].
  - exact Hrest.
  - assert (plainName (String c rest) = true) as Hall.
    { unfold plainName. cbn [JS.forallb]. by rewrite Hc, Hrest. }
    destruct c as [[] [] [] [] [] [] [] []]; exact Hall.
Qed.

Lemma digits_rev s : digits (String.rev s) = digits s.
Proof. unfold digits. by rewrite truthy_rev, forallb_rev. Qed.

Lemma digits_no_dot s :
  JS.forallb JS.is_digit s = true →
  JS.forallb (λ x, negb (bool_decide (x = "."%char))) s = true.
Proof.
  apply forallb_impl. intros c Hc. case_bool_decide; [by subst|done].
Qed.

(** X18. The version [matchVersion] finds is three runs of digits with
    a dot between them, and it is the text right before the final
    [.tgz] of the file name. *)
Theorem matchVersion_is_the_version_before_tgz packedFile version :
  matchVersion packedFile = Some version →
  isVersion version = true ∧ ∃ front, packedFile = front +:+ version +:+ ".tgz".
Proof.
  unfold matchVersion. cbv zeta.
  destruct (JS.startsWith "zgt." (String.rev packedFile)) eqn:Htgz; [|done].
  apply startsWith_append in Htgz. cbn [String.length] in Htgz.
  destruct (JS.span JS.is_digit (JS.drop 4 (String.rev packedFile)))
    as [patch r1] eqn:E1.
  apply span_append in E1 as [E1 Hpatch]. rewrite E1 in Htgz. clear E1.
  destruct r1 as [|c1 r2]; [done|].
  destruct (Ascii.eqb_spec c1 ".") as [->|]; [|by destruct c1 as [[] [] [] [] [] [] [] []]].
  destruct (JS.span JS.is_digit r2) as [minor r3] eqn:E2.
  apply span_append in E2 as [-> Hminor].
  destruct r3 as [|c3 r4]; [done|].
  destruct (Ascii.eqb_spec c3 ".") as [->|]; [|by destruct c3 as [[] [] [] [] [] [] [] []]].
  destruct (JS.span JS.is_digit r4) as [major r5] eqn:E3.
  apply span_append in E3 as [-> Hmajor].
  destruct (JS.truthy patch && JS.truthy minor && JS.truthy major) eqn:Htruthy; [|done].
  apply andb_true_iff in Htruthy as [[Tpatch Tminor]%andb_true_iff Tmajor].
  intros [= <-].
  assert (String.rev (patch +:+ "." +:+ minor +:+ "." +:+ major) =
          String.rev major +:+ String "." (String.rev minor +:+ String "." (String.rev patch)))
    as Hversion.
  { rewrite !rev_append. change (String.rev ".") with ".".
    by rewrite !append_assoc. }
  split.
  - rewrite Hversion. unfold isVersion, JS.split.
    rewrite split_go_cut;
      [|by rewrite forallb_rev; apply digits_no_dot|by apply bool_decide_eq_true].
    rewrite split_go_cut;
      [|by rewrite forallb_rev; apply digits_no_dot|by apply bool_decide_eq_true].
    rewrite split_go_whole by (by rewrite forallb_rev; apply digits_no_dot).
    change (String.rev "" +:+ ?x) with x.
    rewrite !digits_rev. unfold digits.
    by rewrite Tpatch, Tminor, Tmajor, Hpatch, Hminor, Hmajor.
  - exists (String.rev r5).
    rewrite <- (rev_involutive packedFile), Htgz.
    trans (String.rev ("zgt." +:+ (patch +:+ "." +:+ minor +:+ "." +:+ major) +:+ r5)).
    + do 2 f_equal. by rewrite !append_assoc.
    + rewrite (rev_append "zgt."), rev_append. by rewrite append_assoc.
Qed.

Lemma matchSha_Some content sha :
  matchSha content = Some sha → is_sha sha = true.
Proof. unfold matchSha. by intros [_ H]%find_some. Qed.

(** X19. The pin file the pipeline writes is read back by the pipeline:
    for a SHA of forty lower-case hexadecimal digits and a package name
    without a line break, [matchSha] finds that SHA in [fileContent],
    the comment line above it notwithstanding. *)
Theorem pin_file_round_trip packageName sha :
  is_sha sha = true →
  singleLine packageName = true →
  matchSha (fileContent packageName sha) = Some sha.
Proof.
  intros Hsha Hname. unfold matchSha, fileContent, JS.lines.
  set (sep := λ x : ascii,
         bool_decide (x = "010"%char) || bool_decide (x = "013"%char)).
  assert (JS.forallb (λ x, negb (sep x)) (JS.or_else packageName "package") = true)
    as Hor.
  { unfold JS.or_else. destruct (JS.truthy packageName); [exact Hname|done]. }
  assert (JS.forallb (λ x, negb (sep x)) sha = true) as Hhex.
  { unfold is_sha in Hsha. apply andb_true_iff in Hsha as [_ Hsha].
    revert Hsha. apply forallb_impl. intros c Hc. unfold sep.
    repeat case_bool_decide; subst; done. }
  rewrite <- append_assoc.
  change (JS.nl +:+ sha +:+ JS.nl) with (String "010"%char (sha +:+ String "010"%char "")).
  rewrite split_go_cut; [| |done].
  2:{ rewrite forallb_append. by rewrite Hor. }
  rewrite split_go_cut by done.
  change (String.rev "" +:+ ?x) with x. cbn [List.find JS.split_go].
  assert (∀ name, is_sha ("# SHA of the last packed version of " +:+ name) = false)
    as ->.
  { intros name. unfold is_sha. rewrite forallb_append.
    change (JS.forallb is_hex "# SHA of the last packed version of ") with false.
    apply andb_false_r. }
  by rewrite Hsha.
Qed.

Lemma get_put props key v key' :
  Json.get (Json.put props key v) key' =
    if bool_decide (key = key') then Some v else Json.get props key'.
Proof.
  induction props as [|[k old] rest IH]; cbn [Json.put Json.get].
  - by case_bool_decide.
  - destruct (bool_decide (k = key)) eqn:Hk; cbn [Json.get].
    + apply bool_decide_eq_true in Hk as ->. by case_bool_decide.
    + rewrite IH. apply bool_decide_eq_false in Hk.
      repeat case_bool_decide; congruence.
Qed.

Lemma keys_put props key v :
  Json.keys (Json.put props key v) =
    Json.keys props ++
    match Json.get props key with Some _ => [] | None => [key] end.
Proof.
  unfold Json.keys.
  induction props as [|[k old] rest IH]; cbn [Json.put Json.get]; [done|].
  case_bool_decide; cbn; [by rewrite app_nil_r|by rewrite IH].
Qed.

Lemma get_assign props key v key' :
  key ≠ "__proto__" →
  Json.get (Json.assign props key v) key' =
    if bool_decide (key = key') then Some v else Json.get props key'.
Proof.
  intros Hkey. unfold Json.assign.
  destruct (Json.get props key); [apply get_put|].
  rewrite bool_decide_eq_false_2 by done. apply get_put.
Qed.

(** What [setDependency] leaves as it was in a manifest that is an
    object. *)
Lemma setDependency_frame props packageName value json :
  Json.setDependency (Json.JObject props) packageName value = Ret json →
  ∃ props', json = Json.JObject props'
    ∧ (∀ key, key ≠ "dependencies" → Json.get props' key = Json.get props key)
    ∧ Json.keys props' =
        Json.keys props ++
        match Json.get props "dependencies" with
        | Some _ => []
        | None => ["dependencies"]
        end.
Proof.
  remember (match Json.get props "dependencies" with
            | Some _ => []
            | None => ["dependencies"]
            end) as tail eqn:Htail.
  assert (∀ v, ∃ props', Json.JObject (Json.put props "dependencies" v) =
                           Json.JObject props'
            ∧ (∀ key, key ≠ "dependencies" → Json.get props' key = Json.get props key)
            ∧ Json.keys props' = Json.keys props ++ tail)
    as Hput.
  { intros v. eexists. split_and!; [done| |subst tail; apply keys_put].
    intros key Hkey. rewrite get_put. by rewrite bool_decide_eq_false_2. }
  unfold Json.setDependency.
  destruct (Json.get props "dependencies") as [d|] eqn:Hd.
  2:{ intros [= <-]. apply Hput. }
  destruct (negb (Json.truthy d)); [intros [= <-]; apply Hput|].
  destruct d as [| | | |items|deps].
  5:{ destruct (Json.assignArray items packageName _); intros [= <-]. apply Hput. }
  5:{ intros [= <-]. apply Hput. }
  all: intros [= <-]; exists props; subst tail; rewrite app_nil_r; done.
Qed.

(** What [setDependency] assigns in a manifest whose [dependencies]
    can take the entry. *)
Lemma setDependency_assigns props packageName value :
  packageName ≠ "__proto__" →
  (∀ d, Json.get props "dependencies" = Some d → Json.truthy d = true →
        ∃ deps, d = Json.JObject deps) →
  ∃ json deps',
    Json.setDependency (Json.JObject props) packageName value = Ret json
    ∧ Json.field json "dependencies" = Some (Json.JObject deps')
    ∧ Json.get deps' packageName = Some (Json.JString value)
    ∧ ∀ key, key ≠ packageName →
        Json.get deps' key =
          (d ← Json.get props "dependencies"; Json.field d key).
Proof.
  intros Hname Hobject. unfold Json.setDependency.
  assert (∀ deps, Json.get (Json.assign deps packageName (Json.JString value)) packageName
                  = Some (Json.JString value)) as Hset.
  { intros deps. rewrite get_assign by done. by rewrite bool_decide_eq_true_2. }
  assert (∀ deps key, key ≠ packageName →
            Json.get (Json.assign deps packageName (Json.JString value)) key
            = Json.get deps key) as Hkeep.
  { intros deps key Hkey. rewrite get_assign by done.
    by rewrite bool_decide_eq_false_2. }
  assert (∀ v, Json.field (Json.JObject (Json.put props "dependencies" v)) "dependencies"
               = Some v) as Hfield.
  { intros v. cbn [Json.field]. rewrite get_put. by rewrite bool_decide_eq_true_2. }
  destruct (Json.get props "dependencies") as [d|] eqn:Hd.
  2:{ eexists _, _. split_and!; [done|apply Hfield|apply Hset|].
      intros key Hkey. by rewrite Hkeep. }
  destruct (Json.truthy d) eqn:Htruthy; cbn [negb].
  - destruct (Hobject d eq_refl Htruthy) as [deps ->].
    eexists _, _. split_and!; [done|apply Hfield|apply Hset|].
    intros key Hkey. by rewrite Hkeep.
  - eexists _, _. split_and!; [done|apply Hfield|apply Hset|].
    intros key Hkey. rewrite Hkeep by done. cbn.
    by destruct d as [|[]|[]|[]| |].
Qed.

(** X20. Setting the dependency in a parsed [package.json] that is an
    object changes no other top-level property and keeps the order of
    the keys; [dependencies] goes last when it was not there. *)
Theorem setDependency_keeps_the_other_fields props packageName value json :
  Json.setDependency (Json.JObject props) packageName value = Ret json →
  ∃ props', json = Json.JObject props'
    ∧ (∀ key, key ≠ "dependencies" → Json.get props' key = Json.get props key)
    ∧ Json.keys props' =
        Json.keys props ++
        match Json.get props "dependencies" with
        | Some _ => []
        | None => ["dependencies"]
        end.
Proof. apply setDependency_frame. Qed.

(** X21. For a package name other than [__proto__] and a manifest whose
    [dependencies] is an object, left out or falsy, [setDependency]
    succeeds; afterwards [dependencies] is an object in which the
    package has the value given, and every other dependency is as it
    was. *)
Theorem setDependency_sets_the_dependency props packageName value :
  packageName ≠ "__proto__" →
  (∀ d, Json.get props "dependencies" = Some d → Json.truthy d = true →
        ∃ deps, d = Json.JObject deps) →
  ∃ json deps',
    Json.setDependency (Json.JObject props) packageName value = Ret json
    ∧ Json.field json "dependencies" = Some (Json.JObject deps')
    ∧ Json.get deps' packageName = Some (Json.JString value)
    ∧ ∀ key, key ≠ packageName →
        Json.get deps' key =
          (d ← Json.get props "dependencies"; Json.field d key).
Proof. apply setDependency_assigns. Qed.

End PackFunctionExtras.

Section PackPhaseExtras.
Import Pack.
Context {W : Type} (host : Host W).
Implicit Types (w : W).

(** X22. [readLastSha] never throws and makes one host call, the read
    of the file asked for, followed at most by a message.  When the
    file cannot be read the result is the empty string.  When it is
    read, the result is the first of its lines that is forty
    lower-case hexadecimal digits, and the empty string when no line
    is. *)
Theorem readLastSha_gives_the_first_sha_line filePath w :
  let x := readLastSha host filePath w in
  let answer := (readFile host filePath w).1 in
  Forall (touchesOnly filePath) (calls x)
  ∧ writeCalls (calls x) = []
  ∧ head (calls x) = Some (ReadFile filePath answer)
  ∧ match answer with
    | Throw _ => outcome x = Ret ""
    | Ret content =>
        (Forall (λ line, is_sha line = false) (JS.lines content) ∧ outcome x = Ret "")
        ∨ ∃ before sha after,
            JS.lines content = before ++ sha :: after
            ∧ Forall (λ line, is_sha line = false) before
            ∧ is_sha sha = true
            ∧ outcome x = Ret sha
    end.
Proof.
  cbv zeta. unfold readLastSha, info.
  unfold try_catch, mbind, M_bind, bind, call, emit, mret, M_ret, ret.
  destruct (readFile host filePath w) as [[content|e] w1]; cbn.
  2:{ split_and!; try done. by repeat constructor. }
  unfold matchSha.
  assert (∀ lines,
            match List.find is_sha lines with
            | Some sha => ∃ before after,
                lines = before ++ sha :: after
                ∧ Forall (λ line, is_sha line = false) before
                ∧ is_sha sha = true
            | None => Forall (λ line, is_sha line = false) lines
            end) as Hfind.
  { induction lines as [|line lines IH]; [by constructor|]. cbn [List.find].
    destruct (is_sha line) eqn:Hline.
    - by exists [], lines.
    - destruct (List.find is_sha lines) as [sha|].
      + destruct IH as (before & after & -> & Hbefore & Hsha).
        exists (line :: before), after. split_and!; [done| |done].
        by constructor.
      + by constructor. }
  specialize (Hfind (JS.lines content)).
  destruct (List.find is_sha (JS.lines content)) as [sha|]; cbn.
  - destruct Hfind as (before & after & Hlines & Hbefore & Hsha).
    split_and!; try done; [by repeat constructor|].
    right. by exists before, sha, after.
  - split_and!; try done; [by repeat constructor|]. by left.
Qed.

(** X23. [generateChangelog] never throws.  Without a previous SHA it
    makes no call and gives the empty string; with one it runs
    [git log] once and gives what git printed, chunk after chunk, also
    when the command fails, in which case a warning is logged. *)
Theorem generateChangelog_never_throws lastSha fullSha w :
  let x := generateChangelog host lastSha fullSha w in
  let args := ["log"; "--oneline"; lastSha +:+ ".." +:+ fullSha] in
  if JS.truthy lastSha then
    ∃ chunks ended,
      exec host "git" args w = ((chunks, ended), world x)
      ∧ outcome x = Ret (foldr String.app "" chunks)
      ∧ existsb (λ c, match c with Warning _ => true | _ => false end) (calls x)
        = negb (isRet ended)
  else x = (Ret "", w, []).
Proof.
  cbv zeta. unfold generateChangelog, info.
  destruct (JS.truthy lastSha); [|done].
  unfold mbind, M_bind, bind, ask, emit, mret, M_ret, ret. cbn.
  destruct (exec host "git" _ w) as [[chunks [[]|e]] w1]; cbn.
  - exists chunks, (Ret ()). by destruct (JS.truthy (foldr String.app "" chunks)).
  - by exists chunks, (Throw e).
Qed.

End PackPhaseExtras.


(** ** The run as a whole *)

Section RunFacts.
Import Pack.
Context {W : Type} (host : Host W) (inputs : Inputs).
Implicit Types (w : W) (l : list Call).

(** [run], phase by phase: the setup, the guarded block, the removal of
    the temporary directory, and the report of an error. *)
Lemma run_unfold w :
  run host inputs w =
    match setup host inputs w with
    | (Throw e, w1, l1) => (Ret (), w1, l1 ++ [SetFailed e])
    | (Ret (repository, token, lastSha, tempDir), w1, l1) =>
        match packAndCommit host inputs repository token tempDir lastSha w1 with
        | (r, w2, l2) =>
            match rm host tempDir w2 with
            | (answer, w3) =>
                match (match answer with Ret _ => r | Throw e => Throw e end) with
                | Ret _ => (Ret (), w3, l1 ++ l2 ++ [Rm tempDir answer])
                | Throw e =>
                    (Ret (), w3, (l1 ++ l2 ++ [Rm tempDir answer]) ++ [SetFailed e])
                end
            end
        end
    end.
Proof.
  unfold run, try_catch, try_finally, call, emit.
  unfold mbind at 1, M_bind at 1, bind at 1.
  destruct (setup host inputs w) as [[[[[[repository token] lastSha] tempDir]|e] w1] l1];
    [|done].
  fold (packAndCommit host inputs repository token tempDir lastSha).
  destruct (packAndCommit host inputs repository token tempDir lastSha w1)
    as [[r w2] l2].
  destruct (rm host tempDir w2) as [[[]|e'] w3]; [destruct r as [[]|e]|]; done.
Qed.

Ltac unfold_run :=
  unfold packAndCommit, setup, commit, buildAndPack, checkout, installAndPack,
    renamePacked, findPackedFile, generateChangelog, readLastSha, required,
    updateVersionFile, updatePackageJson, execute, info, setOutput.

(** Neither the setup nor the guarded block reports a failure or
    removes anything; the guarded block creates no temporary directory. *)
Lemma setup_calm :
  only (λ c, isSetFailed c = false ∧ isRm c = false) (setup host inputs).
Proof. unfold_run. repeat traced_step; by apply only_singleton. Qed.

Lemma packAndCommit_calm repository token tempDir lastSha :
  only (λ c, isSetFailed c = false ∧ isRm c = false ∧ isMkdtemp c = false)
    (packAndCommit host inputs repository token tempDir lastSha).
Proof. unfold_run. repeat traced_step; by apply only_singleton. Qed.

(** The temporary directory the setup returns is the one [mkdtemp]
    answered with, and [mkdtemp] answers once at most. *)
Lemma setup_mkdtemp w prefix dir :
  Mkdtemp prefix (Ret dir) ∈ calls (setup host inputs w) ↔
  ∃ repository token lastSha,
    outcome (setup host inputs w) = Ret (repository, token, lastSha, dir)
    ∧ prefix = path_join host [os_tmpdir host; "pack-"].
Proof.
  unfold setup, required, readLastSha, info, setOutput.
  unfold try_catch, mbind, M_bind, bind, call, emit, throw, mret, M_ret, ret.
  destruct (JS.truthy (repository inputs)); cbn;
    [|split; [by intros ?%elem_of_nil|by intros (?&?&?&?&?)]].
  destruct (JS.truthy (token inputs)); cbn;
    [|split; [by intros ?%elem_of_nil|by intros (?&?&?&?&?)]].
  destruct (readFile host (filePathOf inputs) w) as [[content|e] w1]; cbn;
    [destruct (matchSha content) as [sha|]; cbn|].
  all: destruct (mkdtemp host _ _) as [[tempDir|e'] w2]; cbn.
  all: split;
    [intros Hin;
     repeat (apply elem_of_cons in Hin as [Hin|Hin]; [try discriminate Hin|]);
     first [by apply elem_of_nil in Hin | injection Hin as -> ->; by eauto 10]
    |intros (? & ? & ? & Hout & ->); try discriminate Hout;
     injection Hout as <- <- <- <-;
     repeat first [apply list_elem_of_here | apply list_elem_of_further]].
Qed.

Lemma not_failed l : Forall (λ c, isSetFailed c = false) l → failed l = false.
Proof. induction 1 as [|c l Hc _ IH]; [done|]. cbn. by rewrite Hc. Qed.

(** What the phases of a run leave in the log. *)
Lemma run_phases w :
  let x := run host inputs w in
  (∃ e w1 l1,
     setup host inputs w = (Throw e, w1, l1)
     ∧ x = (Ret (), w1, l1 ++ [SetFailed e])
     ∧ Forall (λ c, isSetFailed c = false ∧ isRm c = false) l1)
  ∨ (∃ repository token lastSha tempDir w1 l1 r w2 l2 answer w3,
       setup host inputs w = (Ret (repository, token, lastSha, tempDir), w1, l1)
       ∧ packAndCommit host inputs repository token tempDir lastSha w1 = (r, w2, l2)
       ∧ rm host tempDir w2 = (answer, w3)
       ∧ Forall (λ c, isSetFailed c = false ∧ isRm c = false) l1
       ∧ Forall (λ c, isSetFailed c = false ∧ isRm c = false ∧ isMkdtemp c = false) l2
       ∧ x = (Ret (), w3,
              (l1 ++ l2 ++ [Rm tempDir answer]) ++
              match answer, r with
              | Throw e, _ | Ret _, Throw e => [SetFailed e]
              | Ret _, Ret _ => []
              end)).
Proof.
  cbv zeta. rewrite run_unfold.
  pose proof (setup_calm w) as Hsetup.
  destruct (setup host inputs w) as [[[[[[repository token] lastSha] tempDir]|e] w1] l1];
    [|left; by eauto 10].
  pose proof (packAndCommit_calm repository token tempDir lastSha w1) as Hbody.
  destruct (packAndCommit host inputs repository token tempDir lastSha w1)
    as [[r w2] l2] eqn:Hpack.
  destruct (rm host tempDir w2) as [[[]|e'] w3] eqn:Hrm.
  - right. exists repository, token, lastSha, tempDir, w1, l1, r, w2, l2, (Ret ()), w3.
    split_and!; try done. destruct r as [[]|e]; by rewrite ?app_nil_r.
  - right. exists repository, token, lastSha, tempDir, w1, l1, r, w2, l2, (Throw e'), w3.
    by split_and!.
Qed.
End RunFacts.


(** *** Why a run fails *)

Section FailureFacts.
Import Pack.
Context {W : Type} (host : Host W) (inputs : Inputs).
Implicit Types (w : W) (l : list Call).

(** **** Reads after a write *)

Lemma readAnswers_app l1 l2 : readAnswers (l1 ++ l2) = readAnswers l1 ++ readAnswers l2.
Proof. apply omap_app. Qed.

Lemma afterFirstWrite_quiet l : writeCalls l = [] → afterFirstWrite l = [].
Proof.
  induction l as [|c l IH]; [done|]. unfold writeCalls in *. cbn.
  destruct (isWriteFile c); [done|exact IH].
Qed.

Lemma afterFirstWrite_app l1 l2 :
  afterFirstWrite (l1 ++ l2) =
    if bool_decide (writeCalls l1 = []) then afterFirstWrite l2
    else afterFirstWrite l1 ++ l2.
Proof.
  induction l1 as [|c l1 IH]; [done|]. unfold writeCalls in *. cbn.
  destruct (isWriteFile c); [done|exact IH].
Qed.

Lemma afterFirstWrite_suffix l : ∃ front, l = front ++ afterFirstWrite l.
Proof.
  induction l as [|c l [front IH]]; [by exists []|]. cbn.
  destruct (isWriteFile c); [by exists [c]|].
  exists (c :: front). cbn. by rewrite <- IH.
Qed.

Lemma readsAfterWrite_quiet l1 l2 :
  writeCalls l1 = [] → readsAfterWrite (l1 ++ l2) = readsAfterWrite l2.
Proof.
  intros Hq. unfold readsAfterWrite. rewrite afterFirstWrite_app.
  by rewrite bool_decide_eq_true_2.
Qed.

Lemma readsAfterWrite_unread l1 l2 :
  readAnswers l2 = [] → readsAfterWrite (l1 ++ l2) = readsAfterWrite l1.
Proof.
  intros Hno. unfold readsAfterWrite. rewrite afterFirstWrite_app.
  case_bool_decide as Hq.
  - rewrite (afterFirstWrite_quiet _ Hq).
    destruct (afterFirstWrite_suffix l2) as [front Hl2].
    rewrite Hl2, readAnswers_app in Hno. by apply app_eq_nil in Hno as [_ ->].
  - by rewrite readAnswers_app, Hno, app_nil_r.
Qed.

Global Instance Exists_monotone (P : Call → Prop) : Monotone (Exists P).
Proof. split; intros l1 l2 H; apply Exists_app; [by left|by right]. Qed.

Global Instance readsAfterWrite_monotone (P : Res string → Prop) :
  Monotone (λ l, Exists P (readsAfterWrite l)).
Proof.
  split; intros l1 l2; unfold readsAfterWrite; rewrite afterFirstWrite_app;
    case_bool_decide as Hq; intros H.
  - rewrite (afterFirstWrite_quiet _ Hq) in H. by apply Exists_nil in H.
  - rewrite readAnswers_app. apply Exists_app. by left.
  - done.
  - rewrite readAnswers_app. apply Exists_app. right.
    destruct (afterFirstWrite_suffix l2) as [front Hl2].
    rewrite Hl2 at 1. rewrite readAnswers_app. apply Exists_app. by right.
Qed.

Global Instance stepFailed_monotone packageName :
  Monotone (stepFailed host packageName).
Proof.
  split; intros l1 l2 [H|[H|H]].
  - left. by apply (monotone_l (Cause := Exists refused)).
  - right; left. by apply (monotone_l (Cause := Exists undone)).
  - right; right.
    by apply (monotone_l (Cause := λ l, Exists _ (readsAfterWrite l))).
  - left. by apply (monotone_r (Cause := Exists refused)).
  - right; left. by apply (monotone_r (Cause := Exists undone)).
  - right; right.
    by apply (monotone_r (Cause := λ l, Exists _ (readsAfterWrite l))).
Qed.

Global Instance cause_monotone : Monotone (cause host inputs).
Proof.
  split; intros l1 l2 [H|[H|H]].
  - by left.
  - by right; left.
  - right; right. by apply monotone_l.
  - by left.
  - by right; left.
  - right; right. by apply monotone_r.
Qed.

Lemma cause_refused c : refused c → cause host inputs [c].
Proof. intros Hc. right; right; left. by constructor. Qed.

Lemma cause_undone c : undone c → cause host inputs [c].
Proof. intros Hc. right; right; right; left. by constructor. Qed.

(** **** A phase that throws has a cause *)

Ltac blame_leaf :=
  first
    [ apply cause_refused; first [exact I | reflexivity]
    | apply cause_undone; exact I
    | by (right; left)
    | left;
      repeat match goal with
             | H : JS.truthy _ = _ |- _ => rewrite H; clear H
             end; first [reflexivity | apply andb_false_r] ].

Lemma execute_blames command args :
  isChangelog command args = false →
  blames (cause host inputs) (execute host command args).
Proof.
  intros Hnot w. unfold execute, mbind, M_bind, bind, ask, throw, mret, M_ret, ret.
  destruct (exec host command args w) as [[chunks [[]|e]] w1]; cbn; [done|].
  intros _. by apply cause_refused.
Qed.

Lemma readLastSha_returns filePath : returns (readLastSha host filePath).
Proof.
  apply returns_try_catch. intros e.
  apply returns_bind; [apply returns_emit|intros; apply returns_ret].
Qed.

Lemma generateChangelog_returns lastSha fullSha :
  returns (generateChangelog host lastSha fullSha).
Proof.
  intros w. unfold generateChangelog, info.
  destruct (JS.truthy lastSha); [|done].
  unfold mbind, M_bind, bind, ask, emit, mret, M_ret, ret. cbn.
  destruct (exec host "git" _ w) as [[chunks [[]|e]] w1]; cbn; [|done].
  by destruct (JS.truthy (foldr String.app "" chunks)).
Qed.

Lemma findPackedFile_blames dest :
  blames (cause host inputs) (findPackedFile host dest).
Proof.
  intros w. unfold findPackedFile, info.
  unfold mbind, M_bind, bind, call, emit, throw, mret, M_ret, ret.
  destruct (readdir host dest w) as [[files|e] w1]; cbn.
  - case_bool_decide as Hlen; cbn; [|done]. intros _.
    apply cause_refused. cbn. by apply length_zero_iff_nil.
  - intros _. by apply cause_refused.
Qed.

Ltac blames_steps :=
  repeat first
    [ apply execute_blames; reflexivity
    | apply blames_returns, readLastSha_returns
    | apply blames_returns, generateChangelog_returns
    | apply findPackedFile_blames
    | blames_step ].

Lemma setup_blames : blames (cause host inputs) (setup host inputs).
Proof.
  unfold setup, required, info, setOutput. blames_steps; blame_leaf.
Qed.

Lemma buildAndPack_blames r ts pn pd pc pk tok td ls :
  blames (cause host inputs) (buildAndPack host inputs r ts pn pd pc pk tok td ls).
Proof.
  unfold buildAndPack, checkout, installAndPack, renamePacked, info, setOutput.
  blames_steps; blame_leaf.
Qed.
End FailureFacts.


(** *** The stages of a run *)

Section StageFacts.
Import Pack.
Context {W : Type} (host : Host W) (inputs : Inputs).
Implicit Types (w : W) (l : list Call).

(** Whether the assignment of the dependency throws does not depend on
    the value assigned. *)
Lemma setDependency_isRet json packageName value value' :
  isRet (Json.setDependency json packageName value) =
  isRet (Json.setDependency json packageName value').
Proof.
  unfold Json.setDependency. destruct json as [| | | | |props]; try done.
  destruct (Json.get props "dependencies") as [d|]; [|done].
  destruct (negb (Json.truthy d)); [done|].
  destruct d as [| | | |items|deps]; try done.
  unfold Json.assignArray. destruct (Json.arrayIndex packageName); [|].
  - by case_bool_decide.
  - by case_bool_decide.
Qed.

(** [run], stage by stage. *)
Lemma run_stages w :
  let x := run host inputs w in
  (∃ e w1 l1,
     setup host inputs w = (Throw e, w1, l1)
     ∧ x = (Ret (), w1, l1 ++ [SetFailed e]))
  ∨ (∃ repository token lastSha tempDir w1 l1 e w2 lb answer w3,
       setup host inputs w = (Ret (repository, token, lastSha, tempDir), w1, l1)
       ∧ buildAndPack host inputs repository (targetShaOf inputs) (package_name inputs)
           (packDestinationOf inputs) (package_command inputs) (pack_command inputs)
           token tempDir lastSha w1 = (Throw e, w2, lb)
       ∧ rm host tempDir w2 = (answer, w3)
       ∧ x = (Ret (), w3,
              l1 ++ lb ++
              [Rm tempDir answer;
               SetFailed (match answer with Throw e' => e' | Ret _ => e end)]))
  ∨ (∃ repository token lastSha tempDir w1 l1 fullSha finalPackage originalDir
       w2 lb rc wc lc answer w3,
       setup host inputs w = (Ret (repository, token, lastSha, tempDir), w1, l1)
       ∧ buildAndPack host inputs repository (targetShaOf inputs) (package_name inputs)
           (packDestinationOf inputs) (package_command inputs) (pack_command inputs)
           token tempDir lastSha w1 = (Ret (fullSha, finalPackage, originalDir), w2, lb)
       ∧ commit host inputs fullSha finalPackage originalDir w2 = (rc, wc, lc)
       ∧ rm host tempDir wc = (answer, w3)
       ∧ x = (Ret (), w3,
              l1 ++ lb ++ lc ++
              Rm tempDir answer ::
              match answer, rc with
              | Throw e, _ | Ret _, Throw e => [SetFailed e]
              | Ret _, Ret _ => []
              end)).
Proof.
  cbv zeta. rewrite run_unfold.
  destruct (setup host inputs w) as [[[[[[repository token] lastSha] tempDir]|e] w1] l1];
    [|left; by eauto 10].
  right. unfold packAndCommit.
  lazymatch goal with
  | |- context [buildAndPack _ _ ?a1 ?a2 ?a3 ?a4 ?a5 ?a6 ?a7 ?a8 ?a9] =>
      destruct (buildAndPack host inputs a1 a2 a3 a4 a5 a6 a7 a8 a9 w1)
        as [[[[[fullSha finalPackage] originalDir]|e] w2] lb] eqn:Hbuild
  end.
  - right. erewrite bind_Ret by exact Hbuild.
    destruct (commit host inputs fullSha finalPackage originalDir w2)
      as [[rc wc] lc] eqn:Hcommit. cbn [outcome world calls fst snd].
    destruct (rm host tempDir wc) as [answer w3] eqn:Hrm.
    exists repository, token, lastSha, tempDir, w1, l1, fullSha, finalPackage,
      originalDir, w2, lb, rc, wc, lc, answer, w3.
    split_and!; try done.
    destruct answer as [[]|e'], rc as [[]|e]; cbn;
      by rewrite <- ?app_assoc; cbn; rewrite ?app_nil_r.
  - left. erewrite bind_Throw by exact Hbuild.
    destruct (rm host tempDir w2) as [answer w3] eqn:Hrm.
    exists repository, token, lastSha, tempDir, w1, l1, e, w2, lb, answer, w3.
    split_and!; try done.
    destruct answer as [[]|e']; cbn; by rewrite <- ?app_assoc.
Qed.

(** What [commit] does, case by case. *)
Lemma commit_shape fullSha finalPackage originalDir w :
  let y := commit host inputs fullSha finalPackage originalDir w in
  let pin := pinWrite inputs fullSha in
  let heading := Info ("Updating " +:+ filePathOf inputs +:+ " with SHA: " +:+ fullSha) in
  let manifest := path_join host [originalDir; "package.json"] in
  (∃ e, calls y = [heading; pin (Throw e)] ∧ outcome y = Throw e)
  ∨ (JS.truthy (package_name inputs) && JS.truthy finalPackage = false
     ∧ calls y = [heading; pin (Ret ()); Info "Pack complete!"]
     ∧ outcome y = Ret ())
  ∨ (JS.truthy (package_name inputs) && JS.truthy finalPackage = true
     ∧ ∃ answer,
         ((rejects host (package_name inputs) answer
             ∧ calls y =
                 [heading; pin (Ret ());
                  Info ("Updating package.json to reference " +:+ finalPackage);
                  ReadFile manifest answer]
             ∧ isRet (outcome y) = false)
            ∨ ∃ text json json' (written : Res ()),
                answer = Ret text
                ∧ JSON_parse host text = Ret json
                ∧ Json.setDependency json (package_name inputs)
                    ("file:" +:+ finalPackage) = Ret json'
                ∧ let content := JSON_stringify host json' +:+ JS.nl in
                  match written with
                  | Ret _ =>
                      calls y =
                        [heading; pin (Ret ());
                         Info ("Updating package.json to reference " +:+ finalPackage);
                         ReadFile manifest answer;
                         WriteFile manifest content (Ret ());
                         Info "Pack complete!"]
                      ∧ outcome y = Ret ()
                  | Throw e =>
                      calls y =
                        [heading; pin (Ret ());
                         Info ("Updating package.json to reference " +:+ finalPackage);
                         ReadFile manifest answer;
                         WriteFile manifest content (Throw e)]
                      ∧ outcome y = Throw e
                  end)).
Proof.
  cbv zeta. unfold commit, updateVersionFile, updatePackageJson, info, pinWrite.
  unfold mbind, M_bind, bind, call, emit, lift, mret, M_ret, ret.
  destruct (writeFile host _ _ w) as [[[]|e] w1]; cbn; [|by eauto].
  right.
  destruct (JS.truthy (package_name inputs) && JS.truthy finalPackage); cbn;
    [right|by left].
  split; [done|].
  destruct (readFile host _ w1) as [[text|e] w2]; cbn;
    [exists (Ret text)|exists (Throw e); by left].
  destruct (JSON_parse host text) as [json|e] eqn:Hparse; cbn;
    [|left; unfold rejects; by rewrite Hparse].
  destruct (Json.setDependency json (package_name inputs) ("file:" +:+ finalPackage))
    as [json'|e] eqn:Hset; cbn.
  - right. exists text, json, json'.
    destruct (writeFile host _ _ w2) as [[[]|e] w3]; cbn.
    + by exists (Ret ()).
    + by exists (Throw e).
  - left. split_and!; [|done..]. unfold rejects. rewrite Hparse.
    rewrite (setDependency_isRet _ _ _ ("file:" +:+ finalPackage)), Hset. done.
Qed.
End StageFacts.


(** *** A run fails exactly when it has a cause *)

Section FailureIff.
Import Pack.
Context {W : Type} (host : Host W) (inputs : Inputs).
Implicit Types (w : W) (l : list Call).

Ltac not_doomed :=
  let H := fresh in
  intros [H|H]; cbn in H; first [exact H | discriminate H].

Lemma execute_guards command args : guards dooms (execute host command args).
Proof.
  intros w. unfold execute, mbind, M_bind, bind, ask, throw, mret, M_ret, ret.
  destruct (exec host command args w) as [[chunks [[]|e]] w1]; cbn; [|done].
  intros [Hbad|Hbad%Exists_nil]%Exists_cons; [|done]. by destruct Hbad.
Qed.

Lemma readLastSha_guards filePath : guards dooms (readLastSha host filePath).
Proof.
  apply guards_only. unfold readLastSha, info.
  repeat traced_step; apply only_singleton; not_doomed.
Qed.

Lemma generateChangelog_guards lastSha fullSha :
  guards dooms (generateChangelog host lastSha fullSha).
Proof.
  apply guards_only. intros w. unfold generateChangelog, info.
  destruct (JS.truthy lastSha); [|by constructor].
  unfold mbind, M_bind, bind, ask, emit, mret, M_ret, ret. cbn.
  destruct (exec host "git" _ w) as [[chunks [[]|e]] w1]; cbn;
    [destruct (JS.truthy (foldr String.app "" chunks)); cbn|];
    repeat constructor; not_doomed.
Qed.

Lemma findPackedFile_dooms dest : guards dooms (findPackedFile host dest).
Proof.
  intros w. unfold findPackedFile, info.
  unfold mbind, M_bind, bind, call, emit, throw, mret, M_ret, ret.
  destruct (readdir host dest w) as [[files|e] w1]; cbn; [|done].
  case_bool_decide as Hlen; cbn; [done|].
  intros [Hbad|Hbad%Exists_cons]%Exists_cons.
  - destruct Hbad as [Hbad|[]]. cbn in Hbad. by rewrite Hbad in Hlen.
  - destruct Hbad as [[[]|[]]|Hbad%Exists_nil]; done.
Qed.

Ltac guards_all :=
  repeat first
    [ apply execute_guards
    | apply readLastSha_guards
    | apply generateChangelog_guards
    | apply findPackedFile_dooms
    | guards_steps ];
  try not_doomed.

Lemma setup_guards : guards dooms (setup host inputs).
Proof. unfold setup, required, info, setOutput. guards_all. Qed.

Lemma buildAndPack_dooms r ts pn pd pc pk tok td ls :
  guards dooms (buildAndPack host inputs r ts pn pd pc pk tok td ls).
Proof.
  unfold buildAndPack, checkout, installAndPack, renamePacked, info, setOutput.
  guards_all.
Qed.

Lemma quiet_not_failed l : Forall quiet l → failed l = false.
Proof. induction 1 as [|c l [_ Hc] _ IH]; [done|]. cbn. by rewrite Hc. Qed.

Lemma setup_missing w :
  JS.truthy (repository inputs) && JS.truthy (token inputs) = false →
  isRet (outcome (setup host inputs w)) = false.
Proof.
  intros Hmissing. unfold setup, required.
  destruct (JS.truthy (repository inputs)); [|done].
  destruct (JS.truthy (token inputs)); done.
Qed.

(** A run that is not marked as failed went through every stage. *)
Lemma run_not_failed w :
  failed (calls (run host inputs w)) = false →
  ∃ repository token lastSha tempDir w1 l1 fullSha finalPackage originalDir
    w2 lb wc lc w3,
    setup host inputs w = (Ret (repository, token, lastSha, tempDir), w1, l1)
    ∧ buildAndPack host inputs repository (targetShaOf inputs) (package_name inputs)
        (packDestinationOf inputs) (package_command inputs) (pack_command inputs)
        token tempDir lastSha w1 = (Ret (fullSha, finalPackage, originalDir), w2, lb)
    ∧ commit host inputs fullSha finalPackage originalDir w2 = (Ret (), wc, lc)
    ∧ rm host tempDir wc = (Ret (), w3)
    ∧ run host inputs w = (Ret (), w3, l1 ++ lb ++ lc ++ [Rm tempDir (Ret ())]).
Proof.
  destruct (run_stages host inputs w) as
    [(e & w1 & l1 & _ & ->)
    |[(repository & token & lastSha & tempDir & w1 & l1 & e & w2 & lb & answer & w3 &
       _ & _ & _ & ->)
     |(repository & token & lastSha & tempDir & w1 & l1 & fullSha & finalPackage &
       originalDir & w2 & lb & rc & wc & lc & answer & w3 &
       Hsetup & Hbuild & Hcommit & Hrm & ->)]];
    cbn [calls snd].
  - by rewrite failed_end.
  - rewrite !failed_app. cbn. by rewrite !orb_true_r.
  - destruct answer as [[]|e'], rc as [[]|e]; rewrite !failed_app; cbn;
      rewrite ?orb_true_r; try done.
    intros _. by eauto 20.
Qed.

(** The log of a [commit] that returned. *)
Lemma commit_Ret_clean fullSha finalPackage originalDir w wc lc :
  commit host inputs fullSha finalPackage originalDir w = (Ret (), wc, lc) →
  Forall (λ c, ¬ dooms c) lc
  ∧ ¬ Exists (rejects host (package_name inputs)) (readsAfterWrite lc).
Proof.
  intros Hc.
  pose proof (commit_shape host inputs fullSha finalPackage originalDir w) as Hshape.
  cbv zeta in Hshape. rewrite Hc in Hshape. cbn [outcome calls fst snd] in Hshape.
  destruct Hshape as
    [(e & _ & [=])
    |[(_ & -> & _)
     |(_ & answer & [(_ & _ & [=])
                    |(text & json & json' & written & -> & Hparse & Hset & Hw)])]].
  - split; [repeat constructor; by intros [[]|[]]|].
    unfold pinWrite. cbn. by intros ?%Exists_nil.
  - cbv zeta in Hw. destruct written as [[]|e]; destruct Hw as [-> Hout];
      [|discriminate Hout].
    split; [repeat constructor; by intros [[]|[]]|].
    unfold pinWrite. cbn.
    intros [Hbad|Hbad%Exists_nil]%Exists_cons; [|done].
    unfold rejects in Hbad. rewrite Hparse in Hbad.
    by rewrite (setDependency_isRet _ _ _ ("file:" +:+ finalPackage)), Hset in Hbad.
Qed.

Lemma commit_blames fullSha finalPackage originalDir :
  blames (cause host inputs) (commit host inputs fullSha finalPackage originalDir).
Proof.
  intros w Hthrown.
  pose proof (commit_shape host inputs fullSha finalPackage originalDir w) as Hshape.
  cbv zeta in Hshape.
  destruct (commit host inputs fullSha finalPackage originalDir w) as [[rc wc] lc].
  cbn [outcome calls fst snd] in *.
  destruct Hshape as
    [(e & -> & _)
    |[(_ & _ & ->)
     |(_ & answer & [(Hrejects & -> & _)
                    |(text & json & json' & written & -> & Hparse & Hset & Hw)])]].
  - right; right; right; left. unfold pinWrite. apply Exists_cons. right.
    by constructor.
  - discriminate Hthrown.
  - right; right; right; right. unfold pinWrite. cbn. by constructor.
  - cbv zeta in Hw. destruct written as [[]|e]; destruct Hw as [-> Hout].
    + by rewrite Hout in Hthrown.
    + right; right; right; left. do 4 apply Exists_cons_tl. by apply Exists_cons_hd.
Qed.

(** The run is marked as failed exactly when a required input is
    missing, the workspace is not known, or a step failed. *)
Lemma run_failed_iff w :
  failed (calls (run host inputs w)) = true ↔ cause host inputs (calls (run host inputs w)).
Proof.
  split.
  - destruct (run_stages host inputs w) as
      [(e & w1 & l1 & Hsetup & ->)
      |[(repository & token & lastSha & tempDir & w1 & l1 & e & w2 & lb & answer & w3 &
         Hsetup & Hbuild & Hrm & ->)
       |(repository & token & lastSha & tempDir & w1 & l1 & fullSha & finalPackage &
         originalDir & w2 & lb & rc & wc & lc & answer & w3 &
         Hsetup & Hbuild & Hcommit & Hrm & ->)]];
      cbn [calls snd]; intros Hfailed.
    + apply monotone_l. pose proof (setup_blames host inputs w) as Hb.
      rewrite Hsetup in Hb. by apply Hb.
    + apply monotone_r, monotone_l.
      lazymatch type of Hbuild with
      | buildAndPack _ _ ?a1 ?a2 ?a3 ?a4 ?a5 ?a6 ?a7 ?a8 ?a9 _ = _ =>
          pose proof (buildAndPack_blames host inputs a1 a2 a3 a4 a5 a6 a7 a8 a9 w1) as Hb
      end.
      rewrite Hbuild in Hb. by apply Hb.
    + destruct answer as [[]|e'].
      * destruct rc as [[]|e].
        -- exfalso. revert Hfailed.
           pose proof (setup_quiet host inputs w) as Q1. rewrite Hsetup in Q1; cbn [calls snd] in Q1.
           lazymatch type of Hbuild with
           | buildAndPack _ _ ?a1 ?a2 ?a3 ?a4 ?a5 ?a6 ?a7 ?a8 ?a9 _ = _ =>
               pose proof (buildAndPack_quiet host inputs a1 a2 a3 a4 a5 a6 a7 a8 a9 w1) as Q2
           end.
           rewrite Hbuild in Q2; cbn [calls snd] in Q2.
           pose proof (commit_writes host inputs fullSha finalPackage originalDir w2)
             as [Q3 _].
           rewrite Hcommit in Q3. cbn [calls snd] in Q1, Q2, Q3.
           rewrite !failed_app, (quiet_not_failed _ Q1), (quiet_not_failed _ Q2), Q3.
           done.
        -- apply monotone_r, monotone_r, monotone_l.
           pose proof (commit_blames fullSha finalPackage originalDir w2) as Hb.
           rewrite Hcommit in Hb. by apply Hb.
      * right; right; right; left.
        rewrite !Exists_app. right; right; right. by constructor.
  - intros Hcause.
    destruct (failed (calls (run host inputs w))) eqn:Hfailed; [done|exfalso].
    apply run_not_failed in Hfailed as
      (repository & token & lastSha & tempDir & w1 & l1 & fullSha & finalPackage &
       originalDir & w2 & lb & wc & lc & w3 & Hsetup & Hbuild & Hcommit & Hrm & Hrun).
    rewrite Hrun in Hcause. cbn [calls snd] in Hcause.
    pose proof (setup_guards w) as G1. rewrite Hsetup in G1.
    pose proof (setup_quiet host inputs w) as Q1. rewrite Hsetup in Q1; cbn [calls snd] in Q1.
    lazymatch type of Hbuild with
    | buildAndPack _ _ ?a1 ?a2 ?a3 ?a4 ?a5 ?a6 ?a7 ?a8 ?a9 _ = _ =>
        pose proof (buildAndPack_dooms a1 a2 a3 a4 a5 a6 a7 a8 a9 w1) as G2;
        pose proof (buildAndPack_quiet host inputs a1 a2 a3 a4 a5 a6 a7 a8 a9 w1) as Q2
    end.
    rewrite Hbuild in G2, Q2. cbn [outcome calls fst snd] in G1, G2, Q1, Q2.
    destruct (commit_Ret_clean _ _ _ _ _ _ Hcommit) as [G3 R3].
    assert (¬ Exists dooms (l1 ++ lb ++ lc ++ [Rm tempDir (Ret ())])) as Hclean.
    { rewrite !Exists_app. intros [H|[H|[H|H]]].
      - by apply G1 in H.
      - by apply G2 in H.
      - apply Exists_exists in H as (c & Hin & Hc).
        by eapply Forall_forall in G3; [|exact Hin].
      - apply Exists_cons in H as [[[]|[]]|H%Exists_nil]; done. }
    destruct Hcause as [Hmissing|[Hnone|[Hrefused|[Hundone|Hrejects]]]].
    + pose proof (setup_missing w Hmissing) as Hthrown. by rewrite Hsetup in Hthrown.
    + apply buildAndPack_Ret in Hbuild as (_ & _ & Hdir & _). congruence.
    + apply Hclean. eapply Exists_impl; [exact Hrefused|]. by left.
    + apply Hclean. eapply Exists_impl; [exact Hundone|]. by right.
    + apply R3.
      rewrite readsAfterWrite_quiet in Hrejects by by apply quiet_writeCalls.
      rewrite readsAfterWrite_quiet in Hrejects by by apply quiet_writeCalls.
      by rewrite readsAfterWrite_unread in Hrejects.
Qed.


(** The log of a [commit] has no call of a step before the writes. *)
Lemma commit_not_refused fullSha finalPackage originalDir w :
  Forall (λ c, ¬ refused c) (calls (commit host inputs fullSha finalPackage originalDir w)).
Proof.
  pose proof (commit_shape host inputs fullSha finalPackage originalDir w) as Hshape.
  cbv zeta in Hshape.
  destruct Hshape as
    [(e & -> & _)
    |[(_ & -> & _)
     |(_ & answer & [(_ & -> & _)
                    |(text & json & json' & written & -> & _ & _ & Hw)])]];
    unfold pinWrite;
    [repeat (apply Forall_cons_2; [by intros ?|]); apply Forall_nil_2..|].
  cbv zeta in Hw. destruct written as [[]|e]; destruct Hw as [-> _];
    repeat (apply Forall_cons_2; [by intros ?|]); apply Forall_nil_2.
Qed.

(** A step before the writes failed: nothing is written and the run is
    marked as failed. *)
Lemma run_refused_writes_nothing w :
  JS.truthy (repository inputs) && JS.truthy (token inputs) = false
  ∨ GITHUB_WORKSPACE inputs = None
  ∨ Exists refused (calls (run host inputs w)) →
  writeCalls (calls (run host inputs w)) = []
  ∧ failed (calls (run host inputs w)) = true.
Proof.
  intros Hcause. split.
  2:{ apply run_failed_iff. unfold cause, stepFailed. tauto. }
  destruct (run_stages host inputs w) as
    [(e & w1 & l1 & Hsetup & Hrun)
    |[(repository & token & lastSha & tempDir & w1 & l1 & e & w2 & lb & answer & w3 &
       Hsetup & Hbuild & Hrm & Hrun)
     |(repository & token & lastSha & tempDir & w1 & l1 & fullSha & finalPackage &
       originalDir & w2 & lb & rc & wc & lc & answer & w3 &
       Hsetup & Hbuild & Hcommit & Hrm & Hrun)]];
    rewrite Hrun in *; cbn [calls snd] in *.
  - pose proof (setup_quiet host inputs w) as Q1. rewrite Hsetup in Q1; cbn [calls snd] in Q1.
    rewrite writeCalls_app, (quiet_writeCalls _ Q1). done.
  - pose proof (setup_quiet host inputs w) as Q1. rewrite Hsetup in Q1; cbn [calls snd] in Q1.
    lazymatch type of Hbuild with
    | buildAndPack _ _ ?a1 ?a2 ?a3 ?a4 ?a5 ?a6 ?a7 ?a8 ?a9 _ = _ =>
        pose proof (buildAndPack_quiet host inputs a1 a2 a3 a4 a5 a6 a7 a8 a9 w1) as Q2
    end.
    rewrite Hbuild in Q2; cbn [calls snd] in Q2.
    rewrite !writeCalls_app, (quiet_writeCalls _ Q1), (quiet_writeCalls _ Q2). done.
  - exfalso.
    pose proof (setup_guards w) as G1. rewrite Hsetup in G1.
    lazymatch type of Hbuild with
    | buildAndPack _ _ ?a1 ?a2 ?a3 ?a4 ?a5 ?a6 ?a7 ?a8 ?a9 _ = _ =>
        pose proof (buildAndPack_dooms a1 a2 a3 a4 a5 a6 a7 a8 a9 w1) as G2
    end.
    rewrite Hbuild in G2. cbn [outcome calls fst snd] in G1, G2.
    pose proof (commit_not_refused fullSha finalPackage originalDir w2) as G3.
    rewrite Hcommit in G3. cbn [calls snd] in G3.
    destruct Hcause as [Hmissing|[Hnone|Hrefused]].
    + pose proof (setup_missing w Hmissing) as Hthrown. by rewrite Hsetup in Hthrown.
    + apply buildAndPack_Ret in Hbuild as (_ & _ & Hdir & _). congruence.
    + rewrite !Exists_app in Hrefused. destruct Hrefused as [H|[H|[H|H]]].
      * assert (Exists dooms l1) as H' by (eapply Exists_impl; [exact H|by left]).
        by apply G1 in H'.
      * assert (Exists dooms lb) as H' by (eapply Exists_impl; [exact H|by left]).
        by apply G2 in H'.
      * apply Exists_exists in H as (c & Hin & Hc).
        by eapply Forall_forall in G3; [|exact Hin].
      * apply Exists_cons in H as [[]|H].
        destruct answer as [[]|e'], rc as [[]|e]; cbn in H;
          repeat (apply Exists_cons in H as [[]|H]); by apply Exists_nil in H.
Qed.

(** The manifest step failed: the pin file has been written, nothing
    else has, and the run is marked as failed. *)
Lemma run_manifest_step_fails w :
  Exists (rejects host (package_name inputs))
    (readsAfterWrite (calls (run host inputs w))) →
  failed (calls (run host inputs w)) = true
  ∧ ∃ sha, writeCalls (calls (run host inputs w)) = [pinWrite inputs sha (Ret ())].
Proof.
  intros Hrejects. split.
  { apply run_failed_iff. unfold cause, stepFailed. tauto. }
  destruct (run_stages host inputs w) as
    [(e & w1 & l1 & Hsetup & Hrun)
    |[(repository & token & lastSha & tempDir & w1 & l1 & e & w2 & lb & answer & w3 &
       Hsetup & Hbuild & Hrm & Hrun)
     |(repository & token & lastSha & tempDir & w1 & l1 & fullSha & finalPackage &
       originalDir & w2 & lb & rc & wc & lc & answer & w3 &
       Hsetup & Hbuild & Hcommit & Hrm & Hrun)]];
    rewrite Hrun in *; cbn [calls snd] in *;
    pose proof (setup_quiet host inputs w) as Q1; rewrite Hsetup in Q1;
    cbn [calls snd] in Q1.
  - rewrite readsAfterWrite_quiet in Hrejects by by apply quiet_writeCalls.
    by apply Exists_nil in Hrejects.
  - lazymatch type of Hbuild with
    | buildAndPack _ _ ?a1 ?a2 ?a3 ?a4 ?a5 ?a6 ?a7 ?a8 ?a9 _ = _ =>
        pose proof (buildAndPack_quiet host inputs a1 a2 a3 a4 a5 a6 a7 a8 a9 w1) as Q2
    end.
    rewrite Hbuild in Q2; cbn [calls snd] in Q2. cbn [calls snd] in Q2.
    rewrite readsAfterWrite_quiet in Hrejects by by apply quiet_writeCalls.
    rewrite readsAfterWrite_quiet in Hrejects by by apply quiet_writeCalls.
    by apply Exists_nil in Hrejects.
  - lazymatch type of Hbuild with
    | buildAndPack _ _ ?a1 ?a2 ?a3 ?a4 ?a5 ?a6 ?a7 ?a8 ?a9 _ = _ =>
        pose proof (buildAndPack_quiet host inputs a1 a2 a3 a4 a5 a6 a7 a8 a9 w1) as Q2
    end.
    rewrite Hbuild in Q2; cbn [calls snd] in Q2. cbn [calls snd] in Q2.
    rewrite readsAfterWrite_quiet in Hrejects by by apply quiet_writeCalls.
    rewrite readsAfterWrite_quiet in Hrejects by by apply quiet_writeCalls.
    assert (writeCalls (Rm tempDir answer ::
              match answer, rc with
              | Throw e, _ | Ret _, Throw e => [SetFailed e]
              | Ret _, Ret _ => []
              end) = []) as Htail.
    { by destruct answer as [[]|?], rc as [[]|?]. }
    assert (readsAfterWrite (lc ++ Rm tempDir answer ::
              match answer, rc with
              | Throw e, _ | Ret _, Throw e => [SetFailed e]
              | Ret _, Ret _ => []
              end) = readsAfterWrite lc) as Hreads.
    { destruct answer as [[]|?], rc as [[]|?]; by apply readsAfterWrite_unread. }
    rewrite Hreads in Hrejects.
    rewrite !writeCalls_app, (quiet_writeCalls _ Q1), (quiet_writeCalls _ Q2), Htail,
      app_nil_r.
    cbn [app].
    pose proof (commit_shape host inputs fullSha finalPackage originalDir w2) as Hshape.
    cbv zeta in Hshape. rewrite Hcommit in Hshape. cbn [outcome calls fst snd] in Hshape.
    destruct Hshape as
      [(e & -> & _)
      |[(_ & -> & _)
       |(_ & read & [(_ & -> & _)
                    |(text & json & json' & written & -> & Hparse & Hset & Hw)])]].
    + unfold pinWrite in Hrejects. cbn in Hrejects. by apply Exists_nil in Hrejects.
    + unfold pinWrite in Hrejects. cbn in Hrejects. by apply Exists_nil in Hrejects.
    + by exists fullSha.
    + exfalso. cbv zeta in Hw.
      assert (readsAfterWrite lc = [Ret text]) as Hlc.
      { destruct written as [[]|e]; destruct Hw as [-> _]; by unfold pinWrite. }
      rewrite Hlc in Hrejects.
      apply Exists_cons in Hrejects as [Hbad|Hbad%Exists_nil]; [|done].
      unfold rejects in Hbad. rewrite Hparse in Hbad.
      by rewrite (setDependency_isRet _ _ _ ("file:" +:+ finalPackage)), Hset in Hbad.
Qed.

End FailureIff.


(** *** The choice of the packed file *)

Section SelectionFacts.
Import Pack.
Context {W : Type} (host : Host W) (inputs : Inputs).
Implicit Types (w : W) (l : list Call).













End SelectionFacts.


(** *** A run that is not marked as failed *)

Section SuccessFacts.
Import Pack.
Context {W : Type} (host : Host W) (inputs : Inputs).
Implicit Types (w : W) (l : list Call).

(** What such a run has reported and written. *)
Lemma run_success w :
  let x := run host inputs w in
  failed (calls x) = false →
  ∃ fullSha finalPackage originalDir,
    GITHUB_WORKSPACE inputs = Some originalDir
    ∧ SetOutput "full-sha" fullSha ∈ calls x
    ∧ SetOutput "package-file" finalPackage ∈ calls x
    ∧ pinWrite inputs fullSha (Ret ()) ∈ calls x
    ∧ (package_name inputs = "" →
       ∃ dir files packedFile,
         Readdir dir (Ret files) ∈ calls x
         ∧ last (tgzFiles files) = Some packedFile
         ∧ finalPackage = path_join host [packDestinationOf inputs; packedFile])
    ∧ (JS.truthy (package_name inputs) && JS.truthy finalPackage = false →
       writeCalls (calls x) = [pinWrite inputs fullSha (Ret ())])
    ∧ (JS.truthy (package_name inputs) && JS.truthy finalPackage = true →
       ∃ text json json',
         ReadFile (path_join host [originalDir; "package.json"]) (Ret text) ∈ calls x
         ∧ JSON_parse host text = Ret json
         ∧ Json.setDependency json (package_name inputs) ("file:" +:+ finalPackage)
             = Ret json'
         ∧ manifestWrite host originalDir (JSON_stringify host json' +:+ JS.nl) (Ret ())
             ∈ calls x
         ∧ writeCalls (calls x) =
             [pinWrite inputs fullSha (Ret ());
              manifestWrite host originalDir (JSON_stringify host json' +:+ JS.nl)
                (Ret ())]).
Proof.
  cbv zeta. intros Hok.
  apply run_not_failed in Hok as
    (repository & token & lastSha & tempDir & w1 & l1 & fullSha & finalPackage &
     originalDir & w2 & lb & wc & lc & w3 & Hsetup & Hbuild & Hcommit & Hrm & ->).
  cbn [calls snd].
  pose proof (setup_quiet host inputs w) as Q1. rewrite Hsetup in Q1.
  lazymatch type of Hbuild with
  | buildAndPack _ _ ?a1 ?a2 ?a3 ?a4 ?a5 ?a6 ?a7 ?a8 ?a9 _ = _ =>
      pose proof (buildAndPack_quiet host inputs a1 a2 a3 a4 a5 a6 a7 a8 a9 w1) as Q2
  end.
  rewrite Hbuild in Q2. cbn [calls snd] in Q1, Q2.
  apply buildAndPack_Ret in Hbuild as (Hfull & Hpackage & Hdir & Hlisted).
  pose proof (commit_shape host inputs fullSha finalPackage originalDir w2) as Hshape.
  cbv zeta in Hshape. rewrite Hcommit in Hshape. cbn [outcome calls fst snd] in Hshape.
  exists fullSha, finalPackage, originalDir.
  rewrite !writeCalls_app, (quiet_writeCalls _ Q1), (quiet_writeCalls _ Q2).
  cbn [app writeCalls List.filter isWriteFile]. rewrite app_nil_r.
  split_and!; [done|in_log|in_log|..].
  - destruct Hshape as
      [(e & _ & [=])
      |[(_ & -> & _)
       |(_ & answer & [(_ & _ & [=])
                      |(text & json & json' & written & -> & _ & _ & Hw)])]];
      [in_log|].
    cbv zeta in Hw. destruct written as [[]|e]; destruct Hw as [-> Hout];
      [in_log|discriminate Hout].
  - intros Hno. destruct (Hlisted Hno) as (dir & files & packedFile & ? & ? & ?).
    exists dir, files, packedFile. split_and!; [in_log|done|done].
  - intros Hnone.
    destruct Hshape as
      [(e & _ & [=])
      |[(_ & -> & _)
       |(Hsome & _)]]; [done|congruence].
  - intros Hsome.
    destruct Hshape as
      [(e & _ & [=])
      |[(Hnone & _)
       |(_ & answer & [(_ & _ & [=])
                      |(text & json & json' & written & -> & Hparse & Hset & Hw)])]];
      [congruence|].
    cbv zeta in Hw. destruct written as [[]|e]; destruct Hw as [-> Hout];
      [|discriminate Hout].
    exists text, json, json'. unfold manifestWrite.
    split_and!; [in_log|done|done|in_log|done].
Qed.

(** Without a package name nothing is read after the write. *)
Lemma run_without_name_reads w :
  package_name inputs = "" →
  readsAfterWrite (calls (run host inputs w)) = [].
Proof.
  intros Hno.
  destruct (run_stages host inputs w) as
    [(e & w1 & l1 & Hsetup & ->)
    |[(repository & token & lastSha & tempDir & w1 & l1 & e & w2 & lb & answer & w3 &
       Hsetup & Hbuild & _ & ->)
     |(repository & token & lastSha & tempDir & w1 & l1 & fullSha & finalPackage &
       originalDir & w2 & lb & rc & wc & lc & answer & w3 &
       Hsetup & Hbuild & Hcommit & _ & ->)]];
    cbn [calls snd];
    pose proof (setup_quiet host inputs w) as Q1; rewrite Hsetup in Q1;
    cbn [calls snd] in Q1;
    rewrite readsAfterWrite_quiet by by apply quiet_writeCalls.
  - done.
  - lazymatch type of Hbuild with
    | buildAndPack _ _ ?a1 ?a2 ?a3 ?a4 ?a5 ?a6 ?a7 ?a8 ?a9 _ = _ =>
        pose proof (buildAndPack_quiet host inputs a1 a2 a3 a4 a5 a6 a7 a8 a9 w1) as Q2
    end.
    rewrite Hbuild in Q2; cbn [calls snd] in Q2.
    by rewrite readsAfterWrite_quiet by by apply quiet_writeCalls.
  - lazymatch type of Hbuild with
    | buildAndPack _ _ ?a1 ?a2 ?a3 ?a4 ?a5 ?a6 ?a7 ?a8 ?a9 _ = _ =>
        pose proof (buildAndPack_quiet host inputs a1 a2 a3 a4 a5 a6 a7 a8 a9 w1) as Q2
    end.
    rewrite Hbuild in Q2; cbn [calls snd] in Q2.
    rewrite readsAfterWrite_quiet by by apply quiet_writeCalls.
    rewrite readsAfterWrite_unread by by destruct answer as [[]|?], rc as [[]|?].
    pose proof (commit_shape host inputs fullSha finalPackage originalDir w2) as Hshape.
    cbv zeta in Hshape. rewrite Hcommit in Hshape.
    cbn [outcome calls fst snd] in Hshape. rewrite Hno in Hshape.
    destruct Hshape as [(e & -> & _)|[(_ & -> & _)|([=] & _)]]; by unfold pinWrite.
Qed.

End SuccessFacts.


(** *** Failure, cleanup, inputs and outputs *)

Section RunExtras.
Import Pack.
Context {W : Type} (host : Host W) (inputs : Inputs).
Implicit Types (w : W) (l : list Call).


(** X24. [run] never throws, and an error of any step is reported: the
    run calls [setFailed] exactly when a required input is missing, the
    workspace is not known, a host call or a command other than the
    change log fails, the listing has no [.tgz] entry, a write or the
    removal of the temporary directory is refused, or [package.json]
    cannot be read, parsed or updated.  [setFailed] is called at most
    once, and that call is the last thing the run does. *)
Theorem run_reports_a_failure_once_and_last w :
  let x := run host inputs w in
  outcome x = Ret ()
  ∧ (failed (calls x) = true ↔ cause host inputs (calls x))
  ∧ (failed (calls x) = false
     ∨ ∃ l e, calls x = l ++ [SetFailed e] ∧ failed l = false).
Proof.
  cbv zeta.
  enough (outcome (run host inputs w) = Ret ()
          ∧ (failed (calls (run host inputs w)) = false
             ∨ ∃ l e, calls (run host inputs w) = l ++ [SetFailed e]
                      ∧ failed l = false)) as [Hret Hlast].
  { split_and!; [done|apply run_failed_iff|done]. }
  destruct (run_phases host inputs w) as
    [(e & w1 & l1 & _ & -> & H1)
    |(? & ? & ? & tempDir & ? & l1 & r & ? & l2 & answer & ? & _ & _ & _ & H1 & H2 & ->)].
  - split; [done|]. right. exists l1, e. split; [done|].
    apply not_failed. eapply Forall_impl; [exact H1|]. by intros c [? ?].
  - split; [done|]. cbn [calls snd].
    assert (failed (l1 ++ l2 ++ [Rm tempDir answer]) = false) as Hquiet.
    { apply not_failed. rewrite !Forall_app. split_and!.
      - eapply Forall_impl; [exact H1|]. by intros c [? ?].
      - eapply Forall_impl; [exact H2|]. by intros c (? & ? & ?).
      - by repeat constructor. }
    destruct answer as [[]|e'], r as [[]|e].
    1: left; by rewrite app_nil_r.
    all: right; by eauto.
Qed.

(** X25. The run removes exactly the directory it made: it calls [rm]
    on a directory if and only if [mkdtemp] answered with that
    directory, whatever fails in between. *)
Theorem run_removes_the_directory_it_made w dir :
  (∃ answer, Rm dir answer ∈ calls (run host inputs w)) ↔
  (∃ prefix, Mkdtemp prefix (Ret dir) ∈ calls (run host inputs w)).
Proof.
  destruct (run_phases host inputs w) as
    [(e & w1 & l1 & Hsetup & -> & H1)
    |(? & ? & ? & tempDir & ? & l1 & r & ? & l2 & answer & ? &
      Hsetup & _ & _ & H1 & H2 & ->)];
    cbn [calls snd].
  - split.
    + intros [answer [Hin|Hin]%elem_of_app].
      * eapply Forall_forall in H1 as [_ Hrm]; [|exact Hin]. discriminate Hrm.
      * apply list_elem_of_singleton in Hin. discriminate Hin.
    + intros [prefix [Hin|Hin]%elem_of_app].
      * pose proof (proj1 (setup_mkdtemp host inputs w prefix dir)) as Hmk.
        rewrite Hsetup in Hmk. destruct (Hmk Hin) as (? & ? & ? & Hout & _).
        discriminate Hout.
      * apply list_elem_of_singleton in Hin. discriminate Hin.
  - assert (∃ prefix, Mkdtemp prefix (Ret tempDir) ∈ l1) as [prefix0 Hmade].
    { exists (path_join host [os_tmpdir host; "pack-"]).
      pose proof (proj2 (setup_mkdtemp host inputs w (path_join host [os_tmpdir host; "pack-"])
                           tempDir)) as Hmk.
      rewrite Hsetup in Hmk. apply Hmk. by eauto 10. }
    split.
    + intros [answer' Hin]. rewrite !elem_of_app in Hin.
      destruct Hin as [[Hin|[Hin|Hin]]|Hin].
      * eapply Forall_forall in H1 as [_ Hrm]; [|exact Hin]. discriminate Hrm.
      * eapply Forall_forall in H2 as (_ & Hrm & _); [|exact Hin]. discriminate Hrm.
      * apply list_elem_of_singleton in Hin. injection Hin as -> _.
        exists prefix0. rewrite !elem_of_app. by eauto.
      * destruct answer as [[]|?], r as [[]|?];
          first [by apply elem_of_nil in Hin
                |apply list_elem_of_singleton in Hin; discriminate Hin].
    + intros [prefix Hin]. rewrite !elem_of_app in Hin.
      destruct Hin as [[Hin|[Hin|Hin]]|Hin].
      * pose proof (proj1 (setup_mkdtemp host inputs w prefix dir)) as Hmk.
        rewrite Hsetup in Hmk. destruct (Hmk Hin) as (? & ? & ? & Hout & _).
        injection Hout as _ _ _ ->.
        exists answer. rewrite !elem_of_app, list_elem_of_singleton. by eauto.
      * eapply Forall_forall in H2 as (_ & _ & Hmk); [|exact Hin]. discriminate Hmk.
      * apply list_elem_of_singleton in Hin. discriminate Hin.
      * destruct answer as [[]|?], r as [[]|?];
          first [by apply elem_of_nil in Hin
                |apply list_elem_of_singleton in Hin; discriminate Hin].
Qed.

(** X26. When the removal of the temporary directory fails, the run is
    marked as failed with the error of [rm], also when everything
    before it, both writes included, succeeded. *)
Theorem a_failed_cleanup_fails_the_run w dir e :
  Rm dir (Throw e) ∈ calls (run host inputs w) →
  last (calls (run host inputs w)) = Some (SetFailed e).
Proof.
  destruct (run_phases host inputs w) as
    [(e' & w1 & l1 & _ & -> & H1)
    |(? & ? & ? & tempDir & ? & l1 & r & ? & l2 & answer & ? & _ & _ & _ & H1 & H2 & ->)];
    cbn [calls snd].
  - intros [Hin|Hin]%elem_of_app.
    + eapply Forall_forall in H1 as [_ Hrm]; [|exact Hin]. discriminate Hrm.
    + apply list_elem_of_singleton in Hin. discriminate Hin.
  - intros Hin. rewrite !elem_of_app in Hin.
    destruct Hin as [[Hin|[Hin|Hin]]|Hin].
    + eapply Forall_forall in H1 as [_ Hrm]; [|exact Hin]. discriminate Hrm.
    + eapply Forall_forall in H2 as (_ & Hrm & _); [|exact Hin]. discriminate Hrm.
    + apply list_elem_of_singleton in Hin. injection Hin as _ <-.
      apply last_snoc.
    + destruct answer as [[]|?], r as [[]|?];
        first [by apply elem_of_nil in Hin
              |apply list_elem_of_singleton in Hin; discriminate Hin].
Qed.

(** X27. When the environment holds the empty string for one of the
    two required inputs (the toolkit tests the value before it trims
    it, so an input of white space is not missing), the run does
    nothing but report it: the only host call is [setFailed], naming
    [repository] when that is missing and else [token]. *)
Theorem run_without_a_required_input w :
  JS.truthy (repository inputs) && JS.truthy (token inputs) = false →
  run host inputs w =
    (Ret (), w,
     [SetFailed ("Input required and not supplied: " +:+
                 if JS.truthy (repository inputs) then "token" else "repository")]).
Proof.
  intros Hmissing. unfold run, setup, required.
  destruct (JS.truthy (repository inputs)); [|done].
  destruct (JS.truthy (token inputs)); [done|]. done.
Qed.

(** X28. Without [GITHUB_WORKSPACE] the run is marked as failed and
    writes no file: the destination path cannot be built, so nothing is
    packed and neither the pin file nor [package.json] is touched. *)
Theorem run_needs_the_workspace w :
  GITHUB_WORKSPACE inputs = None →
  failed (calls (run host inputs w)) = true
  ∧ writeCalls (calls (run host inputs w)) = [].
Proof.
  intros Hnone. rewrite run_unfold.
  pose proof (setup_quiet host inputs w) as Q1.
  destruct (setup host inputs w) as [[[[[[repository token] lastSha] tempDir]|e] w1] l1];
    cbn in Q1; apply quiet_writeCalls in Q1.
  2:{ cbn [calls snd]. by rewrite failed_end, writeCalls_app, Q1. }
  unfold packAndCommit.
  lazymatch goal with
  | |- context [buildAndPack _ _ ?a1 ?a2 ?a3 ?a4 ?a5 ?a6 ?a7 ?a8 ?a9] =>
      pose proof (buildAndPack_quiet host inputs a1 a2 a3 a4 a5 a6 a7 a8 a9 w1) as Q2;
      pose proof (buildAndPack_Ret host inputs a1 a2 a3 a4 a5 a6 a7 a8 a9 w1) as R2;
      destruct (buildAndPack host inputs a1 a2 a3 a4 a5 a6 a7 a8 a9 w1)
        as [[[[[fullSha finalPackage] originalDir]|e] w2] l2] eqn:E
  end.
  { destruct (R2 _ _ _ _ _ eq_refl) as (_ & _ & Hdir & _). congruence. }
  clear R2. cbn in Q2. apply quiet_writeCalls in Q2.
  erewrite bind_Throw by exact E.
  destruct (rm host tempDir w2) as [[[]|e'] w3]; cbn [calls snd];
    by rewrite failed_end, !writeCalls_app, Q1, Q2.
Qed.

(** *** The GitHub API *)

Lemma checkout_with_target repository targetSha token tempDir :
  JS.truthy targetSha = true →
  only (λ c, isReposGet c = false) (checkout host repository targetSha token tempDir).
Proof.
  intros Htarget. unfold checkout, execute, info, setOutput. rewrite Htarget.
  cbn [negb]. repeat traced_step; by apply only_singleton.
Qed.

(** X29. A run that is given a target SHA never asks the GitHub API:
    the default branch is looked up only when the target is left out. *)
Theorem run_with_a_target_does_not_ask_the_api w :
  JS.truthy (target_sha inputs) = true →
  Forall (λ c, isReposGet c = false) (calls (run host inputs w)).
Proof.
  intros Htarget.
  assert (JS.truthy (targetShaOf inputs) = true) as Hof.
  { unfold targetShaOf, JS.or_else. by rewrite Htarget. }
  revert w. change (only (λ c, isReposGet c = false) (run host inputs)).
  unfold run, setup, commit, buildAndPack, installAndPack, renamePacked,
    findPackedFile, generateChangelog, readLastSha, required,
    updateVersionFile, updatePackageJson, execute, info, setOutput.
  repeat first [apply (checkout_with_target _ _ _ _ Hof) | traced_step];
    by apply only_singleton.
Qed.

(** *** The outputs *)

Lemma outputNames_app l1 l2 : outputNames (l1 ++ l2) = outputNames l1 ++ outputNames l2.
Proof. unfold outputNames, outputs. by rewrite omap_app, fmap_app. Qed.

Lemma outputNames_silent l : Forall (λ c, isSetOutput c = false) l → outputNames l = [].
Proof.
  induction 1 as [|c l Hc _ IH]; [done|].
  unfold outputNames, outputs in *. by destruct c.
Qed.

Lemma setsOutputs_silent {A} (m : M W Call A) :
  only (λ c, isSetOutput c = false) m → setsOutputs [] m.
Proof.
  intros Hm w. rewrite (outputNames_silent _ (Hm w)).
  by destruct (outcome (m w)).
Qed.

Lemma setsOutputs_setOutput name value :
  setsOutputs [name] (setOutput name value : M W Call ()).
Proof. by intros w. Qed.

Lemma setsOutputs_bind {A B} names1 names2 (m : M W Call A) (k : A → M W Call B) :
  setsOutputs names1 m → (∀ a, setsOutputs names2 (k a)) →
  setsOutputs (names1 ++ names2) (m ≫= k).
Proof.
  intros Hm Hk w. specialize (Hm w).
  destruct (m w) as [[[a|e] w1] l1] eqn:E; cbn [outcome calls fst snd] in Hm.
  - rewrite (bind_Ret _ _ _ _ _ _ E). cbn [outcome calls fst snd].
    rewrite outputNames_app, Hm. specialize (Hk a w1).
    destruct (outcome (k a w1)); [by rewrite Hk|].
    by apply prefix_app.
  - rewrite (bind_Throw _ _ _ _ _ _ E). cbn [outcome calls fst snd].
    by apply prefix_app_r.
Qed.

Ltac silent :=
  apply setsOutputs_silent;
  unfold commit, installAndPack, renamePacked, findPackedFile, generateChangelog,
    readLastSha, required, updateVersionFile, updatePackageJson, execute, info;
  repeat traced_step; by apply only_singleton.

Ltac outputs_step :=
  lazymatch goal with
  | |- setsOutputs _ (setOutput _ _ ≫= _) =>
      apply (setsOutputs_bind [_] _); [apply setsOutputs_setOutput|intros]
  | |- setsOutputs [] _ => silent
  | |- setsOutputs ?names (_ ≫= _) =>
      apply (setsOutputs_bind [] names); [silent|intros]
  | |- setsOutputs _ (match ?x with _ => _ end) => destruct x
  | |- setsOutputs _ (let _ := _ in _) => cbv zeta
  end.

Lemma setup_outputs : setsOutputs ["last-sha"] (setup host inputs).
Proof. unfold setup. repeat outputs_step. Qed.

Lemma checkout_outputs repository targetSha token tempDir :
  setsOutputs ["full-sha"; "short-sha"]
    (checkout host repository targetSha token tempDir).
Proof. unfold checkout. repeat outputs_step. Qed.

Lemma packAndCommit_outputs repository token tempDir lastSha :
  setsOutputs ["full-sha"; "short-sha"; "changelog"; "package-file"]
    (packAndCommit host inputs repository token tempDir lastSha).
Proof.
  unfold packAndCommit, buildAndPack.
  apply (setsOutputs_bind ["full-sha"; "short-sha"; "changelog"; "package-file"] []);
    [|intros [[? ?] ?]; silent].
  apply (setsOutputs_bind ["full-sha"; "short-sha"] ["changelog"; "package-file"]);
    [apply checkout_outputs|intros [? ?]].
  repeat outputs_step.
Qed.

(** X30. A run sets its outputs in one order: [last-sha], [full-sha],
    [short-sha], [changelog], [package-file].  A run that is not marked
    as failed has set all five, each once; a failed run has set the
    first few of them and no other. *)
Theorem run_sets_its_outputs_in_order w :
  let x := run host inputs w in
  if failed (calls x) then outputNames (calls x) `prefix_of` allOutputs
  else outputNames (calls x) = allOutputs.
Proof.
  cbv zeta.
  destruct (run_phases host inputs w) as
    [(e & w1 & l1 & Hsetup & -> & H1)
    |(repository & token & lastSha & tempDir & w1 & l1 & r & w2 & l2 & answer & w3 &
      Hsetup & Hpack & _ & H1 & H2 & ->)];
    cbn [calls snd].
  - rewrite failed_end, outputNames_app. cbn [outputNames outputs omap fmap list_fmap app].
    rewrite app_nil_r.
    pose proof (setup_outputs w) as Hout. rewrite Hsetup in Hout.
    cbn [outcome calls fst snd] in Hout.
    etrans; [exact Hout|]. by exists ["full-sha"; "short-sha"; "changelog"; "package-file"].
  - pose proof (setup_outputs w) as Hout1. rewrite Hsetup in Hout1.
    cbn [outcome calls fst snd] in Hout1.
    pose proof (packAndCommit_outputs repository token tempDir lastSha w1) as Hout2.
    rewrite Hpack in Hout2. cbn [outcome calls fst snd] in Hout2.
    assert (failed (l1 ++ l2 ++ [Rm tempDir answer]) = false) as Hquiet.
    { apply not_failed. rewrite !Forall_app. split_and!.
      - eapply Forall_impl; [exact H1|]. by intros c [? ?].
      - eapply Forall_impl; [exact H2|]. by intros c (? & ? & ?).
      - by repeat constructor. }
    assert (outputNames ((l1 ++ l2 ++ [Rm tempDir answer]) ++
              match answer, r with
              | Throw e, _ | Ret _, Throw e => [SetFailed e]
              | Ret _, Ret _ => []
              end) = "last-sha" :: outputNames l2) as ->.
    { rewrite !outputNames_app, Hout1.
      destruct answer as [[]|?], r as [[]|?]; cbn; by rewrite !app_nil_r. }
    destruct answer as [[]|e'], r as [[]|e];
      rewrite ?app_nil_r, ?failed_end, ?Hquiet.
    + by rewrite Hout2.
    + by apply (prefix_cons "last-sha").
    + by rewrite Hout2.
    + by apply (prefix_cons "last-sha").
Qed.

End RunExtras.


(** *** Claims about the pipeline *)

Section PackClaims.
Import Pack.
Context {W : Type} (host : Host W) (inputs : Inputs).
Implicit Types (w : W).

(** C3, amended.  In five parts.  First, a run writes at most two
    files and in this order: the pin file, then [package.json]; a run
    that wrote nothing, or whose write of the pin file was refused, is
    marked as failed.  Second, when a required input is missing, the
    workspace is not known, or a step before the writes fails (the
    temporary directory, the clone, a change of directory, the lookup
    of the default branch, the checkout, the two [rev-parse], the
    install, the package command, the destination directory, the pack
    command, the listing, a listing without a [.tgz] entry, the
    rename; a failed change log is only a warning), the run writes
    nothing, neither the pin file nor [package.json], and is marked as
    failed.  Third, a run that is not marked as failed has written the
    pin file with the SHA it reported, and nothing else when no package
    name was given (or the artifact path is empty); with a package
    name its second and last write is [package.json], the parsed
    manifest after [setDependency]: for a name other than [__proto__]
    and a manifest that is an object whose [dependencies] is an object,
    left out or falsy, the package's entry is [file:] followed by the
    artifact path the run reported, every other dependency and every
    other top-level property is as it was.  Fourth, the two writes are
    not one update: when [package.json] cannot be read, is not JSON or
    cannot take the entry, the run is marked as failed and the pin file
    is the one file it wrote; nothing is rolled back.  Fifth, a run is
    marked as failed exactly when an input or the workspace is missing,
    one of the steps above fails, a write or the removal of the
    temporary directory is refused, or [package.json] is rejected. *)
Theorem pin_file_then_manifest w :
  let x := run host inputs w in
  let packageName := package_name inputs in
  ((writeCalls (calls x) = [] ∧ failed (calls x) = true)
   ∨ (∃ sha e,
        writeCalls (calls x) = [pinWrite inputs sha (Throw e)] ∧
        failed (calls x) = true)
   ∨ (∃ sha, writeCalls (calls x) = [pinWrite inputs sha (Ret ())])
   ∨ (∃ sha dir content answer,
        GITHUB_WORKSPACE inputs = Some dir ∧
        writeCalls (calls x) =
          [pinWrite inputs sha (Ret ()); manifestWrite host dir content answer]))
  ∧ (JS.truthy (repository inputs) && JS.truthy (token inputs) = false
     ∨ GITHUB_WORKSPACE inputs = None
     ∨ Exists refused (calls x) →
     writeCalls (calls x) = [] ∧ failed (calls x) = true)
  ∧ (failed (calls x) = false →
     ∃ fullSha finalPackage originalDir,
       GITHUB_WORKSPACE inputs = Some originalDir
       ∧ SetOutput "full-sha" fullSha ∈ calls x
       ∧ SetOutput "package-file" finalPackage ∈ calls x
       ∧ pinWrite inputs fullSha (Ret ()) ∈ calls x
       ∧ (JS.truthy packageName && JS.truthy finalPackage = false →
          writeCalls (calls x) = [pinWrite inputs fullSha (Ret ())])
       ∧ (JS.truthy packageName && JS.truthy finalPackage = true →
          ∃ text json json',
            ReadFile (path_join host [originalDir; "package.json"]) (Ret text)
              ∈ calls x
            ∧ JSON_parse host text = Ret json
            ∧ Json.setDependency json packageName ("file:" +:+ finalPackage)
                = Ret json'
            ∧ manifestWrite host originalDir
                (JSON_stringify host json' +:+ JS.nl) (Ret ()) ∈ calls x
            ∧ writeCalls (calls x) =
                [pinWrite inputs fullSha (Ret ());
                 manifestWrite host originalDir
                   (JSON_stringify host json' +:+ JS.nl) (Ret ())]
            ∧ ∀ props,
                json = Json.JObject props →
                packageName ≠ "__proto__" →
                (∀ d, Json.get props "dependencies" = Some d →
                      Json.truthy d = true → ∃ deps, d = Json.JObject deps) →
                ∃ deps',
                  Json.field json' "dependencies" = Some (Json.JObject deps')
                  ∧ Json.get deps' packageName
                      = Some (Json.JString ("file:" +:+ finalPackage))
                  ∧ (∀ key, key ≠ packageName →
                       Json.get deps' key =
                         (d ← Json.get props "dependencies"; Json.field d key))
                  ∧ (∀ key, key ≠ "dependencies" →
                       Json.field json' key = Json.get props key)))
  ∧ (Exists (rejects host packageName) (readsAfterWrite (calls x)) →
     failed (calls x) = true
     ∧ ∃ sha, writeCalls (calls x) = [pinWrite inputs sha (Ret ())])
  ∧ (failed (calls x) = true ↔ cause host inputs (calls x)).
Proof.
  cbv zeta.
  split_and!;
    [apply run_writes|apply run_refused_writes_nothing|
    |apply run_manifest_step_fails|apply run_failed_iff].
  intros Hok.
  destruct (run_success host inputs w Hok) as
    (fullSha & finalPackage & originalDir & Hdir & Hfull & Hpackage & Hpin &
     _ & Hone & Htwo).
  exists fullSha, finalPackage, originalDir. split_and!; [done..|].
  intros Hname.
  destruct (Htwo Hname) as (text & json & json' & Hread & Hparse & Hset & Hmanifest & Hw).
  exists text, json, json'. split_and!; [done..|].
  intros props -> Hproto Hdeps.
  destruct (setDependency_assigns props (package_name inputs)
              ("file:" +:+ finalPackage) Hproto Hdeps)
    as (json0 & deps' & Hset' & Hfield & Hentry & Hothers).
  rewrite Hset in Hset'. injection Hset' as <-.
  destruct (setDependency_frame _ _ _ _ Hset) as (props' & -> & Hframe & _).
  exists deps'. by split_and!.
Qed.


(** C10, amended.  A run without a package name renames nothing and
    makes no read and no write of a file at a path other than the one
    the [file-path] input gives for the pin file: [package.json] is
    neither read nor written, and its dependency entries are as they
    were, provided that input does not name it.  The run is marked as
    failed exactly when an input or the workspace is missing, a step
    before the write fails, or the write or the removal of the
    temporary directory is refused; in the first three cases nothing
    is written, so the pin file is as it was.  When the run is not
    marked as failed, the artifact it reports is a file of the
    destination listing under the name the listing gave, the last
    [.tgz] entry, and its one write is the pin file, with the SHA the
    run reported. *)
Theorem without_package_name_only_the_pin_file_is_touched w :
  package_name inputs = "" →
  let x := run host inputs w in
  Forall (touchesOnly (filePathOf inputs)) (calls x)
  ∧ (∀ path, path ≠ filePathOf inputs →
       (∀ answer, ReadFile path answer ∉ calls x)
       ∧ (∀ content answer, WriteFile path content answer ∉ calls x))
  ∧ (∀ oldPath newPath answer, Rename oldPath newPath answer ∉ calls x)
  ∧ (failed (calls x) = true ↔
     JS.truthy (repository inputs) && JS.truthy (token inputs) = false
     ∨ GITHUB_WORKSPACE inputs = None
     ∨ Exists refused (calls x)
     ∨ Exists undone (calls x))
  ∧ (JS.truthy (repository inputs) && JS.truthy (token inputs) = false
     ∨ GITHUB_WORKSPACE inputs = None
     ∨ Exists refused (calls x) →
     writeCalls (calls x) = [])
  ∧ (failed (calls x) = false →
     ∃ fullSha dir files packedFile,
       SetOutput "full-sha" fullSha ∈ calls x
       ∧ Readdir dir (Ret files) ∈ calls x
       ∧ last (tgzFiles files) = Some packedFile
       ∧ SetOutput "package-file"
           (path_join host [packDestinationOf inputs; packedFile]) ∈ calls x
       ∧ WriteFile (filePathOf inputs) (fileContent "" fullSha) (Ret ()) ∈ calls x
       ∧ writeCalls (calls x) =
           [WriteFile (filePathOf inputs) (fileContent "" fullSha) (Ret ())]).
Proof.
  intros Hno. cbv zeta.
  pose proof (run_touches_only_the_version_file host inputs Hno w) as Honly.
  split_and!; [done| | | |apply run_refused_writes_nothing|].
  - intros path Hpath. split.
    + intros answer Hin. by eapply Forall_forall in Honly; [|exact Hin].
    + intros content answer Hin. by eapply Forall_forall in Honly; [|exact Hin].
  - intros oldPath newPath answer Hin.
    by eapply Forall_forall in Honly; [|exact Hin].
  - rewrite run_failed_iff. unfold cause, stepFailed.
    rewrite (run_without_name_reads host inputs w Hno), Exists_nil. tauto.
  - intros Hok.
    destruct (run_success host inputs w Hok)
      as (fullSha & finalPackage & _ & _ & ? & ? & Hpin & Hname & Hone & _).
    destruct (Hname Hno) as (dir & files & packedFile & ? & ? & ->).
    unfold pinWrite in Hpin, Hone. rewrite Hno in Hpin, Hone.
    exists fullSha, dir, files, packedFile. split_and!; [done..|].
    by apply Hone.
Qed.

End PackClaims.


(** *** The pipeline on a concrete workspace *)

Section PackInstances.
Import Pack Scenario.

(** C3 as stated fails: [package.json] carries a conflict marker, so
    [JSON.parse] throws after the pin file has been written.  The run is
    marked as failed, the pin file holds the new SHA, [package.json] is
    as it was, and the renamed artifact stays in the destination. *)
Lemma pack_is_not_all_or_nothing :
  let x := run (Sim.packHost upstream) (packInputs "@temporalio/ui") conflicted in
  failed (calls x) = true
  ∧ last (calls x) = Some (SetFailed "Unexpected token in JSON")
  ∧ Sim.files conflicted !! "/ws/.ui-sha" = Some (previousSha +:+ JS.nl)
  ∧ Sim.files (world x) !! "/ws/.ui-sha" = Some (fileContent "@temporalio/ui" headSha)
  ∧ Sim.files (world x) !! "/ws/package.json" = Sim.files conflicted !! "/ws/package.json"
  ∧ Sim.files (world x) !! "/ws/packs/temporalio-ui-1.2.3-0123456.tgz" = Some "tarball"
  ∧ writeCalls (calls x) =
      [WriteFile ".ui-sha" (fileContent "@temporalio/ui" headSha) (Ret ())].
Proof. vm_compute. repeat split. Qed.

(** A run with a package name on a workspace whose [package.json] is
    [{}]: it is not marked as failed, both files are written, and the
    manifest it writes has the entry of the package. *)
Lemma pin_file_then_manifest_witness :
  let host := Sim.packHost upstream in
  let inputs := packInputs "@temporalio/ui" in
  let x := run host inputs (workspace "{}") in
  failed (calls x) = false
  ∧ ∃ fullSha finalPackage originalDir,
      GITHUB_WORKSPACE inputs = Some originalDir
      ∧ SetOutput "full-sha" fullSha ∈ calls x
      ∧ SetOutput "package-file" finalPackage ∈ calls x
      ∧ pinWrite inputs fullSha (Ret ()) ∈ calls x
      ∧ (JS.truthy (package_name inputs) && JS.truthy finalPackage = false →
         writeCalls (calls x) = [pinWrite inputs fullSha (Ret ())])
      ∧ (JS.truthy (package_name inputs) && JS.truthy finalPackage = true →
         ∃ text json json',
           ReadFile (path_join host [originalDir; "package.json"]) (Ret text)
             ∈ calls x
           ∧ JSON_parse host text = Ret json
           ∧ Json.setDependency json (package_name inputs)
               ("file:" +:+ finalPackage) = Ret json'
           ∧ manifestWrite host originalDir
               (JSON_stringify host json' +:+ JS.nl) (Ret ()) ∈ calls x
           ∧ writeCalls (calls x) =
               [pinWrite inputs fullSha (Ret ());
                manifestWrite host originalDir
                  (JSON_stringify host json' +:+ JS.nl) (Ret ())]
           ∧ ∀ props,
               json = Json.JObject props →
               package_name inputs ≠ "__proto__" →
               (∀ d, Json.get props "dependencies" = Some d →
                     Json.truthy d = true → ∃ deps, d = Json.JObject deps) →
               ∃ deps',
                 Json.field json' "dependencies" = Some (Json.JObject deps')
                 ∧ Json.get deps' (package_name inputs)
                     = Some (Json.JString ("file:" +:+ finalPackage))
                 ∧ (∀ key, key ≠ package_name inputs →
                      Json.get deps' key =
                        (d ← Json.get props "dependencies"; Json.field d key))
                 ∧ (∀ key, key ≠ "dependencies" →
                      Json.field json' key = Json.get props key)).
Proof.
  split; [by vm_compute|].
  apply (proj1 (proj2 (proj2 (pin_file_then_manifest (Sim.packHost upstream)
                                (packInputs "@temporalio/ui") (workspace "{}"))))).
  by vm_compute.
Defined.

(** The same run, observed on the file map and on the manifest it
    wrote. *)
Example run_with_package_name :
  let host := Sim.packHost upstream in
  let x := run host (packInputs "@temporalio/ui") (workspace "{}") in
  let artifact := "packs/temporalio-ui-1.2.3-0123456.tgz" in
  failed (calls x) = false
  ∧ Sim.files (world x) !! "/ws/.ui-sha" = Some (fileContent "@temporalio/ui" headSha)
  ∧ Json.setDependency (Json.JObject []) "@temporalio/ui" ("file:" +:+ artifact)
      = Ret (Json.JObject
               [("dependencies",
                 Json.JObject [("@temporalio/ui", Json.JString ("file:" +:+ artifact))])])
  ∧ Sim.files (world x) !! "/ws/package.json"
      = Some (JSON_stringify host
                (Json.JObject
                   [("dependencies",
                     Json.JObject
                       [("@temporalio/ui", Json.JString ("file:" +:+ artifact))])])
              +:+ JS.nl)
  ∧ Sim.files (world x) !! ("/ws/" +:+ artifact) = Some "tarball".
Proof. vm_compute. repeat split. Qed.



(** C10 as stated fails.  In the first run no package name is given
    and the [file-path] input is [package.json]: the run is not marked
    as failed and the manifest is overwritten with the pin.  In the
    second run no package name is given and the workspace is not
    known: the run is marked as failed and the pin file is as it
    was. *)
Lemma the_pin_file_can_be_the_manifest :
  (let inputs := Cases.pinIsManifest in
   let x := run (Sim.packHost upstream) inputs (workspace "{}") in
   package_name inputs = ""
   ∧ failed (calls x) = false
   ∧ Sim.files (workspace "{}") !! "/ws/package.json" = Some "{}"
   ∧ Sim.files (world x) !! "/ws/package.json" = Some (fileContent "" headSha)
   ∧ writeCalls (calls x) = [WriteFile "package.json" (fileContent "" headSha) (Ret ())])
  ∧ (let inputs := Cases.withoutWorkspace in
     let x := run (Sim.packHost upstream) inputs (workspace "{}") in
     package_name inputs = ""
     ∧ failed (calls x) = true
     ∧ writeCalls (calls x) = []
     ∧ Sim.files (world x) !! "/ws/.ui-sha" = Some (previousSha +:+ JS.nl)).
Proof. vm_compute. repeat split. Qed.

(** A run without a package name that is not marked as failed. *)
Lemma without_package_name_only_the_pin_file_is_touched_witness :
  let host := Sim.packHost upstream in
  let inputs := packInputs "" in
  let x := run host inputs (workspace "{}") in
  package_name inputs = ""
  ∧ failed (calls x) = false
  ∧ Forall (touchesOnly (filePathOf inputs)) (calls x)
  ∧ (∀ path, path ≠ filePathOf inputs →
       (∀ answer, ReadFile path answer ∉ calls x)
       ∧ (∀ content answer, WriteFile path content answer ∉ calls x))
  ∧ (∀ oldPath newPath answer, Rename oldPath newPath answer ∉ calls x)
  ∧ (failed (calls x) = true ↔
     JS.truthy (repository inputs) && JS.truthy (token inputs) = false
     ∨ GITHUB_WORKSPACE inputs = None
     ∨ Exists refused (calls x)
     ∨ Exists undone (calls x))
  ∧ (JS.truthy (repository inputs) && JS.truthy (token inputs) = false
     ∨ GITHUB_WORKSPACE inputs = None
     ∨ Exists refused (calls x) →
     writeCalls (calls x) = [])
  ∧ (failed (calls x) = false →
     ∃ fullSha dir files packedFile,
       SetOutput "full-sha" fullSha ∈ calls x
       ∧ Readdir dir (Ret files) ∈ calls x
       ∧ last (tgzFiles files) = Some packedFile
       ∧ SetOutput "package-file"
           (path_join host [packDestinationOf inputs; packedFile]) ∈ calls x
       ∧ WriteFile (filePathOf inputs) (fileContent "" fullSha) (Ret ()) ∈ calls x
       ∧ writeCalls (calls x) =
           [WriteFile (filePathOf inputs) (fileContent "" fullSha) (Ret ())]).
Proof.
  split; [reflexivity|]. split; [by vm_compute|].
  exact (without_package_name_only_the_pin_file_is_touched (Sim.packHost upstream)
           (packInputs "") (workspace "{}") eq_refl).
Defined.

(** The same run, observed on the file map: [package.json] is as it
    was, the tarball kept its name, the pin file is rewritten. *)
Example run_without_package_name :
  let x := run (Sim.packHost upstream) (packInputs "") (workspace "{}") in
  failed (calls x) = false
  ∧ Sim.files (world x) !! "/ws/package.json" = Some "{}"
  ∧ Sim.files (world x) !! "/ws/packs/ui-1.2.3.tgz" = Some "tarball"
  ∧ Sim.files (world x) !! "/ws/.ui-sha" = Some (fileContent "" headSha)
  ∧ outputs (calls x) !! 4 = Some ("package-file", "packs/ui-1.2.3.tgz")
  ∧ writeCalls (calls x) = [WriteFile ".ui-sha" (fileContent "" headSha) (Ret ())].
Proof. vm_compute. repeat split. Qed.

End PackInstances.


(** ** The further properties on concrete inputs *)

Section ExtrasInstances.
Import Danger SharedConfig Pack Scenario Cases.

(** The TypeScript plugin on the one default configuration, for a
    branch that left a test value in the pin file: one blocked result,
    labelled [.ui-sha]. *)
Lemma multi_results_follow_the_configs_witness :
  let host := Sim.dangerHost testValueLeft in
  let configs := [defaults] in
  ∃ r, outcome (checkMultiplePackVersions host pinEdited configs ()) = Ret r
       ∧ Forall (λ config, filePath config ≠ Some "") configs
       ∧ (results r).*1 = [".ui-sha"]
       ∧ hasFailures r = true
       ∧ (results r).*1 = trackedPath <$> configs
       ∧ hasFailures r = existsb (λ entry, shouldBlock (verdict entry.2)) (results r).
Proof.
  eexists. split; [reflexivity|].
  assert (Forall (λ config, filePath config ≠ Some "") [defaults]) as Hpaths
    by (repeat constructor; discriminate).
  split_and!; [exact Hpaths|reflexivity|reflexivity|..];
    apply (multi_results_follow_the_configs (Sim.dangerHost testValueLeft) pinEdited
             [defaults] () _ Hpaths eq_refl).
Defined.

(** The JavaScript plugin on the same pull request: [fail] was called,
    and the result carries [undefined] as its path. *)
Lemma multi_failures_are_the_calls_of_fail_witness :
  let host := Sim.dangerHost testValueLeft in
  let x := checkMultiplePackVersions_js host pinEdited [defaults] () in
  ∃ r, outcome x = Ret r
       ∧ (results r).*1 = [None]
       ∧ hasFailures r = true
       ∧ (results r).*1 = filePath <$> [defaults]
       ∧ hasFailures r = existsb isFail (calls x).
Proof.
  eexists. split; [reflexivity|]. split_and!; [reflexivity|reflexivity|..];
    apply (multi_failures_are_the_calls_of_fail (Sim.dangerHost testValueLeft)
             pinEdited [defaults] () _ eq_refl).
Defined.

(** A pin file as the pipeline writes it: the version read from the
    working copy is the comment line. *)
Lemma working_copy_version_is_the_first_line_witness :
  oneLine commentLine = true
  ∧ firstLine (commentLine +:+ JS.nl +:+ headSha +:+ JS.nl) = JS.trim commentLine.
Proof.
  split; [reflexivity|].
  exact (working_copy_version_is_the_first_line commentLine (headSha +:+ JS.nl) eq_refl).
Defined.

(** The UI and the Registry pack on the pull request that rewrote
    [.ui-sha]: two results, the first blocked. *)
Lemma temporal_checks_cover_the_selected_packs_witness :
  let host := sharedHost testValueLeft in
  let x := runTemporalPackChecks host pinEdited uiAndRegistry () in
  ∃ r, outcome x = Ret r
       ∧ (results r).*1 = [Some ".ui-sha"; Some ".registry-sha"]
       ∧ (shouldBlock <$> (results r).*2) = [true; false]
       ∧ hasFailures r = existsb isFail (calls x).
Proof.
  eexists. split; [reflexivity|]. split_and!; [reflexivity|reflexivity|].
  apply (temporal_checks_cover_the_selected_packs (sharedHost testValueLeft)
           pinEdited uiAndRegistry () _ eq_refl).
Defined.

Lemma temporal_checks_without_a_pack_witness :
  runTemporalPackChecks (sharedHost testValueLeft) pinEdited nothingToCheck () =
    (Ret nothingChecked, (), []).
Proof.
  apply (temporal_checks_without_a_pack (sharedHost testValueLeft) pinEdited
           nothingToCheck () eq_refl); [discriminate|reflexivity].
Defined.

(** A pull request that deletes [.ui-sha] and edits the README: no
    modified or created file is pack-related, so nothing is checked. *)
Lemma smart_checks_skip_without_pack_files_witness :
  ".ui-sha" ∈ deleted_files pinDeleted
  ∧ smartPackChecks (sharedHost removedOnBranch) pinDeleted () =
      (Ret nothingChecked, (),
       [ConsoleLog "No pack-related files were modified, skipping pack checks"]).
Proof.
  split; [apply list_elem_of_here|].
  apply (smart_checks_skip_without_pack_files (sharedHost removedOnBranch) pinDeleted ()).
  by repeat constructor.
Defined.

(** A pull request that changed a UI component on a stale branch: the
    UI pack is checked and passes, the pin file being untouched. *)
Lemma smart_checks_pass_when_no_pin_file_is_touched_witness :
  let x := smartPackChecks (sharedHost staleBranch) componentEdited () in
  ∃ r, outcome x = Ret r
       ∧ (results r).*1 = [Some ".ui-sha"]
       ∧ hasFailures r = false
       ∧ Forall (λ entry, shouldBlock entry.2 = false) (results r).
Proof.
  eexists. split; [reflexivity|]. split; [reflexivity|].
  apply (smart_checks_pass_when_no_pin_file_is_touched (sharedHost staleBranch)
           componentEdited () _); [|reflexivity].
  intros f Hf Hin. cbn in Hin.
  apply list_elem_of_singleton in Hin. subst f.
  repeat (apply elem_of_cons in Hf as [Hf|Hf]; [discriminate Hf|]).
  by apply elem_of_nil in Hf.
Defined.

Lemma matchVersion_is_the_version_before_tgz_witness :
  matchVersion "ui-1.10.0.tgz" = Some "1.10.0"
  ∧ isVersion "1.10.0" = true
  ∧ ∃ front, "ui-1.10.0.tgz" = front +:+ "1.10.0" +:+ ".tgz".
Proof.
  split; [reflexivity|].
  exact (matchVersion_is_the_version_before_tgz "ui-1.10.0.tgz" "1.10.0" eq_refl).
Defined.

Lemma pin_file_round_trip_witness :
  matchSha (fileContent "@temporalio/ui" headSha) = Some headSha.
Proof. exact (pin_file_round_trip "@temporalio/ui" headSha eq_refl eq_refl). Defined.

(** A manifest with a name, one dependency and a flag: the new
    dependency goes into [dependencies], everything else stays. *)
Lemma setDependency_keeps_the_other_fields_witness :
  ∃ json props',
    Json.setDependency (Json.JObject manifest) "@temporalio/ui" "file:packs/ui.tgz"
      = Ret json
    ∧ json = Json.JObject props'
    ∧ (∀ key, key ≠ "dependencies" → Json.get props' key = Json.get manifest key)
    ∧ Json.keys props' = ["name"; "dependencies"; "private"].
Proof.
  eexists.
  destruct (setDependency_keeps_the_other_fields manifest "@temporalio/ui"
              "file:packs/ui.tgz" _ eq_refl) as (props' & Hjson & Hkeep & Hkeys).
  exists props'. split_and!; [reflexivity|exact Hjson|exact Hkeep|exact Hkeys].
Defined.

Lemma setDependency_sets_the_dependency_witness :
  ∃ json deps',
    Json.setDependency (Json.JObject manifest) "@temporalio/ui" "file:packs/ui.tgz"
      = Ret json
    ∧ Json.field json "dependencies" = Some (Json.JObject deps')
    ∧ Json.get deps' "@temporalio/ui" = Some (Json.JString "file:packs/ui.tgz")
    ∧ ∀ key, key ≠ "@temporalio/ui" →
        Json.get deps' key =
          (d ← Json.get manifest "dependencies"; Json.field d key).
Proof.
  apply (setDependency_sets_the_dependency manifest "@temporalio/ui" "file:packs/ui.tgz").
  - discriminate.
  - intros d [= <-] _. by eexists.
Defined.

(** The temporary directory cannot be removed: the pin file is written,
    the closing message is logged, and the run is marked as failed. *)
Lemma a_failed_cleanup_fails_the_run_witness :
  let x := run stuckHost (packInputs "") (workspace "{}") in
  let busy := "EBUSY: resource busy or locked" in
  Rm "/tmp/pack-Ab12Cd" (Throw busy) ∈ calls x
  ∧ Info "Pack complete!" ∈ calls x
  ∧ last (calls x) = Some (SetFailed busy).
Proof.
  assert (Rm "/tmp/pack-Ab12Cd" (Throw "EBUSY: resource busy or locked")
            ∈ calls (run stuckHost (packInputs "") (workspace "{}"))) as Hrm.
  { vm_compute. repeat first [apply list_elem_of_here | apply list_elem_of_further]. }
  split_and!; [exact Hrm| |].
  - vm_compute. repeat first [apply list_elem_of_here | apply list_elem_of_further].
  - exact (a_failed_cleanup_fails_the_run stuckHost (packInputs "") (workspace "{}")
             _ _ Hrm).
Defined.

Lemma run_without_a_required_input_witness :
  run (Sim.packHost upstream) withoutRepository (workspace "{}") =
    (Ret (), workspace "{}",
     [SetFailed "Input required and not supplied: repository"]).
Proof.
  exact (run_without_a_required_input (Sim.packHost upstream) withoutRepository
           (workspace "{}") eq_refl).
Defined.

(** An input of white space is not missing: the run goes on with the
    empty string as the repository. *)
Example run_with_a_blank_repository :
  let x := run (Sim.packHost upstream) (inputsWith " " "" (Some "/ws")) (workspace "{}") in
  head (calls x) = Some (Info "Repository: ")
  ∧ failed (calls x) = false.
Proof. by vm_compute. Qed.

Lemma run_needs_the_workspace_witness :
  let x := run (Sim.packHost upstream) withoutWorkspace (workspace "{}") in
  failed (calls x) = true ∧ writeCalls (calls x) = [].
Proof.
  exact (run_needs_the_workspace (Sim.packHost upstream) withoutWorkspace
           (workspace "{}") eq_refl).
Defined.

Lemma run_with_a_target_does_not_ask_the_api_witness :
  let x := run (Sim.packHost upstream) withTarget (workspace "{}") in
  failed (calls x) = false ∧ Forall (λ c, isReposGet c = false) (calls x).
Proof.
  split; [by vm_compute|].
  exact (run_with_a_target_does_not_ask_the_api (Sim.packHost upstream) withTarget
           (workspace "{}") eq_refl).
Defined.

End ExtrasInstances.
